(** * Felix: a content-addressed, bitemporal fact store (felix.cpp)

    A shallow embedding of [src/felix.cpp] and the verification of its
    canonicalization layer and of its fact-store engine.

    Conventions of the embedding.
    - [std::string] and [std::string_view] are [string] (a list of 8-bit
      characters); [std::vector<uint8_t>] and [std::array<uint8_t,32>] are
      [list byte].
    - C++ exceptions are the [Err] results of an error monad; each [throw]
      site is mapped to the error kind that names it.
    - The ICU, OpenSSL, libc floating-point and nlohmann routines the program
      calls are the fields of a record [Lib]; nothing is assumed about them.
    - A SQLite table is the list of its rows in insertion order.  Failures of
      the storage substrate itself (I/O, allocation, a full rowid space) are
      outside the model: a statement fails only through a constraint. *)

From Stdlib Require Import ZArith List Bool Ascii String Strings.Byte Lia Permutation.
From Stdlib Require Import Numbers.DecimalString Floats.SpecFloat.
Import ListNotations.

Local Open Scope string_scope.
Local Open Scope Z_scope.

(** ** Errors and the error monad *)

Inductive Error : Type :=
| BadEncoding | BadBase64 | BadUuid | BadBool | BadInt | BadFloat | BadTag
| UnsupportedInLegacy | ReservedType | FieldTooLong | FieldsPerCallExceeded
| ValueTooLarge | LineTooLarge | ParseError | UnknownFieldId | UnknownValueId
| Duplicate | StorageError.

Inductive result (A : Type) : Type :=
| Ok (a : A)
| Err (e : Error).
Arguments Ok {A} a.
Arguments Err {A} e.

Definition rbind {A B : Type} (m : result A) (k : A -> result B) : result B :=
  match m with
  | Ok a => k a
  | Err e => Err e
  end.

Declare Scope res_scope.
Delimit Scope res_scope with res.
Notation "'let!' x ':=' m 'in' k" := (rbind m (fun x => k))
  (at level 10, x pattern, m at level 100, k at level 200) : res_scope.
Local Open Scope res_scope.

(** ** Fixed-width integers *)

Definition to_uint64 (z : Z) : Z := z mod 2 ^ 64.
Definition to_uint32 (z : Z) : Z := z mod 2 ^ 32.
Definition to_int64 (z : Z) : Z := (z + 2 ^ 63) mod 2 ^ 64 - 2 ^ 63.
Definition to_int32 (z : Z) : Z := (z + 2 ^ 31) mod 2 ^ 32 - 2 ^ 31.

Definition INT64_MIN : Z := - 2 ^ 63.
Definition INT64_MAX : Z := 2 ^ 63 - 1.
Definition UINT64_MAX : Z := 2 ^ 64 - 1.

(** ** Characters and strings *)

(** [std::isspace] in the "C" locale (the program never calls [setlocale]):
    space, and the five controls from horizontal tab to carriage return. *)
Definition isspace (c : ascii) : bool :=
  let n := nat_of_ascii c in
  Nat.eqb n 32 || (Nat.leb 9 n && Nat.leb n 13).

Definition isdigit (c : ascii) : bool :=
  let n := nat_of_ascii c in
  Nat.leb 48 n && Nat.leb n 57.

Definition digit_val (c : ascii) : Z := Z.of_nat (nat_of_ascii c) - 48.

Definition NUL : ascii := "000"%char.

(** [sv[i]]; reading at [size()] yields the terminator of [c_str()]. *)
Definition char_at (sv : string) (i : nat) : ascii :=
  match String.get i sv with
  | Some c => c
  | None => NUL
  end.

Definition size (sv : string) : nat := String.length sv.

(** [while (b < sv.size() && std::isspace(sv[b])) b++;] with [n] the number
    of positions left to visit. *)
Fixpoint trim_scan_fwd (sv : string) (b n : nat) : nat :=
  match n with
  | O => b
  | S n' => if isspace (char_at sv b) then trim_scan_fwd sv (S b) n' else b
  end.

(** [while (e > b && std::isspace(sv[e - 1])) e--;] *)
Fixpoint trim_scan_bwd (sv : string) (b e : nat) : nat :=
  match e with
  | O => O
  | S e' =>
      if Nat.ltb b e && isspace (char_at sv e') then trim_scan_bwd sv b e' else e
  end.

Definition trim_copy (sv : string) : string :=
  let b := trim_scan_fwd sv 0 (size sv) in
  let e := trim_scan_bwd sv b (size sv) in
  String.substring b (e - b) sv.

(** [s.find(c)] *)
Fixpoint find_char (c : ascii) (s : string) : option nat :=
  match s with
  | EmptyString => None
  | String d r =>
      if Ascii.eqb d c then Some O
      else match find_char c r with
           | Some i => Some (S i)
           | None => None
           end
  end.

(** [s.substr(pos)] *)
Definition substr_from (pos : nat) (s : string) : string :=
  String.substring pos (size s - pos) s.

(** The bytes a NUL-terminated reader sees: [sqlite3_bind_text(.., s.c_str(), -1, ..)]. *)
Fixpoint c_str (s : string) : string :=
  match s with
  | EmptyString => EmptyString
  | String c r => if Ascii.eqb c NUL then EmptyString else String c (c_str r)
  end.

(** [std::to_string(int64_t)] *)
Definition to_string (x : Z) : string := NilZero.string_of_int (Z.to_int x).

(** *** [std::stoll] and [std::stoull], base 10

    Both skip leading [isspace] characters, read an optional sign and then the
    longest run of decimal digits; no digit is [std::invalid_argument], a value
    out of range is [std::out_of_range].  The result carries [idx], the number
    of characters consumed. *)

Fixpoint skip_space (s : string) : nat :=
  match s with
  | String c r => if isspace c then S (skip_space r) else O
  | EmptyString => O
  end.

Fixpoint read_digits (s : string) (acc : Z) : Z * nat :=
  match s with
  | String c r =>
      if isdigit c then
        let '(v, n) := read_digits r (acc * 10 + digit_val c) in (v, S n)
      else (acc, O)
  | EmptyString => (acc, O)
  end.

(** sign, magnitude and characters consumed; [None] when there is no digit. *)
Definition strto_core (s : string) : option (bool * Z * nat) :=
  let ws := skip_space s in
  let s1 := substr_from ws s in
  let '(neg, sg) :=
    match s1 with
    | String "-" _ => (true, 1%nat)
    | String "+" _ => (false, 1%nat)
    | _ => (false, 0%nat)
    end in
  let '(v, n) := read_digits (substr_from sg s1) 0 in
  match n with
  | O => None
  | _ => Some (neg, v, (ws + sg + n)%nat)
  end.

Definition stoll (s : string) : option (Z * nat) :=
  match strto_core s with
  | None => None
  | Some (neg, v, idx) =>
      let x := if neg then - v else v in
      if (INT64_MIN <=? x) && (x <=? INT64_MAX) then Some (x, idx) else None
  end.

Definition stoull (s : string) : option (Z * nat) :=
  match strto_core s with
  | None => None
  | Some (neg, v, idx) =>
      if v <=? UINT64_MAX then Some (to_uint64 (if neg then - v else v), idx)
      else None
  end.

(** ** Library routines

    [double] is an IEEE-754 binary64 datum. *)
Definition double : Type := spec_float.

(** The value model of nlohmann::json. *)
#[local] Set Warnings "-register-all".
Inductive json : Type :=
| JNull
| JBool (b : bool)
| JInt (z : Z)              (* number_integer, an int64_t *)
| JUInt (z : Z)             (* number_unsigned, a uint64_t *)
| JFloat (d : double)
| JString (s : string)
| JArray (l : list json)
| JObject (l : list (string * json)).


Record Lib : Type := {
  (** [icu::UnicodeString::fromUTF8(s).toUTF8String(round)] *)
  icu_utf8_round : string -> string;
  (** [icu::Normalizer2::getNFCInstance()->normalize], UTF-8 in and out *)
  icu_nfc : string -> string;
  (** [EVP_Digest*] with [EVP_sha256()] *)
  evp_sha256 : list byte -> list byte;
  (** [EVP_DecodeBlock]: the [n] bytes written, [None] when [n < 0] *)
  evp_decode_block : string -> option (list byte);
  (** [nlohmann::detail::to_chars] on a finite nonzero double *)
  to_chars : double -> string;
  (** [std::strtod]: the value, the characters consumed, [errno == ERANGE] *)
  strtod : string -> double * nat * bool;
  (** [static_cast<double>] of an integer JSON number *)
  double_of_int : Z -> double;
  (** [static_cast] of a floating JSON number to a 64-bit integer *)
  int_of_double : double -> Z;
  (** [json::parse], [None] when it throws *)
  json_parse : string -> option json
}.

(** ** The type system *)

Inductive LogicalType : Type :=
| Null | Bool | Int | Float | Text | Bytes | Uuid | JsonReserved.

Inductive TagMapVersion : Type := LegacyV02 | FelixV03.
Inductive HashFormatVersion : Type := LegacyNoSep | FelixV03Sep.

Definition LogicalType_eqb (a b : LogicalType) : bool :=
  match a, b with
  | Null, Null | Bool, Bool | Int, Int | Float, Float | Text, Text
  | Bytes, Bytes | Uuid, Uuid | JsonReserved, JsonReserved => true
  | _, _ => false
  end.

Definition type_tag_byte (v : TagMapVersion) (t : LogicalType) : result Z :=
  match v with
  | LegacyV02 =>
      match t with
      | Text => Ok 1
      | Int => Ok 2
      | Float => Ok 3
      | Bool => Ok 4
      | Null => Ok 5
      | JsonReserved => Ok 6
      | _ => Err UnsupportedInLegacy
      end
  | FelixV03 =>
      match t with
      | Null => Ok 0
      | Bool => Ok 1
      | Int => Ok 2
      | Float => Ok 3
      | Text => Ok 4
      | Bytes => Ok 5
      | Uuid => Ok 6
      | JsonReserved => Ok 7
      end
  end.

Definition logical_type_from_tag (v : TagMapVersion) (tag : Z) : result LogicalType :=
  match v with
  | LegacyV02 =>
      match tag with
      | 1 => Ok Text
      | 2 => Ok Int
      | 3 => Ok Float
      | 4 => Ok Bool
      | 5 => Ok Null
      | 6 => Ok JsonReserved
      | _ => Err BadTag
      end
  | FelixV03 =>
      match tag with
      | 0 => Ok Null
      | 1 => Ok Bool
      | 2 => Ok Int
      | 3 => Ok Float
      | 4 => Ok Text
      | 5 => Ok Bytes
      | 6 => Ok Uuid
      | 7 => Ok JsonReserved
      | _ => Err BadTag
      end
  end.

Definition type_to_string (t : LogicalType) : string :=
  match t with
  | Null => "null"
  | Bool => "bool"
  | Int => "int"
  | Float => "float"
  | Text => "text"
  | Bytes => "bytes"
  | Uuid => "uuid"
  | JsonReserved => "json"
  end.

Definition logical_type_from_string (s : string) : result LogicalType :=
  if String.eqb s "null" then Ok Null
  else if String.eqb s "bool" then Ok Bool
  else if String.eqb s "int" then Ok Int
  else if String.eqb s "float" then Ok Float
  else if String.eqb s "text" then Ok Text
  else if String.eqb s "bytes" then Ok Bytes
  else if String.eqb s "uuid" then Ok Uuid
  else if String.eqb s "json" then Ok JsonReserved
  else Err ParseError.

Definition parse_type (s : string) : result LogicalType :=
  let! t := logical_type_from_string (trim_copy s) in
  match t with
  | JsonReserved => Err ReservedType
  | _ => Ok t
  end.

Definition byte_of_Z (z : Z) : byte :=
  match Byte.of_N (Z.to_N z) with
  | Some b => b
  | None => x00
  end.

Definition bytes_of (s : string) : list byte := list_byte_of_string s.

(** ** Canonical values *)

Record CanonValue : Type := mkCanon {
  logical_type : LogicalType;
  canon_text : string;        (* text, int, float, bool, null, uuid *)
  canon_blob : list byte;     (* bytes *)
  cv_hash : list byte         (* computed at insertion time *)
}.

(** [CanonValue cv{}; cv.logical_type = t;] *)
Definition cv_init (t : LogicalType) : CanonValue := mkCanon t "" [] (repeat x00 32).

Definition with_text (cv : CanonValue) (s : string) : CanonValue :=
  mkCanon (logical_type cv) s (canon_blob cv) (cv_hash cv).

Definition with_blob (cv : CanonValue) (b : list byte) : CanonValue :=
  mkCanon (logical_type cv) (canon_text cv) b (cv_hash cv).

Definition is_number_integer (v : json) : bool :=
  match v with JInt _ | JUInt _ => true | _ => false end.

Definition is_number (v : json) : bool :=
  match v with JInt _ | JUInt _ | JFloat _ => true | _ => false end.

Definition is_hex (c : ascii) : bool :=
  let n := nat_of_ascii c in
  (Nat.leb 48 n && Nat.leb n 57) || (Nat.leb 97 n && Nat.leb n 102)
  || (Nat.leb 65 n && Nat.leb n 70).

(** [std::tolower] in the "C" locale *)
Definition tolower (c : ascii) : ascii :=
  let n := nat_of_ascii c in
  if Nat.leb 65 n && Nat.leb n 90 then ascii_of_nat (n + 32) else c.

(** The loop of [canonicalize_uuid] from position [i] on. *)
Fixpoint uuid_loop (s : string) (i : nat) : result string :=
  match s with
  | EmptyString => Ok EmptyString
  | String c r =>
      if Nat.eqb i 8 || Nat.eqb i 13 || Nat.eqb i 18 || Nat.eqb i 23 then
        if Ascii.eqb c "-" then
          let! r' := uuid_loop r (S i) in Ok (String c r')
        else Err BadUuid
      else if is_hex c then
        let! r' := uuid_loop r (S i) in Ok (String (tolower c) r')
      else Err BadUuid
  end.

Definition canonicalize_uuid (s_in : string) : result string :=
  let s := trim_copy s_in in
  if negb (Nat.eqb (size s) 36) then Err BadUuid
  else uuid_loop s 0.

(** [mant.pop_back()] while the last character is ['0'], on the reversed string. *)
Fixpoint drop_zeros (rev_mant : list ascii) : list ascii :=
  match rev_mant with
  | c :: r => if Ascii.eqb c "0" then drop_zeros r else rev_mant
  | [] => []
  end.

Definition strip_mantissa (mant : string) : string :=
  match find_char "." mant with
  | Some _ =>
      let m1 := drop_zeros (rev (list_ascii_of_string mant)) in
      let m2 := match m1 with
                | c :: r => if Ascii.eqb c "." then r else m1
                | [] => []
                end in
      string_of_list_ascii (rev m2)
  | None => mant
  end.

Fixpoint lower_exponent (s : string) : string :=
  match s with
  | EmptyString => EmptyString
  | String c r => String (if Ascii.eqb c "E" then "e"%char else c) (lower_exponent r)
  end.

Section WithLib.

Variable L : Lib.

Definition require_utf8 (s : string) : result unit :=
  let round := icu_utf8_round L s in
  if negb (Nat.eqb (size round) (size s)) || negb (String.eqb round s)
  then Err BadEncoding else Ok tt.

Definition nfc_normalize_utf8 (utf8_in : string) : string := icu_nfc L utf8_in.

Definition sha256_bytes (data : list byte) : list byte := evp_sha256 L data.

Definition is_ws4 (c : ascii) : bool :=
  Ascii.eqb c " " || Ascii.eqb c "009" || Ascii.eqb c "013" || Ascii.eqb c "010".

Fixpoint strip_ws4 (s : string) : string :=
  match s with
  | EmptyString => EmptyString
  | String c r => if is_ws4 c then strip_ws4 r else String c (strip_ws4 r)
  end.

Definition base64_decode_strict (b64 : string) : result (list byte) :=
  let s := strip_ws4 b64 in
  if Nat.eqb (size s) 0 then Ok []
  else
    match evp_decode_block L s with
    | None => Err BadBase64
    | Some out =>
        let pad1 := if Ascii.eqb (char_at s (size s - 1)) "=" then 1%nat else 0%nat in
        let pad2 := if Nat.leb 2 (size s) && Ascii.eqb (char_at s (size s - 2)) "="
                    then 1%nat else 0%nat in
        let pad := (pad1 + pad2)%nat in
        if Nat.ltb (List.length out) pad then Err BadBase64
        else Ok (firstn (List.length out - pad) out)
    end.

Definition sha256_typed (tagmap : TagMapVersion) (hfmt : HashFormatVersion)
    (t : LogicalType) (canon_bytes : list byte) : result (list byte) :=
  let! tag := type_tag_byte tagmap t in
  let buf := ([byte_of_Z tag]
              ++ (match hfmt with FelixV03Sep => [x00] | LegacyNoSep => [] end)
              ++ canon_bytes)%list in
  Ok (sha256_bytes buf).

Definition canonicalize_float64 (d : double) : result string :=
  match d with
  | S754_nan => Err BadFloat
  | S754_infinity sg => Ok (if sg then "-inf" else "inf")
  | S754_zero _ => Ok "0"
  | S754_finite _ _ _ =>
      let s := lower_exponent (to_chars L d) in
      let epos := find_char "e" s in
      let mant := match epos with None => s | Some i => String.substring 0 i s end in
      let exp := match epos with None => "" | Some i => substr_from i s end in
      let s' := strip_mantissa mant ++ exp in
      Ok (if String.eqb s' "-0" then "0" else s')
  end.

(** [canonicalize_typed_value(LogicalType, const json&)] *)
Definition canonicalize_typed_value_json (t : LogicalType) (v : json) : result CanonValue :=
  let cv := cv_init t in
  match t with
  | Null => Ok (with_text cv "null")
  | Bool =>
      match v with
      | JBool b => Ok (with_text cv (if b then "true" else "false"))
      | _ => Err BadBool
      end
  | Int =>
      match v with
      | JInt x => Ok (with_text cv (to_string (to_int64 x)))
      | JUInt x => Ok (with_text cv (to_string (to_int64 x)))
      | _ => Err BadInt
      end
  | Float =>
      let! d := match v with
                | JInt x | JUInt x => Ok (double_of_int L x)
                | JFloat d => Ok d
                | _ => Err BadFloat
                end in
      let! s := canonicalize_float64 d in
      Ok (with_text cv s)
  | Text =>
      match v with
      | JString raw =>
          let! _ := require_utf8 raw in
          Ok (with_text cv (nfc_normalize_utf8 (trim_copy raw)))
      | _ => Err ParseError
      end
  | Uuid =>
      match v with
      | JString raw =>
          let! _ := require_utf8 raw in
          let! s := canonicalize_uuid raw in
          Ok (with_text cv s)
      | _ => Err BadUuid
      end
  | Bytes =>
      match v with
      | JString b64 =>
          let! _ := require_utf8 b64 in
          let! b := base64_decode_strict b64 in
          Ok (with_blob cv b)
      | _ => Err BadBase64
      end
  | JsonReserved => Err ReservedType
  end.

(** [canonicalize_typed_value(LogicalType, std::string_view)] *)
Definition canonicalize_typed_value (t : LogicalType) (raw : string) : result CanonValue :=
  let cv := cv_init t in
  match t with
  | Null => Ok (with_text cv "null")
  | Bool =>
      let s := trim_copy raw in
      if negb (String.eqb s "true") && negb (String.eqb s "false") then Err BadBool
      else Ok (with_text cv s)
  | Int =>
      let s := trim_copy raw in
      if Nat.eqb (size s) 0 then Err BadInt
      else
        match stoll s with
        | None => Err BadInt
        | Some (vll, idx) =>
            if negb (Nat.eqb idx (size s)) then Err BadInt
            else Ok (with_text cv (to_string vll))
        end
  | Float =>
      let s := trim_copy raw in
      if String.eqb s "inf" || String.eqb s "+inf" then Ok (with_text cv "inf")
      else if String.eqb s "-inf" then Ok (with_text cv "-inf")
      else if String.eqb s "nan" || String.eqb s "NaN" || String.eqb s "NAN" then Err BadFloat
      else
        let '(d, endp, erange) := strtod L s in
        if Nat.eqb endp 0 || negb (Ascii.eqb (char_at s endp) NUL) || erange
        then Err BadFloat
        else
          let! c := canonicalize_float64 d in
          Ok (with_text cv c)
  | Text =>
      let! _ := require_utf8 raw in
      Ok (with_text cv (nfc_normalize_utf8 (trim_copy raw)))
  | Uuid =>
      let! _ := require_utf8 raw in
      let! s := canonicalize_uuid raw in
      Ok (with_text cv s)
  | Bytes =>
      let! _ := require_utf8 raw in
      let! b := base64_decode_strict raw in
      Ok (with_blob cv b)
  | JsonReserved => Err ReservedType
  end.

Definition canonicalize_field_hash (field_name : string) : list byte :=
  let canon := nfc_normalize_utf8 (trim_copy field_name) in
  let prefix := "field" in
  sha256_bytes (bytes_of prefix ++ bytes_of canon)%list.

End WithLib.

(** ** The SQLite store

    The rows of the five tables and of [meta]; integer columns hold SQLite's
    64-bit signed integers. *)

Record FieldsRow : Type := mkFieldsRow {
  fields_field_id : Z;
  fields_name_canon : string;
  fields_hash : list byte
}.

Record ValuesRow : Type := mkValuesRow {
  values_value_id : Z;
  values_type_tag : Z;
  values_canon_text : option string;
  values_canon_blob : option (list byte);
  values_hash : list byte
}.

Record RecordsRow : Type := mkRecordsRow {
  records_record_id : Z;
  records_created_ts : Z
}.

(** A row of [facts] or of [current_facts]. *)
Record SqlFact : Type := mkSqlFact {
  col_record_id : Z;
  col_field_id : Z;
  col_value_id : Z;
  col_ts : Z
}.

Record DB : Type := mkDB {
  meta : list (string * string);
  fields : list FieldsRow;
  f_values : list ValuesRow;
  records : list RecordsRow;
  facts : list SqlFact;
  current_facts : list SqlFact
}.

(** [struct FactRow] *)
Record FactRow : Type := mkFactRow {
  record_id : Z;    (* uint64_t *)
  field_id : Z;     (* uint32_t *)
  value_id : Z;     (* uint64_t *)
  ts_ms : Z         (* int64_t *)
}.

Record FieldRow : Type := mkFieldRow {
  fr_field_id : Z;
  fr_name_canon : string
}.

Record ValueRow : Type := mkValueRow {
  vr_value_id : Z;
  vr_type : LogicalType;
  vr_canon_text : string
}.

(** [class FelixSqlite]: the database behind [db_] and the private members. *)
Record FelixSqlite : Type := mkStore {
  db_ : DB;
  tagmap_ : TagMapVersion;
  hashfmt_ : HashFormatVersion;
  null_value_id_ : Z
}.

(** *** Statements and exceptions over the store *)

Definition M (A : Type) : Type := FelixSqlite -> result A * FelixSqlite.

Definition ret {A : Type} (a : A) : M A := fun s => (Ok a, s).
Definition throw {A : Type} (e : Error) : M A := fun s => (Err e, s).
Definition lift {A : Type} (r : result A) : M A := fun s => (r, s).

Definition bind {A B : Type} (m : M A) (k : A -> M B) : M B :=
  fun s =>
    match m s with
    | (Ok a, s') => k a s'
    | (Err e, s') => (Err e, s')
    end.

Declare Scope store_scope.
Delimit Scope store_scope with store.
Notation "x <- m ;; k" := (bind m (fun x => k))
  (at level 61, m at next level, right associativity) : store_scope.
Notation "m ;;; k" := (bind m (fun _ => k))
  (at level 61, right associativity) : store_scope.
Local Open Scope store_scope.

Definition get_db : M DB := fun s => (Ok (db_ s), s).

Definition set_db (d : DB) (s : FelixSqlite) : FelixSqlite :=
  mkStore d (tagmap_ s) (hashfmt_ s) (null_value_id_ s).

Definition put_db (d : DB) : M unit := fun s => (Ok tt, set_db d s).

(** [begin_tx; try { fn(); commit_tx } catch (...) { rollback_tx; throw; }]:
    a rollback restores the database as it was at [BEGIN IMMEDIATE]. *)
Definition with_tx {A : Type} (fn : M A) : M A :=
  fun s =>
    match fn s with
    | (Ok a, s') => (Ok a, s')
    | (Err e, s') => (Err e, set_db (db_ s) s')
    end.

(** The rowid SQLite gives a new row of an [INTEGER PRIMARY KEY] table. *)
Definition next_rowid (ids : list Z) : Z := 1 + fold_right Z.max 0 ids.

Definition with_meta (d : DB) (x : list (string * string)) : DB :=
  mkDB x (fields d) (f_values d) (records d) (facts d) (current_facts d).
Definition with_fields (d : DB) (x : list FieldsRow) : DB :=
  mkDB (meta d) x (f_values d) (records d) (facts d) (current_facts d).
Definition with_values (d : DB) (x : list ValuesRow) : DB :=
  mkDB (meta d) (fields d) x (records d) (facts d) (current_facts d).
Definition with_records (d : DB) (x : list RecordsRow) : DB :=
  mkDB (meta d) (fields d) (f_values d) x (facts d) (current_facts d).
Definition with_facts (d : DB) (x : list SqlFact) : DB :=
  mkDB (meta d) (fields d) (f_values d) (records d) x (current_facts d).
Definition with_current (d : DB) (x : list SqlFact) : DB :=
  mkDB (meta d) (fields d) (f_values d) (records d) (facts d) x.

Definition bytes_eqb (a b : list byte) : bool :=
  if list_eq_dec Byte.byte_eq_dec a b then true else false.

(** The [FOREIGN KEY] clauses of [facts] and [current_facts]
    ([PRAGMA foreign_keys = ON]). *)
Definition fk_ok (d : DB) (r : SqlFact) : bool :=
  existsb (fun x => records_record_id x =? col_record_id r) (records d)
  && existsb (fun x => fields_field_id x =? col_field_id r) (fields d)
  && existsb (fun x => values_value_id x =? col_value_id r) (f_values d).

Definition same_fact_key (a b : SqlFact) : bool :=
  (col_record_id a =? col_record_id b) && (col_field_id a =? col_field_id b)
  && (col_ts a =? col_ts b).

Definition same_current_key (a b : SqlFact) : bool :=
  (col_record_id a =? col_record_id b) && (col_field_id a =? col_field_id b).

(** [INSERT INTO facts(record_id, field_id, value_id, ts) VALUES(?,?,?,?);] *)
Definition sql_insert_fact (r : SqlFact) (d : DB) : result DB :=
  if existsb (same_fact_key r) (facts d) then Err Duplicate
  else if negb (fk_ok d r) then Err StorageError
  else Ok (with_facts d (facts d ++ [r])%list).

(** [INSERT INTO current_facts(record_id, field_id, value_id, ts) VALUES(?,?,?,?)
     ON CONFLICT(record_id, field_id) DO UPDATE
     SET value_id=excluded.value_id, ts=excluded.ts
     WHERE excluded.ts >= current_facts.ts;] *)
Fixpoint update_current (r : SqlFact) (rows : list SqlFact) : list SqlFact :=
  match rows with
  | [] => []
  | x :: rest =>
      if same_current_key r x
      then mkSqlFact (col_record_id x) (col_field_id x) (col_value_id r) (col_ts r) :: rest
      else x :: update_current r rest
  end.

Definition sql_upsert_current (r : SqlFact) (d : DB) : result DB :=
  match find (same_current_key r) (current_facts d) with
  | None =>
      if fk_ok d r then Ok (with_current d (current_facts d ++ [r])%list)
      else Err StorageError
  | Some x =>
      if col_ts r >=? col_ts x then
        if fk_ok d r then Ok (with_current d (update_current r (current_facts d)))
        else Err StorageError
      else Ok d
  end.

(** [INSERT INTO current_facts(..)] of one selected row, without upsert *)
Definition sql_insert_current (r : SqlFact) (d : DB) : result DB :=
  if existsb (same_current_key r) (current_facts d) then Err StorageError
  else if negb (fk_ok d r) then Err StorageError
  else Ok (with_current d (current_facts d ++ [r])%list).

(** [SELECT record_id, field_id, MAX(ts) AS max_ts FROM facts
     GROUP BY record_id, field_id] *)
Fixpoint group_max_add (r : SqlFact) (groups : list (Z * Z * Z)) : list (Z * Z * Z) :=
  match groups with
  | [] => [(col_record_id r, col_field_id r, col_ts r)]
  | (rid, fid, mx) :: rest =>
      if (rid =? col_record_id r) && (fid =? col_field_id r)
      then (rid, fid, Z.max mx (col_ts r)) :: rest
      else (rid, fid, mx) :: group_max_add r rest
  end.

Definition group_max (rows : list SqlFact) : list (Z * Z * Z) :=
  fold_left (fun g r => group_max_add r g) rows [].

(** [FROM facts f JOIN (..) latest ON latest.record_id = f.record_id
     AND latest.field_id = f.field_id AND latest.max_ts = f.ts] *)
Definition join_latest (rows : list SqlFact) (latest : list (Z * Z * Z)) : list SqlFact :=
  flat_map (fun f =>
    map (fun _ => f)
        (filter (fun '(rid, fid, mx) =>
                   (rid =? col_record_id f) && (fid =? col_field_id f) && (mx =? col_ts f))
                latest))
    rows.

Fixpoint insert_all_current (rows : list SqlFact) (d : DB) : result DB :=
  match rows with
  | [] => Ok d
  | r :: rest =>
      match sql_insert_current r d with
      | Ok d' => insert_all_current rest d'
      | Err e => Err e
      end
  end.

(** [ORDER BY ts]: rows of equal [ts] keep the order of the scan. *)
Fixpoint insert_by_ts (r : SqlFact) (sorted : list SqlFact) : list SqlFact :=
  match sorted with
  | [] => [r]
  | x :: rest => if col_ts r <? col_ts x then r :: sorted else x :: insert_by_ts r rest
  end.

Definition order_by_ts (rows : list SqlFact) : list SqlFact :=
  fold_left (fun acc r => insert_by_ts r acc) rows [].

Definition fact_of_sql (r : SqlFact) : FactRow :=
  mkFactRow (to_uint64 (col_record_id r)) (to_uint32 (col_field_id r))
            (to_uint64 (col_value_id r)) (col_ts r).

(** The row [sqlite3_bind_*] builds from a [FactRow]. *)
Definition sql_of_fact (f : FactRow) : SqlFact :=
  mkSqlFact (to_int64 (record_id f)) (to_int32 (field_id f))
            (to_int64 (value_id f)) (ts_ms f).

Fixpoint dedup (l : list Z) : list Z :=
  match l with
  | [] => []
  | x :: r => if existsb (Z.eqb x) r then dedup r else x :: dedup r
  end.

Section Store.

Variable L : Lib.

(** *** [FelixSqlite] member functions *)

Definition meta_get (k : string) : M (option string) :=
  d <- get_db ;;
  ret (match find (fun kv => String.eqb (fst kv) (c_str k)) (meta d) with
       | Some kv => Some (snd kv)
       | None => None
       end).

Fixpoint meta_upsert (k v : string) (rows : list (string * string)) : list (string * string) :=
  match rows with
  | [] => [(k, v)]
  | (k', v') :: rest =>
      if String.eqb k' k then (k', v) :: rest else (k', v') :: meta_upsert k v rest
  end.

Definition meta_set (k v : string) : M unit :=
  d <- get_db ;;
  put_db (with_meta d (meta_upsert (c_str k) (c_str v) (meta d))).

Definition load_format_defaults : M unit :=
  hv <- meta_get "hash_format" ;;
  tv <- meta_get "tag_map" ;;
  fun s =>
    match hv, tv with
    | Some h, Some t =>
        (Ok tt,
         mkStore (db_ s)
                 (if String.eqb t "felix_v03" then FelixV03 else LegacyV02)
                 (if String.eqb h "felix_v03_sep" then FelixV03Sep else LegacyNoSep)
                 (null_value_id_ s))
    | _, _ => (Ok tt, mkStore (db_ s) LegacyV02 LegacyNoSep (null_value_id_ s))
    end.

(** [FelixSqlite(path)] on the database found at [path] *)
Definition open_store (d : DB) : FelixSqlite :=
  snd (load_format_defaults (mkStore d LegacyV02 LegacyNoSep 0)).

Definition ensure_record (record_id created_ts_ms : Z) : M unit :=
  d <- get_db ;;
  let rid := to_int64 record_id in
  if existsb (fun x => records_record_id x =? rid) (records d) then ret tt
  else put_db (with_records d (records d ++ [mkRecordsRow rid created_ts_ms])%list).

Definition get_or_create_field (field_name : string) : M Z :=
  if 256 <? Z.of_nat (size field_name) then throw FieldTooLong
  else
    _ <- lift (require_utf8 L field_name) ;;
    let canon := nfc_normalize_utf8 L (trim_copy field_name) in
    let h := canonicalize_field_hash L canon in
    d <- get_db ;;
    (if existsb (fun x => bytes_eqb (fields_hash x) h) (fields d) then ret tt
     else put_db (with_fields d
            (fields d ++ [mkFieldsRow (next_rowid (map fields_field_id (fields d)))
                                      (c_str canon) h])%list)) ;;;
    d' <- get_db ;;
    match find (fun x => bytes_eqb (fields_hash x) h) (fields d') with
    | Some x => ret (to_uint32 (fields_field_id x))
    | None => throw StorageError
    end.

Definition get_or_create_value (cv_in : CanonValue) : M Z :=
  let cv := cv_in in
  let is_bytes := LogicalType_eqb (logical_type cv) Bytes in
  if LogicalType_eqb (logical_type cv) Text
     && (1 * 1024 * 1024 <? Z.of_nat (size (canon_text cv)))
  then throw ValueTooLarge
  else if is_bytes && (4 * 1024 * 1024 <? Z.of_nat (List.length (canon_blob cv)))
  then throw ValueTooLarge
  else
    let canon := if is_bytes then canon_blob cv else bytes_of (canon_text cv) in
    fun s =>
      (h <- lift (sha256_typed L (tagmap_ s) (hashfmt_ s) (logical_type cv) canon) ;;
       tag <- lift (type_tag_byte (tagmap_ s) (logical_type cv)) ;;
       d <- get_db ;;
       (if existsb (fun x => bytes_eqb (values_hash x) h) (f_values d) then ret tt
        else put_db (with_values d
               (f_values d ++ [mkValuesRow (next_rowid (map values_value_id (f_values d)))
                                 tag
                                 (if is_bytes then None else Some (c_str (canon_text cv)))
                                 (if is_bytes then Some (canon_blob cv) else None)
                                 h])%list)) ;;;
       d' <- get_db ;;
       match find (fun x => bytes_eqb (values_hash x) h) (f_values d') with
       | Some x => ret (to_uint64 (values_value_id x))
       | None => throw StorageError
       end) s.

Definition get_current (record_id field_id : Z) : M (option (Z * Z)) :=
  d <- get_db ;;
  ret (match find (fun x => (col_record_id x =? to_int64 record_id)
                            && (col_field_id x =? to_int32 field_id))
                  (current_facts d) with
       | Some x => Some (to_uint64 (col_value_id x), col_ts x)
       | None => None
       end).

Definition exec (stmt : DB -> result DB) : M unit :=
  d <- get_db ;;
  match stmt d with
  | Ok d' => put_db d'
  | Err e => throw e
  end.

Definition insert_fact (f : FactRow) : M unit := exec (sql_insert_fact (sql_of_fact f)).

Definition upsert_current_if_newer (f : FactRow) : M unit :=
  exec (sql_upsert_current (sql_of_fact f)).

Definition query_current_eq (field_id value_id : Z) : M (list Z) :=
  d <- get_db ;;
  ret (map (fun x => to_uint64 (col_record_id x))
           (filter (fun x => (col_field_id x =? to_int32 field_id)
                             && (col_value_id x =? to_int64 value_id))
                   (current_facts d))).

Definition query_ever_eq (field_id value_id : Z) : M (list Z) :=
  d <- get_db ;;
  ret (map to_uint64
        (dedup (map col_record_id
           (filter (fun x => (col_field_id x =? to_int32 field_id)
                             && (col_value_id x =? to_int64 value_id))
                   (facts d))))).

Definition query_facts_window (t1 t2 : Z) (record_filter : option Z) : M (list FactRow) :=
  d <- get_db ;;
  ret (map fact_of_sql
        (order_by_ts
           (filter (fun x => (t1 <=? col_ts x) && (col_ts x <=? t2)
                             && match record_filter with
                                | Some r => col_record_id x =? to_int64 r
                                | None => true
                                end)
                   (facts d)))).

(** The inner query groups the facts of one record by field, so that grouping
    them by (record, field) yields the same groups. *)
Definition snapshot_at (record_id t : Z) : M (list FactRow) :=
  d <- get_db ;;
  let rid := to_int64 record_id in
  let latest := group_max (filter (fun x => (col_record_id x =? rid) && (col_ts x <=? t))
                                  (facts d)) in
  ret (map fact_of_sql
         (join_latest (filter (fun x => col_record_id x =? rid) (facts d)) latest)).

Definition get_field (field_id : Z) : M FieldRow :=
  d <- get_db ;;
  match find (fun x => fields_field_id x =? to_int32 field_id) (fields d) with
  | Some x => ret (mkFieldRow (to_uint32 (fields_field_id x)) (fields_name_canon x))
  | None => throw UnknownFieldId
  end.

Definition get_value (value_id : Z) : M ValueRow :=
  d <- get_db ;;
  match find (fun x => values_value_id x =? to_int64 value_id) (f_values d) with
  | Some x =>
      fun s =>
        (t <- lift (logical_type_from_tag (tagmap_ s) (values_type_tag x mod 2 ^ 8)) ;;
         ret (mkValueRow (to_uint64 (values_value_id x)) t
                (match values_canon_text x with Some txt => txt | None => "" end))) s
  | None => throw UnknownValueId
  end.

(** Two statements, each committed on its own. *)
Definition rebuild_current_facts : M unit :=
  exec (fun d => Ok (with_current d [])) ;;;
  exec (fun d => insert_all_current (join_latest (facts d) (group_max (facts d))) d).

Definition ensure_null_value : M unit :=
  let cv := with_text (cv_init Null) "null" in
  id <- get_or_create_value cv ;;
  fun s => (Ok tt, mkStore (db_ s) (tagmap_ s) (hashfmt_ s) id).

(** The [CREATE TABLE IF NOT EXISTS] script leaves existing tables as they are. *)
Definition init_schema : M unit :=
  meta_set "felix_spec" "0.3" ;;;
  meta_set "tag_map" "felix_v03" ;;;
  meta_set "hash_format" "felix_v03_sep" ;;;
  load_format_defaults ;;;
  ensure_null_value.

(** ** Engine: temporality policy and ingest *)

Inductive TemporalityMode : Type := EventDriven | ObservationDriven.

Definition parse_mode (s : string) : result TemporalityMode :=
  if String.eqb s "event" then Ok EventDriven
  else if String.eqb s "observe" then Ok ObservationDriven
  else Err ParseError.

Record IngestItem : Type := mkItem {
  field_name : string;
  value : CanonValue
}.

Definition split_once (s : string) (c : ascii) : string * string :=
  match find_char c s with
  | None => (s, "")
  | Some pos => (String.substring 0 pos s, substr_from (S pos) s)
  end.

Definition parse_typed_kv (token : string) : result IngestItem :=
  match find_char "=" token with
  | None => Err ParseError
  | Some eq =>
      let field := trim_copy (String.substring 0 eq token) in
      let rhs := substr_from (S eq) token in
      let '(type_s, value_s) := split_once rhs ":" in
      let! t := parse_type (trim_copy type_s) in
      let! cv := canonicalize_typed_value L t value_s in
      Ok (mkItem field cv)
  end.

(** One iteration of the loop of [ingest_items]. *)
Definition ingest_item (record_id ts_ms : Z) (mode : TemporalityMode) (it : IngestItem)
  : M unit :=
  fid <- get_or_create_field (field_name it) ;;
  vid <- get_or_create_value (value it) ;;
  unchanged <- match mode with
               | EventDriven =>
                   cur <- get_current record_id fid ;;
                   ret (match cur with
                        | Some (v, _) => v =? vid
                        | None => false
                        end)
               | ObservationDriven => ret false
               end ;;
  if (unchanged : bool) then ret tt
  else
    let f := mkFactRow record_id fid vid ts_ms in
    insert_fact f ;;;
    upsert_current_if_newer f.

Fixpoint ingest_loop (record_id ts_ms : Z) (mode : TemporalityMode)
    (items : list IngestItem) : M unit :=
  match items with
  | [] => ret tt
  | it :: rest =>
      ingest_item record_id ts_ms mode it ;;;
      ingest_loop record_id ts_ms mode rest
  end.

Definition ingest_items (record_id ts_ms : Z) (mode : TemporalityMode)
    (items : list IngestItem) : M unit :=
  with_tx
    (ensure_record record_id ts_ms ;;;
     if 256 <? Z.of_nat (List.length items) then throw FieldsPerCallExceeded
     else ingest_loop record_id ts_ms mode items).

End Store.

(** ** NDJSON ingestion and the command line *)

Definition jcontains (j : json) (k : string) : bool :=
  match j with
  | JObject l => existsb (fun kv => String.eqb (fst kv) k) l
  | _ => false
  end.

Definition jat (j : json) (k : string) : result json :=
  match j with
  | JObject l =>
      match find (fun kv => String.eqb (fst kv) k) l with
      | Some kv => Ok (snd kv)
      | None => Err ParseError
      end
  | _ => Err ParseError
  end.

Definition jget_string (j : json) : result string :=
  match j with
  | JString s => Ok s
  | _ => Err ParseError
  end.

Fixpoint mapM {A B : Type} (f : A -> result B) (l : list A) : result (list B) :=
  match l with
  | [] => Ok []
  | x :: r =>
      let! y := f x in
      let! ys := mapM f r in
      Ok (y :: ys)
  end.

(** What the commands print. *)
Record FactJson : Type := mkFactJson {
  fj_record_id : Z;
  fj_field_id : Z;
  fj_field_name : string;
  fj_value_id : Z;
  fj_type : string;
  fj_canon : string;
  fj_ts_ms : Z
}.

Inductive Output : Type :=
| OutMsg (s : string)
| OutIds (l : list Z)
| OutFacts (l : list FactJson)
| OutSnapshot (record_id t : Z) (fields : list (string * FactJson)).

Inductive Outcome : Type :=
| Done (out : Output)
| Usage.

Section Cli.

Variable L : Lib.

(** [std::ifstream in(path)] read with [std::getline]: the lines of the file,
    [None] when it cannot be opened. *)
Variable read_lines : string -> option (list string).

Definition jget_uint64 (j : json) : result Z :=
  match j with
  | JInt z | JUInt z => Ok (to_uint64 z)
  | JFloat d => Ok (to_uint64 (int_of_double L d))
  | _ => Err ParseError
  end.

Definition jget_int64 (j : json) : result Z :=
  match j with
  | JInt z | JUInt z => Ok (to_int64 z)
  | JFloat d => Ok (to_int64 (int_of_double L d))
  | _ => Err ParseError
  end.

Definition item_from_field_json (name : string) (j : json) : result IngestItem :=
  match j with
  | JObject _ =>
      if negb (jcontains j "t") then Err ParseError
      else
        let! tj := jat j "t" in
        let! ts := jget_string tj in
        let! t := parse_type ts in
        let! v := if LogicalType_eqb t Null then Ok JNull
                  else if negb (jcontains j "v") then Err ParseError
                  else jat j "v" in
        let! cv := canonicalize_typed_value_json L t v in
        Ok (mkItem name cv)
  | _ => Err ParseError
  end.

Fixpoint ingest_ndjson_lines (lines : list string) (default_mode : TemporalityMode)
  : M unit :=
  match lines with
  | [] => ret tt
  | line :: rest =>
      if 2 * 1024 * 1024 <? Z.of_nat (size line) then throw LineTooLarge
      else
        let trimmed := trim_copy line in
        if Nat.eqb (size trimmed) 0 then ingest_ndjson_lines rest default_mode
        else
          match json_parse L trimmed with
          | None => throw ParseError
          | Some j =>
              if negb (jcontains j "record_id" && jcontains j "ts_ms"
                       && jcontains j "fields")
              then throw ParseError
              else
                rid <- lift (let! x := jat j "record_id" in jget_uint64 x) ;;
                ts <- lift (let! x := jat j "ts_ms" in jget_int64 x) ;;
                mode <- lift (if jcontains j "mode"
                              then let! m := jat j "mode" in
                                   let! ms := jget_string m in
                                   parse_mode ms
                              else Ok default_mode) ;;
                fj <- lift (jat j "fields") ;;
                match fj with
                | JObject kvs =>
                    items <- lift (mapM (fun kv => item_from_field_json (fst kv) (snd kv))
                                        kvs) ;;
                    ingest_items L rid ts mode items ;;;
                    ingest_ndjson_lines rest default_mode
                | _ => throw ParseError
                end
          end
  end.

Definition ingest_ndjson_file (path : string) (default_mode : TemporalityMode) : M unit :=
  match read_lines path with
  | None => throw StorageError
  | Some lines => ingest_ndjson_lines lines default_mode
  end.

Definition fact_to_json (f : FactRow) : M FactJson :=
  fr <- get_field (field_id f) ;;
  vr <- get_value (value_id f) ;;
  ret (mkFactJson (record_id f) (field_id f) (fr_name_canon fr) (value_id f)
                  (type_to_string (vr_type vr)) (vr_canon_text vr) (ts_ms f)).

Fixpoint facts_to_json (rows : list FactRow) : M (list FactJson) :=
  match rows with
  | [] => ret []
  | f :: rest =>
      j <- fact_to_json f ;;
      js <- facts_to_json rest ;;
      ret (j :: js)
  end.

(** [fields[fr.name_canon] = ..]: a later row of the same name replaces the entry. *)
Fixpoint obj_set (k : string) (v : FactJson) (o : list (string * FactJson))
  : list (string * FactJson) :=
  match o with
  | [] => [(k, v)]
  | (k', v') :: rest =>
      if String.eqb k' k then (k', v) :: rest else (k', v') :: obj_set k v rest
  end.

Fixpoint snapshot_fields (rows : list FactRow) (acc : list (string * FactJson))
  : M (list (string * FactJson)) :=
  match rows with
  | [] => ret acc
  | f :: rest =>
      j <- fact_to_json f ;;
      snapshot_fields rest (obj_set (fj_field_name j) j acc)
  end.

Definition parse_cli_type_value (tv : string) : result CanonValue :=
  let '(type_s, value_s) := split_once tv ":" in
  let! t := parse_type (trim_copy type_s) in
  canonicalize_typed_value L t value_s.

Definition arg (argv : list string) (i : nat) : string := nth i argv "".

Definition parse_u64 (s : string) : result Z :=
  match stoull s with
  | Some (x, _) => Ok x
  | None => Err ParseError
  end.

Definition parse_i64 (s : string) : result Z :=
  match stoll s with
  | Some (x, _) => Ok x
  | None => Err ParseError
  end.

(** The body of the [try] block of [run_felix], after the store is opened. *)
Definition run_command (argv : list string) : M Outcome :=
  let argc := List.length argv in
  let cmd := arg argv 2 in
  if String.eqb cmd "init" then
    init_schema L ;;;
    ret (Done (OutMsg "ok: initialized schema"))
  else
    init_schema L ;;;
    if String.eqb cmd "ingest" then
      if Nat.ltb argc 7 then ret Usage
      else
        rid <- lift (parse_u64 (arg argv 3)) ;;
        ts <- lift (parse_i64 (arg argv 4)) ;;
        mode <- lift (parse_mode (arg argv 5)) ;;
        items <- lift (mapM (parse_typed_kv L) (skipn 6 argv)) ;;
        ingest_items L rid ts mode items ;;;
        ret (Done (OutMsg ("ok: ingested record " ++ to_string rid)))
    else if String.eqb cmd "ingest_ndjson" then
      if Nat.ltb argc 4 then ret Usage
      else
        def <- lift (if Nat.leb 5 argc then parse_mode (arg argv 4) else Ok EventDriven) ;;
        ingest_ndjson_file (arg argv 3) def ;;;
        ret (Done (OutMsg ("ok: ingested ndjson " ++ arg argv 3)))
    else if String.eqb cmd "current_eq" || String.eqb cmd "ever_eq" then
      if Nat.ltb argc 5 then ret Usage
      else
        fid <- get_or_create_field L (arg argv 3) ;;
        cv <- lift (parse_cli_type_value (arg argv 4)) ;;
        vid <- get_or_create_value L cv ;;
        rows <- (if String.eqb cmd "current_eq"
                 then query_current_eq fid vid
                 else query_ever_eq fid vid) ;;
        ret (Done (OutIds rows))
    else if String.eqb cmd "facts_window" then
      if Nat.ltb argc 5 then ret Usage
      else
        t1 <- lift (parse_i64 (arg argv 3)) ;;
        t2 <- lift (parse_i64 (arg argv 4)) ;;
        rid <- lift (if Nat.leb 6 argc
                     then let! r := parse_u64 (arg argv 5) in Ok (Some r)
                     else Ok None) ;;
        rows <- query_facts_window t1 t2 rid ;;
        js <- facts_to_json rows ;;
        ret (Done (OutFacts js))
    else if String.eqb cmd "snapshot" then
      if Nat.ltb argc 5 then ret Usage
      else
        rid <- lift (parse_u64 (arg argv 3)) ;;
        t <- lift (parse_i64 (arg argv 4)) ;;
        rows <- snapshot_at rid t ;;
        fs <- snapshot_fields rows [] ;;
        ret (Done (OutSnapshot rid t fs))
    else if String.eqb cmd "rebuild_current" then
      rebuild_current_facts ;;;
      ret (Done (OutMsg "ok: rebuilt current_facts"))
    else ret Usage.

(** [felix::run_felix]: the exit code, what a command that completes has
    written to [std::cout], and the database the process leaves behind, from
    [argv] and the database at [argv[1]].  The usage and error exits write to
    [std::cerr] only and give [None]; a query without rows completes with an
    empty list; rows that [facts_window] had written before a later row threw
    are not recorded. *)
Definition run_felix (argv : list string) (d : DB) : Z * option Output * DB :=
  if Nat.ltb (List.length argv) 3 then (2, None, d)
  else
    match run_command argv (open_store d) with
    | (Ok (Done out), s) => (0, Some out, db_ s)
    | (Ok Usage, s) => (2, None, db_ s)
    | (Err _, s) => (1, None, db_ s)
    end.

End Cli.

(** ** A library instance for ASCII input

    On printable ASCII text ICU's UTF-8 round trip and NFC normalization are
    the identity, and [EVP_DecodeBlock] decodes groups of four base-64
    characters into three bytes (['='] counting as zero).  The digest is
    replaced by the identity on byte strings: an injective function, which is
    all that the concrete runs below rely on. *)

Definition b64_val (c : ascii) : option Z :=
  let n := Z.of_nat (nat_of_ascii c) in
  if (65 <=? n) && (n <=? 90) then Some (n - 65)
  else if (97 <=? n) && (n <=? 122) then Some (n - 97 + 26)
  else if (48 <=? n) && (n <=? 57) then Some (n - 48 + 52)
  else if n =? 43 then Some 62
  else if n =? 47 then Some 63
  else if n =? 61 then Some 0
  else None.

Fixpoint b64_blocks (s : list ascii) (fuel : nat) : option (list byte) :=
  match fuel with
  | O => None
  | S fuel' =>
      match s with
      | [] => Some []
      | a :: b :: c :: d :: rest =>
          match b64_val a, b64_val b, b64_val c, b64_val d, b64_blocks rest fuel' with
          | Some va, Some vb, Some vc, Some vd, Some out =>
              let w := va * 262144 + vb * 4096 + vc * 64 + vd in
              Some (byte_of_Z (w / 65536) :: byte_of_Z ((w / 256) mod 256)
                    :: byte_of_Z (w mod 256) :: out)
          | _, _, _, _, _ => None
          end
      | _ => None
      end
  end.

Definition ascii_lib : Lib := {|
  icu_utf8_round := fun s => s;
  icu_nfc := fun s => s;
  evp_sha256 := fun data => data;
  evp_decode_block := fun s => b64_blocks (list_ascii_of_string s) (S (String.length s));
  to_chars := fun _ => "1";
  strtod := fun _ => (S754_zero false, O, false);
  double_of_int := fun _ => S754_zero false;
  int_of_double := fun _ => 0;
  json_parse := fun _ => None
|}.

Definition no_files (path : string) : option (list string) := None.

(** A database file in which no table has a row. *)
Definition empty_db : DB := mkDB [] [] [] [] [] [].

(** The store a process holds after [init_schema] on a new database. *)
Definition fresh_store (L : Lib) : FelixSqlite := snd (init_schema L (open_store empty_db)).

(** ** Specification vocabulary *)

Definition chars (s : string) : list ascii := list_ascii_of_string s.

(** The six white-space characters of the "C" locale. *)
Definition c_space (c : ascii) : Prop :=
  c = " "%char \/ c = "009"%char \/ c = "010"%char
  \/ c = "011"%char \/ c = "012"%char \/ c = "013"%char.

Definition all_digits (s : string) : bool := forallb isdigit (chars s).

(** The number a string of decimal digits denotes. *)
Definition decimal (s : string) : Z :=
  fold_left (fun acc c => acc * 10 + digit_val c) (chars s) 0.

(** [s] is an optional sign followed by at least one decimal digit, and
    denotes [x]. *)
Definition int_token (s : string) (x : Z) : Prop :=
  exists sg ds : string,
    (sg = "" \/ sg = "-" \/ sg = "+")
    /\ ds <> "" /\ all_digits ds = true /\ s = sg ++ ds
    /\ x = (if String.eqb sg "-" then - decimal ds else decimal ds).

(** The primary keys of [facts] and of [current_facts]. *)
Definition fact_key (r : SqlFact) : Z * Z * Z := (col_record_id r, col_field_id r, col_ts r).
Definition cur_key (r : SqlFact) : Z * Z := (col_record_id r, col_field_id r).

(** The integrity contract between the log and the view. *)
Record Inv (d : DB) : Prop := mkInv {
  inv_facts_pk : NoDup (map fact_key (facts d));
  inv_current_pk : NoDup (map cur_key (current_facts d));
  inv_current_in_facts : forall c, In c (current_facts d) -> In c (facts d);
  inv_facts_covered :
    forall f, In f (facts d) ->
      exists c, In c (current_facts d) /\ cur_key c = cur_key f /\ col_ts f <= col_ts c;
  inv_fk : forall f, In f (facts d) -> fk_ok d f = true
}.

(** P3: for every (record, field) of [facts], [current_facts] has exactly one
    row, whose [ts] is the greatest of the pair's facts and whose [value_id]
    is the one of the fact at that [ts]. *)
Definition current_is_max (d : DB) : Prop :=
  forall r f,
    (exists x, In x (facts d) /\ cur_key x = (r, f)) ->
    exists c,
      filter (fun x => (col_record_id x =? r) && (col_field_id x =? f)) (current_facts d) = [c]
      /\ (exists x, In x (facts d) /\ cur_key x = (r, f) /\ col_ts x = col_ts c)
      /\ (forall x, In x (facts d) -> cur_key x = (r, f) -> col_ts x <= col_ts c)
      /\ (forall x, In x (facts d) -> cur_key x = (r, f) -> col_ts x = col_ts c ->
            col_value_id x = col_value_id c).

(** One call of [ingest_items]. *)
Record IngestCall : Type := mkCall {
  call_record : Z;
  call_ts : Z;
  call_mode : TemporalityMode;
  call_items : list IngestItem
}.

Definition run_ingest (L : Lib) (s : FelixSqlite) (c : IngestCall) : FelixSqlite :=
  snd (ingest_items L (call_record c) (call_ts c) (call_mode c) (call_items c) s).

(** The rebuild as the specification words it: of each (record, field) group
    of [facts], the row with the greatest [ts]. *)
Definition is_group_max (rows : list SqlFact) (f : SqlFact) : bool :=
  forallb (fun x => negb (same_current_key x f) || (col_ts x <=? col_ts f)) rows.

Definition spec_rebuild (rows : list SqlFact) : list SqlFact :=
  filter (is_group_max rows) rows.

(** A computation all of whose runs, failed or not, relate the states. *)
Definition always {A : Type} (R : FelixSqlite -> FelixSqlite -> Prop) (m : M A) : Prop :=
  forall s, R s (snd (m s)).

(** Interning only appends to [fields] and [f_values]. *)
Definition grows (s s' : FelixSqlite) : Prop :=
  tagmap_ s' = tagmap_ s /\ hashfmt_ s' = hashfmt_ s
  /\ meta (db_ s') = meta (db_ s)
  /\ records (db_ s') = records (db_ s)
  /\ facts (db_ s') = facts (db_ s)
  /\ current_facts (db_ s') = current_facts (db_ s)
  /\ (exists fl, fields (db_ s') = fields (db_ s) ++ fl)%list
  /\ (exists vl, f_values (db_ s') = f_values (db_ s) ++ vl)%list.

(** What [get_or_create_field] demands of a name, and [get_or_create_value]
    of a value under a tag map. *)
Definition name_ok (L : Lib) (name : string) : bool :=
  (Z.of_nat (size name) <=? 256)
  && match require_utf8 L name with Ok _ => true | Err _ => false end.

Definition value_ok (tm : TagMapVersion) (cv : CanonValue) : bool :=
  negb (LogicalType_eqb (logical_type cv) Text
        && (1 * 1024 * 1024 <? Z.of_nat (size (canon_text cv))))
  && negb (LogicalType_eqb (logical_type cv) Bytes
           && (4 * 1024 * 1024 <? Z.of_nat (List.length (canon_blob cv))))
  && match type_tag_byte tm (logical_type cv) with Ok _ => true | Err _ => false end.

(** The hash under which a field name is interned. *)
Definition field_hash (L : Lib) (name : string) : list byte :=
  canonicalize_field_hash L (nfc_normalize_utf8 L (trim_copy name)).

(** The canonical bytes of a value. *)
Definition canon_bytes_of (cv : CanonValue) : list byte :=
  if LogicalType_eqb (logical_type cv) Bytes then canon_blob cv
  else bytes_of (canon_text cv).

(** The tables only gain rows at their ends. *)
Definition appends (s s' : FelixSqlite) : Prop :=
  tagmap_ s' = tagmap_ s /\ hashfmt_ s' = hashfmt_ s
  /\ meta (db_ s') = meta (db_ s)
  /\ (exists l, records (db_ s') = records (db_ s) ++ l)%list
  /\ (exists l, fields (db_ s') = fields (db_ s) ++ l)%list
  /\ (exists l, f_values (db_ s') = f_values (db_ s) ++ l)%list
  /\ (exists l, facts (db_ s') = facts (db_ s) ++ l)%list.

(** The hash under which a value is interned by a store of the given format. *)
Definition value_hash (L : Lib) (tm : TagMapVersion) (hf : HashFormatVersion)
    (cv : CanonValue) : list byte :=
  match sha256_typed L tm hf (logical_type cv) (canon_bytes_of cv) with
  | Ok h => h
  | Err _ => []
  end.

(** The store after the first ingest of one item [(name, v)] for record [r]
    at [t] into a new database: one record, one field, one fact, and the
    current row equal to that fact. *)
Definition after_first (L : Lib) (r t : Z) (name : string) (v : CanonValue)
    (s : FelixSqlite) : Prop :=
  exists xv : ValuesRow,
    let row := mkSqlFact (to_int64 r) 1 (values_value_id xv) t in
    tagmap_ s = FelixV03 /\ hashfmt_ s = FelixV03Sep
    /\ records (db_ s) = [mkRecordsRow (to_int64 r) t]
    /\ fields (db_ s)
       = [mkFieldsRow 1 (c_str (nfc_normalize_utf8 L (trim_copy name))) (field_hash L name)]
    /\ find (fun x => bytes_eqb (values_hash x) (value_hash L FelixV03 FelixV03Sep v))
            (f_values (db_ s)) = Some xv
    /\ (values_value_id xv = 1 \/ values_value_id xv = 2)
    /\ facts (db_ s) = [row] /\ current_facts (db_ s) = [row].

(** What a query may do to the database: intern, and nothing else. *)
Definition interns_only (d d' : DB) : Prop :=
  records d' = records d /\ facts d' = facts d /\ current_facts d' = current_facts d
  /\ (exists fl, fields d' = fields d ++ fl)%list
  /\ (exists vl, f_values d' = f_values d ++ vl)%list.

Definition interns (s s' : FelixSqlite) : Prop := interns_only (db_ s) (db_ s').

(** A database written under the legacy format. *)
Definition legacy_db : DB :=
  mkDB [("tag_map", "legacy_v02"); ("hash_format", "legacy_no_sep")] [] [] [] [] [].

(** ** Concrete inputs *)

Definition luke : CanonValue := with_text (cv_init Text) "Luke".
Definition six : CanonValue := with_text (cv_init Int) "6".

(** A vertical tab, the letter a, a form feed. *)
Definition vt_a_ff : string := String "011" (String "a" (String "012" "")).

(** The letter a followed by 256 spaces: 257 bytes that trim to one. *)
Definition padded_name : string := String "a" (string_of_list_ascii (repeat " "%char 256)).

(** A database on which [init] has run. *)
Definition init_db : DB :=
  snd (run_felix ascii_lib no_files ["felixctl"; "felix.db"; "init"] empty_db).

Definition query_argv : list string :=
  ["felixctl"; "felix.db"; "current_eq"; "Color"; "text:red"].

Definition legacy_bytes_argv : list string :=
  ["felixctl"; "legacy.db"; "ingest"; "1"; "1"; "observe"; "X=bytes:AA=="].

Definition legacy_text_argv : list string :=
  ["felixctl"; "legacy.db"; "ingest"; "1"; "1"; "observe"; "X=text:a"].

(** ** Sequences of operations

    An operation is a call of [ingest_items] by a process that has opened
    the database, or one run of the command line.  A call that throws has
    been rolled back. *)
Inductive Op : Type :=
| Ingest (c : IngestCall)
| Command (argv : list string).

Definition run_op (L : Lib) (read_lines : string -> option (list string))
    (d : DB) (op : Op) : DB :=
  match op with
  | Ingest c => db_ (run_ingest L (open_store d) c)
  | Command argv => snd (run_felix L read_lines argv d)
  end.

Definition run_ops (L : Lib) (read_lines : string -> option (list string))
    (ops : list Op) (d : DB) : DB :=
  fold_left (run_op L read_lines) ops d.

(** The invariant as a relation between the states of a run. *)
Definition keeps_Inv (s s' : FelixSqlite) : Prop := Inv (db_ s) -> Inv (db_ s').

(** Scenarios S1, S3 and S4 (an ingest, a later observation of the same
    value, an older event arriving last), with a query and a rebuild between
    them and a second record. *)
Definition example_ops : list Op :=
  [ Command ["felixctl"; "felix.db"; "init"];
    Command ["felixctl"; "felix.db"; "ingest"; "1"; "1000"; "event";
             "Name=text:Luke"; "Age=int:6"];
    Ingest (mkCall 1 2000 ObservationDriven [mkItem "Name" luke]);
    Command ["felixctl"; "felix.db"; "current_eq"; "Name"; "text:Luke"];
    Command ["felixctl"; "felix.db"; "ingest"; "1"; "500"; "event"; "Age=int:5"];
    Ingest (mkCall 2 1500 EventDriven [mkItem "Name" luke]);
    Command ["felixctl"; "felix.db"; "rebuild_current"];
    Command ["felixctl"; "felix.db"; "ingest"; "2"; "1200"; "observe"; "Name=text:Leia"] ].

(** NFC on text made of ASCII and of U+0958 (DEVANAGARI LETTER QA, bytes
    E0 A5 98): U+0958 is excluded from composition, so that its normal form
    is the pair U+0915 U+093C (bytes E0 A4 95 E0 A4 BC). *)
Fixpoint nfc_qa (s : string) : string :=
  match s with
  | String "224" (String "165" (String "152" r)) =>
      String "224" (String "164" (String "149"
        (String "224" (String "164" (String "188" (nfc_qa r))))))
  | String c r => String c (nfc_qa r)
  | EmptyString => EmptyString
  end.

Definition qa_lib : Lib := {|
  icu_utf8_round := icu_utf8_round ascii_lib;
  icu_nfc := nfc_qa;
  evp_sha256 := evp_sha256 ascii_lib;
  evp_decode_block := evp_decode_block ascii_lib;
  to_chars := to_chars ascii_lib;
  strtod := strtod ascii_lib;
  double_of_int := double_of_int ascii_lib;
  int_of_double := int_of_double ascii_lib;
  json_parse := json_parse ascii_lib
|}.

Fixpoint repeat_string (s : string) (n : nat) : string :=
  match n with
  | O => EmptyString
  | S n' => s ++ repeat_string s n'
  end.

(** Sixty times U+0958: 180 bytes, whose normal form has 360. *)
Definition qa_name : string :=
  repeat_string (String "224" (String "165" (String "152" ""))) 60.

(** ** Further specification vocabulary *)

From Stdlib Require Import Numbers.DecimalPos Sorting.Sorted.

Fixpoint lower_string (s : string) : string :=
  match s with
  | EmptyString => EmptyString
  | String c r => String (tolower c) (lower_string r)
  end.

(** From position [i] on, dashes stand at positions 8, 13, 18 and 23 and hex
    digits everywhere else. *)
Fixpoint uuid_shape (s : string) (i : nat) : bool :=
  match s with
  | EmptyString => true
  | String c r =>
      (if Nat.eqb i 8 || Nat.eqb i 13 || Nat.eqb i 18 || Nat.eqb i 23
       then Ascii.eqb c "-" else is_hex c)
      && uuid_shape r (S i)
  end.

(** The character [c] occurs in [s]. *)
Definition has_char (c : ascii) (s : string) : Prop := In c (chars s).

Definition all_space (s : string) : bool := forallb isspace (chars s).

(** [s] does not continue a run of digits. *)
Definition no_digit_head (s : string) : bool :=
  match s with
  | String c _ => negb (isdigit c)
  | EmptyString => true
  end.

(** The tables [records], [fields], [f_values] and [facts] only gain rows at
    their ends: no row of them is deleted or rewritten. *)
Definition log_extends (d d' : DB) : Prop :=
  (exists l, records d' = records d ++ l)%list
  /\ (exists l, fields d' = fields d ++ l)%list
  /\ (exists l, f_values d' = f_values d ++ l)%list
  /\ (exists l, facts d' = facts d ++ l)%list.

Definition store_extends (s s' : FelixSqlite) : Prop := log_extends (db_ s) (db_ s').

(** [SELECT v FROM meta WHERE k = ?] on a database. *)
Definition meta_lookup (k : string) (d : DB) : option string :=
  match find (fun kv => String.eqb (fst kv) k) (meta d) with
  | Some kv => Some (snd kv)
  | None => None
  end.

(** The [WHERE] clause of [query_facts_window]. *)
Definition in_window (t1 t2 : Z) (record_filter : option Z) (x : SqlFact) : Prop :=
  t1 <= col_ts x <= t2
  /\ match record_filter with
     | Some r => col_record_id x = to_int64 r
     | None => True
     end.

Definition in_window_b (t1 t2 : Z) (record_filter : option Z) (x : SqlFact) : bool :=
  (t1 <=? col_ts x) && (col_ts x <=? t2)
  && match record_filter with
     | Some r => col_record_id x =? to_int64 r
     | None => true
     end.

Definition ts_le (a b : SqlFact) : Prop := col_ts a <= col_ts b.

(** The database declares the felix_v03 format. *)
Definition stamped (d : DB) : Prop :=
  meta_lookup "tag_map" d = Some "felix_v03"
  /\ meta_lookup "hash_format" d = Some "felix_v03_sep".

Definition known_command (cmd : string) : bool :=
  existsb (String.eqb cmd)
    ["init"; "ingest"; "ingest_ndjson"; "current_eq"; "ever_eq"; "facts_window";
     "snapshot"; "rebuild_current"].

Definition keeps_stamp (s s' : FelixSqlite) : Prop := stamped (db_ s) -> stamped (db_ s').

(** Case analysis on a computation in the error monad that returned [Ok]. *)
Ltac canon_cases :=
  repeat match goal with
    | H : Err _ = Ok _ |- _ => discriminate H
    | H : Ok _ = Ok _ |- _ => injection H as <-
    | H : context [rbind ?m _] |- _ => destruct m eqn:?; cbn [rbind] in H
    | H : (if ?c then _ else _) = Ok _ |- _ => destruct c eqn:?
    | H : (let '(_, _) := ?x in _) = Ok _ |- _ => destruct x as [[? ?] ?] eqn:?
    end.


(** The four characters [base64_decode_strict] skips. *)
Definition all_ws4 (s : string) : bool := forallb is_ws4 (chars s).

(** A database whose current view disagrees with its log: the view holds a
    row that is no fact and misses the pair (1, 2). *)
Definition broken_db : DB :=
  mkDB [] [mkFieldsRow 1 "a" []; mkFieldsRow 2 "b" []] [mkValuesRow 1 0 (Some "x") None []]
       [mkRecordsRow 1 0]
       [mkSqlFact 1 1 1 10; mkSqlFact 1 1 1 20; mkSqlFact 1 2 1 5]
       [mkSqlFact 1 1 1 15].

(** A database in which record 1 has the current name Luke, observed at
    2000, and an item that gives the name Leia. *)
Definition luke_at_2000 : DB :=
  run_ops ascii_lib no_files
    [ Command ["felixctl"; "felix.db"; "init"];
      Command ["felixctl"; "felix.db"; "ingest"; "1"; "2000"; "event"; "Name=text:Luke"] ]
    empty_db.

Definition name_leia : IngestItem := mkItem "Name" (with_text (cv_init Text) "Leia").

(** * Verification *)

(** ** Trimming *)

Lemma isspace_c_space (c : ascii) : isspace c = true <-> c_space c.
Proof.
  unfold c_space. split.
  - destruct c as [[] [] [] [] [] [] [] []]; cbv; intros H; try discriminate H; tauto.
  - intros [H | [H | [H | [H | [H | H]]]]]; subst c; reflexivity.
Qed.

Lemma chars_of_list (l : list ascii) : chars (string_of_list_ascii l) = l.
Proof. apply list_ascii_of_string_of_list_ascii. Qed.

Lemma string_of_chars (s : string) : string_of_list_ascii (chars s) = s.
Proof. apply string_of_list_ascii_of_string. Qed.

Lemma chars_app (a b : string) : chars (a ++ b) = (chars a ++ chars b)%list.
Proof. induction a as [| c a IH]; simpl; [reflexivity | now rewrite <- IH]. Qed.

Lemma chars_length (s : string) : List.length (chars s) = String.length s.
Proof. induction s as [| c s IH]; simpl; [reflexivity | now rewrite <- IH]. Qed.

Lemma char_at_nth (s : string) (i : nat) : char_at s i = nth i (chars s) NUL.
Proof.
  unfold char_at. revert i.
  induction s as [| c s IH]; intros [| i]; simpl; try reflexivity. apply IH.
Qed.

Lemma chars_substring (s : string) (n m : nat) :
  chars (String.substring n m s) = firstn m (skipn n (chars s)).
Proof.
  revert n m. induction s as [| c s IH]; intros [| n] [| m]; simpl; try reflexivity.
  - now rewrite (IH 0%nat m), skipn_O.
  - apply IH.
  - apply IH.
Qed.

Lemma trim_scan_fwd_spec (sv : string) (n b : nat) :
  (b + n = size sv)%nat ->
  let b' := trim_scan_fwd sv b n in
  (b <= b' <= size sv)%nat
  /\ (forall i, (b <= i < b')%nat -> isspace (char_at sv i) = true)
  /\ ((b' < size sv)%nat -> isspace (char_at sv b') = false).
Proof.
  revert b. induction n as [| n IH]; intros b Hb; simpl.
  - repeat split; try lia.
  - destruct (isspace (char_at sv b)) eqn:E.
    + destruct (IH (S b)) as (H1 & H2 & H3); [lia |].
      repeat split; try lia.
      * intros i Hi. destruct (Nat.eq_dec i b) as [-> | Hne]; [exact E | apply H2; lia].
      * exact H3.
    + repeat split; try lia. intros _. exact E.
Qed.

Lemma trim_scan_bwd_spec (sv : string) (b e : nat) :
  (b <= e)%nat ->
  let e' := trim_scan_bwd sv b e in
  (b <= e' <= e)%nat
  /\ (forall i, (e' <= i < e)%nat -> isspace (char_at sv i) = true)
  /\ ((b < e')%nat -> isspace (char_at sv (e' - 1)) = false).
Proof.
  induction e as [| e IH]; intros Hb; simpl.
  - repeat split; try lia.
  - destruct (Nat.ltb b (S e)) eqn:Hlt; simpl.
    + apply Nat.ltb_lt in Hlt.
      destruct (isspace (char_at sv e)) eqn:E.
      * destruct IH as (H1 & H2 & H3); [lia |].
        repeat split; try lia.
        -- intros i Hi. destruct (Nat.eq_dec i e) as [-> | Hne]; [exact E | apply H2; lia].
        -- exact H3.
      * repeat split; try lia. intros _.
        replace (S e - 1)%nat with e by lia. exact E.
    + apply Nat.ltb_ge in Hlt. repeat split; try lia.
Qed.

Lemma Forall_nth_space (l : list ascii) :
  (forall i, (i < List.length l)%nat -> isspace (nth i l NUL) = true) -> Forall c_space l.
Proof.
  intros H. apply Forall_nth. intros i d Hi.
  apply isspace_c_space. rewrite (nth_indep l d NUL Hi). now apply H.
Qed.

Lemma trim_copy_split (s : string) :
  exists l r : string,
    s = l ++ trim_copy s ++ r
    /\ Forall c_space (chars l) /\ Forall c_space (chars r)
    /\ (forall c t, trim_copy s = String c t -> ~ c_space c)
    /\ (forall t c, trim_copy s = t ++ String c "" -> ~ c_space c).
Proof.
  unfold trim_copy.
  pose proof (trim_scan_fwd_spec s (size s) 0 eq_refl) as (Hb1 & Hb2 & Hb3).
  set (b := trim_scan_fwd s 0 (size s)) in *.
  pose proof (trim_scan_bwd_spec s b (size s) (proj2 Hb1)) as (He1 & He2 & He3).
  set (e := trim_scan_bwd s b (size s)) in *.
  cbv zeta. unfold size in *.
  set (cs := chars s).
  assert (Hlen : List.length cs = String.length s) by apply chars_length.
  exists (string_of_list_ascii (firstn b cs)), (string_of_list_ascii (skipn e cs)).
  assert (Hmid : chars (String.substring b (e - b) s) = firstn (e - b) (skipn b cs))
    by apply chars_substring.
  repeat split.
  - rewrite <- (string_of_chars s) at 1. fold cs.
    rewrite <- (string_of_chars (String.substring b (e - b) s)), Hmid.
    rewrite <- (string_of_chars (_ ++ _)), !chars_app, !chars_of_list. f_equal.
    rewrite <- (firstn_skipn b cs) at 1. f_equal.
    rewrite <- (firstn_skipn (e - b) (skipn b cs)) at 1. f_equal.
    rewrite skipn_skipn. f_equal. lia.
  - rewrite chars_of_list. apply Forall_nth_space. intros i Hi.
    rewrite length_firstn in Hi. rewrite nth_firstn.
    destruct (Nat.ltb i b) eqn:E; [| apply Nat.ltb_ge in E; lia].
    subst cs. rewrite <- char_at_nth. apply Hb2. lia.
  - rewrite chars_of_list. apply Forall_nth_space. intros i Hi.
    rewrite length_skipn in Hi. subst cs. rewrite nth_skipn, <- char_at_nth. apply He2. lia.
  - intros c t Heq Hc. apply isspace_c_space in Hc.
    assert (Hc0 : nth 0 (chars (String.substring b (e - b) s)) NUL = c) by now rewrite Heq.
    rewrite Hmid in Hc0.
    assert (Hlt : (b < e)%nat).
    { destruct (Nat.eq_dec b e) as [E | E]; [| lia].
      apply (f_equal chars) in Heq. rewrite Hmid, E, Nat.sub_diag in Heq.
      discriminate Heq. }
    rewrite nth_firstn in Hc0.
    destruct (Nat.ltb 0 (e - b)) eqn:E; [| apply Nat.ltb_ge in E; lia].
    subst cs. rewrite nth_skipn, Nat.add_0_r, <- char_at_nth in Hc0.
    rewrite <- Hc0, Hb3 in Hc by lia. discriminate Hc.
  - intros t c Heq Hc. apply isspace_c_space in Hc.
    assert (Hl : List.length (chars (String.substring b (e - b) s)) = (e - b)%nat).
    { rewrite Hmid, length_firstn, length_skipn. lia. }
    assert (Hlt : (b < e)%nat).
    { rewrite Heq, chars_app, length_app in Hl. simpl in Hl. lia. }
    assert (Hc0 : nth (e - b - 1) (chars (String.substring b (e - b) s)) NUL = c).
    { rewrite Heq, chars_app in *. rewrite length_app in Hl. simpl in Hl.
      rewrite app_nth2 by lia.
      replace (e - b - 1 - List.length (chars t))%nat with 0%nat by lia. reflexivity. }
    rewrite Hmid, nth_firstn in Hc0.
    destruct (Nat.ltb (e - b - 1) (e - b)) eqn:E; [| apply Nat.ltb_ge in E; lia].
    subst cs. rewrite nth_skipn, <- char_at_nth in Hc0.
    replace (b + (e - b - 1))%nat with (e - 1)%nat in Hc0 by lia.
    rewrite <- Hc0, He3 in Hc by lia. discriminate Hc.
Qed.

Lemma trim_copy_head (s : string) (c : ascii) (t : string) :
  trim_copy s = String c t -> isspace c = false.
Proof.
  intros H. destruct (trim_copy_split s) as (l & r & _ & _ & _ & Hh & _).
  destruct (isspace c) eqn:E; [| reflexivity].
  exfalso. apply (Hh c t H). now apply isspace_c_space.
Qed.

Lemma string_last_split (c : ascii) (t : string) :
  exists t' c', String c t = t' ++ String c' "" /\ c' = char_at (String c t) (String.length t).
Proof.
  revert c. induction t as [| d t IH]; intros c.
  - exists "", c. split; reflexivity.
  - destruct (IH d) as (t' & c' & E & Ec). exists (String c t'), c'. split.
    + simpl. now rewrite E.
    + exact Ec.
Qed.


(** ** Raw integers *)

Lemma substring_all (s : string) : String.substring 0 (String.length s) s = s.
Proof. induction s as [| c s IH]; simpl; [reflexivity | now rewrite IH]. Qed.

Lemma substr_from_0 (s : string) : substr_from 0 s = s.
Proof. unfold substr_from, size. rewrite Nat.sub_0_r. apply substring_all. Qed.

Lemma substr_from_1 (c : ascii) (s : string) : substr_from 1 (String c s) = s.
Proof. unfold substr_from, size. simpl. rewrite Nat.sub_0_r. apply substring_all. Qed.

Lemma read_digits_all (ds : string) (acc : Z) :
  all_digits ds = true ->
  read_digits ds acc
  = (fold_left (fun a c => a * 10 + digit_val c) (chars ds) acc, String.length ds).
Proof.
  unfold all_digits. revert acc.
  induction ds as [| c ds IH]; intros acc H; simpl in *; [reflexivity |].
  apply andb_prop in H as [Hc Hds]. rewrite Hc, (IH _ Hds). reflexivity.
Qed.

Lemma read_digits_full (s : string) (acc v : Z) :
  read_digits s acc = (v, String.length s) ->
  all_digits s = true
  /\ v = fold_left (fun a c => a * 10 + digit_val c) (chars s) acc.
Proof.
  unfold all_digits. revert acc v.
  induction s as [| c s IH]; intros acc v H; simpl in *.
  - inversion H. split; reflexivity.
  - destruct (isdigit c) eqn:Hc; [| discriminate H].
    destruct (read_digits s (acc * 10 + digit_val c)) as [v' n] eqn:E.
    inversion H; subst. destruct (IH _ _ E) as [H1 H2]. now rewrite H1.
Qed.

Lemma read_digits_bound (s : string) (acc : Z) :
  (snd (read_digits s acc) <= String.length s)%nat.
Proof.
  revert acc. induction s as [| c s IH]; intros acc; simpl; [lia |].
  destruct (isdigit c); simpl; [| lia].
  specialize (IH (acc * 10 + digit_val c)).
  destruct (read_digits s (acc * 10 + digit_val c)); simpl in *. lia.
Qed.

Lemma isdigit_not_space (c : ascii) : isdigit c = true -> isspace c = false.
Proof. destruct c as [[] [] [] [] [] [] [] []]; cbv; congruence. Qed.

Lemma isdigit_not_sign (c : ascii) :
  isdigit c = true -> c <> "-"%char /\ c <> "+"%char.
Proof. intros H; split; intros ->; discriminate H. Qed.

Lemma digits_head (ds : string) :
  ds <> "" -> all_digits ds = true ->
  exists c t, ds = String c t /\ isdigit c = true.
Proof.
  destruct ds as [| c t]; [congruence |].
  unfold all_digits; simpl. intros _ H. apply andb_prop in H as [H _]. eauto.
Qed.

(** [strto_core] on a token. *)
Lemma strto_core_token (sg ds : string) :
  (sg = "" \/ sg = "-" \/ sg = "+") -> ds <> "" -> all_digits ds = true ->
  strto_core (sg ++ ds)
  = Some (String.eqb sg "-", decimal ds, String.length (sg ++ ds)).
Proof.
  intros Hsg Hne Hds.
  destruct (digits_head ds Hne Hds) as (c & t & -> & Hc).
  pose proof (isdigit_not_space c Hc) as Hsp.
  unfold strto_core.
  destruct Hsg as [-> | [-> | ->]]; simpl String.append.
  - simpl skip_space. rewrite Hsp. rewrite substr_from_0.
    assert (Hm : match String c t with
                 | String "-" _ => (true, 1%nat)
                 | String "+" _ => (false, 1%nat)
                 | _ => (false, 0%nat)
                 end = (false, 0%nat)).
    { destruct c as [[] [] [] [] [] [] [] []]; try reflexivity; discriminate Hc. }
    rewrite Hm, substr_from_0, (read_digits_all _ 0 Hds). reflexivity.
  - simpl skip_space. rewrite substr_from_0. cbv iota beta.
    rewrite substr_from_1, (read_digits_all _ 0 Hds). reflexivity.
  - simpl skip_space. rewrite substr_from_0. cbv iota beta.
    rewrite substr_from_1, (read_digits_all _ 0 Hds). reflexivity.
Qed.

(** What [strto_core] accepts when it consumes a whole string that does not
    start with white space. *)
Lemma strto_core_whole (s : string) (neg : bool) (v : Z) :
  skip_space s = 0%nat ->
  strto_core s = Some (neg, v, String.length s) ->
  int_token s (if neg then - v else v).
Proof.
  unfold strto_core. intros Hws. rewrite Hws, substr_from_0.
  destruct s as [| c t].
  - simpl. discriminate.
  - destruct (Ascii.eqb c "-") eqn:Em; [apply Ascii.eqb_eq in Em; subst c |
    destruct (Ascii.eqb c "+") eqn:Ep; [apply Ascii.eqb_eq in Ep; subst c |]].
    + cbv iota beta. rewrite substr_from_1.
      destruct (read_digits t 0) as [v' n] eqn:E. destruct n as [| n]; [discriminate |].
      intros H. injection H as Hneg Hv Hidx. subst neg v'.
      assert (Hn : S n = String.length t) by (simpl in Hidx; lia).
      rewrite Hn in E. apply read_digits_full in E as [Hd Hv].
      exists "-", t. repeat split; auto; try (intros ->; discriminate Hn).
      all: try (simpl; unfold decimal; now rewrite Hv).
    + cbv iota beta. rewrite substr_from_1.
      destruct (read_digits t 0) as [v' n] eqn:E. destruct n as [| n]; [discriminate |].
      intros H. injection H as Hneg Hv Hidx. subst neg v'.
      assert (Hn : S n = String.length t) by (simpl in Hidx; lia).
      rewrite Hn in E. apply read_digits_full in E as [Hd Hv].
      exists "+", t. repeat split; auto; try (intros ->; discriminate Hn).
      all: try (simpl; unfold decimal; now rewrite Hv).
    + assert (Hm : match String c t with
                   | String "-" _ => (true, 1%nat)
                   | String "+" _ => (false, 1%nat)
                   | _ => (false, 0%nat)
                   end = (false, 0%nat)).
      { destruct c as [[] [] [] [] [] [] [] []]; try reflexivity; discriminate. }
      rewrite Hm, substr_from_0.
      destruct (read_digits (String c t) 0) as [v' n] eqn:E.
      destruct n as [| n]; [discriminate |].
      intros H. injection H as Hneg Hv Hidx. subst neg v'.
      assert (Hn : S n = String.length (String c t)) by (simpl in Hidx; simpl; lia).
      rewrite Hn in E. apply read_digits_full in E as [Hd Hv].
      exists "", (String c t). repeat split; auto; try discriminate.
      all: try (simpl String.eqb; unfold decimal; now rewrite Hv).
Qed.

Lemma canonicalize_int_accepts (L : Lib) (raw : string) (x : Z) :
  int_token (trim_copy raw) x -> INT64_MIN <= x <= INT64_MAX ->
  canonicalize_typed_value L Int raw = Ok (with_text (cv_init Int) (to_string x)).
Proof.
  intros (sg & ds & Hsg & Hne & Hds & Hs & Hx) Hr.
  unfold canonicalize_typed_value. cbv zeta. rewrite Hs.
  assert (Hsz : Nat.eqb (size (sg ++ ds)) 0 = false).
  { apply Nat.eqb_neq. unfold size.
    destruct ds; [congruence |]. rewrite <- chars_length, chars_app, length_app.
    simpl. lia. }
  rewrite Hsz. unfold stoll. rewrite (strto_core_token sg ds Hsg Hne Hds).
  rewrite <- Hx.
  assert (Hin : (INT64_MIN <=? x) && (x <=? INT64_MAX) = true).
  { apply andb_true_intro; split; apply Z.leb_le; lia. }
  rewrite Hin. unfold size. rewrite Nat.eqb_refl. reflexivity.
Qed.

Lemma canonicalize_int_rejects (L : Lib) (raw : string) :
  (forall x, int_token (trim_copy raw) x -> ~ (INT64_MIN <= x <= INT64_MAX)) ->
  canonicalize_typed_value L Int raw = Err BadInt.
Proof.
  intros Hno. unfold canonicalize_typed_value. cbv zeta.
  destruct (Nat.eqb (size (trim_copy raw)) 0) eqn:Hsz; [reflexivity |].
  unfold stoll.
  destruct (strto_core (trim_copy raw)) as [[[neg v] idx] |] eqn:E; [| reflexivity].
  destruct ((INT64_MIN <=? (if neg then - v else v))
            && ((if neg then - v else v) <=? INT64_MAX)) eqn:Hin; [| reflexivity].
  destruct (Nat.eqb idx (size (trim_copy raw))) eqn:Hidx; [| reflexivity].
  exfalso. apply Nat.eqb_eq in Hidx. subst idx.
  apply andb_prop in Hin as [H1 H2]. apply Z.leb_le in H1, H2.
  assert (Hws : skip_space (trim_copy raw) = 0%nat).
  { destruct (trim_copy raw) as [| c t] eqn:Et; [reflexivity |].
    simpl. now rewrite (trim_copy_head raw c t Et). }
  apply (Hno _ (strto_core_whole _ _ _ Hws E)). lia.
Qed.

Lemma digit_val_nonneg (c : ascii) : isdigit c = true -> 0 <= digit_val c.
Proof.
  unfold isdigit, digit_val. intros H. apply andb_prop in H as [H _].
  apply Nat.leb_le in H. lia.
Qed.

Lemma decimal_nonneg (ds : string) : all_digits ds = true -> 0 <= decimal ds.
Proof.
  unfold all_digits, decimal.
  assert (H : forall l acc, 0 <= acc -> forallb isdigit l = true ->
            0 <= fold_left (fun a c => a * 10 + digit_val c) l acc).
  { induction l as [| c l IH]; simpl; intros acc Ha Hf; [exact Ha |].
    apply andb_prop in Hf as [Hc Hf]. apply IH; [| exact Hf].
    pose proof (digit_val_nonneg c Hc). lia. }
  apply H. lia.
Qed.


(** ** The store monad *)

Lemma bind_ok {A B : Type} (m : M A) (k : A -> M B) (s s' : FelixSqlite) (b : B) :
  bind m k s = (Ok b, s') ->
  exists a s1, m s = (Ok a, s1) /\ k a s1 = (Ok b, s').
Proof.
  unfold bind. destruct (m s) as [[a | e] s1]; intros H; [eauto | discriminate H].
Qed.

Lemma bind_run {A B : Type} (m : M A) (k : A -> M B) (s s1 : FelixSqlite) (a : A) :
  m s = (Ok a, s1) -> bind m k s = k a s1.
Proof. unfold bind. now intros ->. Qed.

Lemma bind_err {A B : Type} (m : M A) (k : A -> M B) (s s1 : FelixSqlite) (e : Error) :
  m s = (Err e, s1) -> bind m k s = (Err e, s1).
Proof. unfold bind. now intros ->. Qed.

Lemma grows_refl (s : FelixSqlite) : grows s s.
Proof.
  unfold grows. repeat split; try reflexivity; exists []; now rewrite app_nil_r.
Qed.

Lemma grows_trans (s1 s2 s3 : FelixSqlite) : grows s1 s2 -> grows s2 s3 -> grows s1 s3.
Proof.
  unfold grows.
  intros (A1 & A2 & A3 & A4 & A5 & A6 & (fl1 & A7) & (vl1 & A8))
         (B1 & B2 & B3 & B4 & B5 & B6 & (fl2 & B7) & (vl2 & B8)).
  repeat split; try congruence.
  - exists (fl1 ++ fl2)%list. now rewrite B7, A7, app_assoc.
  - exists (vl1 ++ vl2)%list. now rewrite B8, A8, app_assoc.
Qed.

Lemma always_bind {A B : Type} (R : FelixSqlite -> FelixSqlite -> Prop)
    (m : M A) (k : A -> M B) :
  (forall s1 s2 s3, R s1 s2 -> R s2 s3 -> R s1 s3) ->
  always R m -> (forall a, always R (k a)) -> always R (bind m k).
Proof.
  intros Htr Hm Hk s. unfold bind. specialize (Hm s).
  destruct (m s) as [[a | e] s1]; simpl in *; [| exact Hm].
  eapply Htr; [exact Hm | apply Hk].
Qed.

Lemma always_ret {A : Type} (R : FelixSqlite -> FelixSqlite -> Prop) (a : A) :
  (forall s, R s s) -> always R (ret a).
Proof. intros H s. apply H. Qed.

Lemma always_throw {A : Type} (R : FelixSqlite -> FelixSqlite -> Prop) (e : Error) :
  (forall s, R s s) -> always R (@throw A e).
Proof. intros H s. apply H. Qed.

Lemma always_lift {A : Type} (R : FelixSqlite -> FelixSqlite -> Prop) (r : result A) :
  (forall s, R s s) -> always R (lift r).
Proof. intros H s. apply H. Qed.

Lemma get_or_create_field_grows (L : Lib) (name : string) :
  always grows (get_or_create_field L name).
Proof.
  intros s. unfold get_or_create_field.
  destruct (256 <? Z.of_nat (size name)); [apply grows_refl |].
  unfold bind, lift, get_db, put_db, ret, throw.
  destruct (require_utf8 L name); simpl; [| apply grows_refl].
  set (h := canonicalize_field_hash L _).
  destruct (existsb (fun x => bytes_eqb (fields_hash x) h) (fields (db_ s))); simpl.
  - destruct (find _ _); simpl; apply grows_refl.
  - destruct (find _ _); simpl; unfold grows; simpl; repeat split;
      try (eexists; reflexivity); exists []; now rewrite app_nil_r.
Qed.


(** ** Keys and rows *)

Lemma same_current_key_eq (a b : SqlFact) :
  same_current_key a b = true <-> cur_key a = cur_key b.
Proof.
  unfold same_current_key, cur_key. rewrite andb_true_iff, !Z.eqb_eq.
  split; [intros [-> ->]; reflexivity | intros H; inversion H; auto].
Qed.

Lemma same_fact_key_eq (a b : SqlFact) :
  same_fact_key a b = true <-> fact_key a = fact_key b.
Proof.
  unfold same_fact_key, fact_key. rewrite !andb_true_iff, !Z.eqb_eq.
  split; [intros [[-> ->] ->]; reflexivity | intros H; inversion H; auto].
Qed.

Lemma fact_key_cur_key (a b : SqlFact) : fact_key a = fact_key b -> cur_key a = cur_key b.
Proof. unfold fact_key, cur_key. intros H; inversion H; congruence. Qed.

Lemma cur_key_fact_key (a b : SqlFact) :
  cur_key a = cur_key b -> col_ts a = col_ts b -> fact_key a = fact_key b.
Proof. unfold fact_key, cur_key. intros H ->. inversion H; reflexivity. Qed.

Lemma no_fact_key (r : SqlFact) (l : list SqlFact) :
  existsb (same_fact_key r) l = false -> ~ In (fact_key r) (map fact_key l).
Proof.
  intros H Hin. apply in_map_iff in Hin as (x & Hk & Hx).
  assert (existsb (same_fact_key r) l = true); [| congruence].
  apply existsb_exists. exists x. split; [exact Hx |]. now apply same_fact_key_eq.
Qed.

Lemma find_key_none (r : SqlFact) (l : list SqlFact) :
  find (same_current_key r) l = None -> ~ In (cur_key r) (map cur_key l).
Proof.
  intros H Hin. apply in_map_iff in Hin as (x & Hk & Hx).
  pose proof (find_none _ _ H x Hx) as Hf.
  assert (same_current_key r x = true) by now apply same_current_key_eq.
  congruence.
Qed.

Lemma find_key_some (r x : SqlFact) (l : list SqlFact) :
  find (same_current_key r) l = Some x -> In x l /\ cur_key x = cur_key r.
Proof.
  intros H. apply find_some in H as [H1 H2]. split; [exact H1 |].
  symmetry. now apply same_current_key_eq.
Qed.

Lemma key_unique {K : Type} (key : SqlFact -> K) (l : list SqlFact) (a b : SqlFact) :
  NoDup (map key l) -> In a l -> In b l -> key a = key b -> a = b.
Proof.
  induction l as [| x l IH]; simpl; intros Hnd Ha Hb Hk; [contradiction |].
  inversion Hnd as [| ? ? Hnotin Hnd']; subst.
  destruct Ha as [-> | Ha], Hb as [-> | Hb]; auto.
  - exfalso. apply Hnotin. rewrite Hk. now apply in_map.
  - exfalso. apply Hnotin. rewrite <- Hk. now apply in_map.
Qed.

Lemma NoDup_map_inv {K : Type} (key : SqlFact -> K) (l : list SqlFact) :
  NoDup (map key l) -> NoDup l.
Proof.
  induction l as [| x l IH]; simpl; intros H; [constructor |].
  inversion H; subst. constructor; [| auto].
  intros Hin. apply H2. now apply in_map.
Qed.

Lemma NoDup_snoc {K : Type} (l : list K) (a : K) :
  NoDup l -> ~ In a l -> NoDup (l ++ [a]).
Proof.
  induction l as [| x l IH]; simpl; intros Hnd Hin.
  - constructor; [tauto | constructor].
  - inversion Hnd; subst. constructor.
    + intros H. apply in_app_or in H as [H | [H | []]]; [tauto | subst; tauto].
    + apply IH; tauto.
Qed.

Lemma replaced_row (r x : SqlFact) :
  cur_key x = cur_key r ->
  mkSqlFact (col_record_id x) (col_field_id x) (col_value_id r) (col_ts r) = r.
Proof. destruct r, x. unfold cur_key. simpl. intros H; inversion H; reflexivity. Qed.

Lemma update_current_keys (r : SqlFact) (l : list SqlFact) :
  map cur_key (update_current r l) = map cur_key l.
Proof.
  induction l as [| x l IH]; simpl; [reflexivity |].
  destruct (same_current_key r x); simpl; [reflexivity | now rewrite IH].
Qed.

Lemma update_current_in (r c : SqlFact) (l : list SqlFact) :
  In c (update_current r l) -> In c l \/ c = r.
Proof.
  induction l as [| x l IH]; simpl; [tauto |].
  destruct (same_current_key r x) eqn:E; simpl.
  - apply same_current_key_eq in E. intros [H | H]; [| tauto].
    right. rewrite <- H. apply replaced_row. congruence.
  - intros [H | H]; [tauto |]. destruct (IH H); tauto.
Qed.

Lemma update_current_other (r c : SqlFact) (l : list SqlFact) :
  In c l -> cur_key c <> cur_key r -> In c (update_current r l).
Proof.
  induction l as [| x l IH]; simpl; [tauto |].
  intros [-> | H] Hk.
  - destruct (same_current_key r c) eqn:E; [| now left].
    apply same_current_key_eq in E. congruence.
  - destruct (same_current_key r x); simpl; [now right | right; auto].
Qed.

Lemma update_current_new (r x : SqlFact) (l : list SqlFact) :
  find (same_current_key r) l = Some x -> In r (update_current r l).
Proof.
  induction l as [| y l IH]; simpl; [discriminate |].
  destruct (same_current_key r y) eqn:E; simpl.
  - intros _. left. apply replaced_row. symmetry. now apply same_current_key_eq.
  - intros H. right. auto.
Qed.

Lemma filter_key_single (l : list SqlFact) (c : SqlFact) :
  NoDup (map cur_key l) -> In c l ->
  filter (fun x => (col_record_id x =? col_record_id c)
                   && (col_field_id x =? col_field_id c)) l = [c].
Proof.
  induction l as [| x l IH]; simpl; intros Hnd Hin; [contradiction |].
  inversion Hnd as [| ? ? Hnotin Hnd']; subst.
  destruct Hin as [-> | Hin].
  - rewrite !Z.eqb_refl. simpl. f_equal.
    assert (Hnil : forall y, In y l ->
              (col_record_id y =? col_record_id c) && (col_field_id y =? col_field_id c) = false).
    { intros y Hy. destruct (_ && _) eqn:E; [| reflexivity].
      exfalso. apply Hnotin. apply andb_prop in E as [E1 E2].
      apply Z.eqb_eq in E1, E2. apply in_map_iff. exists y. split; [| exact Hy].
      unfold cur_key. congruence. }
    clear -Hnil. induction l as [| y l IH]; simpl; [reflexivity |].
    rewrite (Hnil y) by now left. apply IH. intros z Hz. apply Hnil. now right.
  - destruct ((col_record_id x =? col_record_id c) && (col_field_id x =? col_field_id c)) eqn:E.
    + exfalso. apply Hnotin. apply andb_prop in E as [E1 E2].
      apply Z.eqb_eq in E1, E2. apply in_map_iff. exists c. split; [| exact Hin].
      unfold cur_key. congruence.
    + now apply IH.
Qed.

Lemma fk_ok_mono (d d' : DB) (f : SqlFact) :
  (exists l, records d' = records d ++ l)%list ->
  (exists l, fields d' = fields d ++ l)%list ->
  (exists l, f_values d' = f_values d ++ l)%list ->
  fk_ok d f = true -> fk_ok d' f = true.
Proof.
  intros [l1 H1] [l2 H2] [l3 H3]. unfold fk_ok. rewrite H1, H2, H3, !existsb_app.
  rewrite !andb_true_iff. intros [[-> ->] ->]. auto.
Qed.

(** ** The invariant *)

Lemma Inv_P3 (d : DB) : Inv d -> current_is_max d.
Proof.
  intros [Hfp Hcp Hcf Hcov Hfk] r f (x & Hx & Hk).
  destruct (Hcov x Hx) as (c & Hc & Hkc & Hle).
  assert (Hrf : col_record_id c = r /\ col_field_id c = f).
  { rewrite Hk in Hkc. unfold cur_key in Hkc. inversion Hkc; auto. }
  destruct Hrf as [Hr Hf].
  exists c. repeat split.
  - rewrite <- Hr, <- Hf. now apply filter_key_single.
  - exists c. repeat split; auto. unfold cur_key. congruence.
  - intros y Hy Hky. destruct (Hcov y Hy) as (c' & Hc' & Hkc' & Hle').
    assert (c' = c); [| now subst].
    apply (key_unique cur_key (current_facts d)); auto. congruence.
  - intros y Hy Hky Hts.
    assert (y = c); [| now subst].
    apply (key_unique fact_key (facts d)); auto.
    apply cur_key_fact_key; [| exact Hts]. rewrite Hky. unfold cur_key. congruence.
Qed.

Lemma Inv_grows (s s' : FelixSqlite) : grows s s' -> Inv (db_ s) -> Inv (db_ s').
Proof.
  intros (_ & _ & _ & Hr & Hf & Hc & Hfl & Hvl) [Hfp Hcp Hcf Hcov Hfk].
  constructor; rewrite ?Hf, ?Hc; auto.
  intros f Hin.
  apply (fk_ok_mono (db_ s)); auto. exists []. now rewrite Hr, app_nil_r.
Qed.

Lemma Inv_insert_upsert (d d1 d2 : DB) (r : SqlFact) :
  Inv d -> sql_insert_fact r d = Ok d1 -> sql_upsert_current r d1 = Ok d2 -> Inv d2.
Proof.
  intros [Hfp Hcp Hcf Hcov Hfk]. unfold sql_insert_fact.
  destruct (existsb (same_fact_key r) (facts d)) eqn:Epk; [discriminate |].
  destruct (fk_ok d r) eqn:Efk; simpl; [| discriminate].
  intros H1. injection H1 as <-.
  assert (Hfk1 : forall f, In f (facts d ++ [r]) ->
                   fk_ok (with_facts d (facts d ++ [r])) f = true).
  { intros f Hin. apply in_app_or in Hin as [Hin | [<- | []]]; [now apply Hfk | exact Efk]. }
  assert (Hfp1 : NoDup (map fact_key (facts d ++ [r]))).
  { rewrite map_app. simpl. apply NoDup_snoc; [exact Hfp | now apply no_fact_key]. }
  unfold sql_upsert_current. simpl current_facts.
  destruct (find (same_current_key r) (current_facts d)) as [x |] eqn:Efind.
  - apply find_key_some in Efind as Hx. destruct Hx as [Hx Hkx].
    destruct (col_ts r >=? col_ts x) eqn:Ets.
    + replace (fk_ok (with_facts d (facts d ++ [r])) r) with true by (symmetry; exact Efk).
      intros H2. injection H2 as <-. apply Z.geb_le in Ets.
      constructor; simpl.
      * exact Hfp1.
      * now rewrite update_current_keys.
      * intros c Hc. apply update_current_in in Hc as [Hc | ->]; apply in_or_app;
          [left; auto | right; now left].
      * intros f Hin. apply in_app_or in Hin as [Hin | [<- | []]].
        -- destruct (Hcov f Hin) as (c & Hc & Hkc & Hle).
           destruct (list_eq_dec Z.eq_dec [col_record_id c; col_field_id c]
                       [col_record_id r; col_field_id r]) as [E | E].
           ++ assert (Hkcr : cur_key c = cur_key r)
                by (unfold cur_key; inversion E; congruence).
              assert (c = x) by (apply (key_unique cur_key (current_facts d)); congruence).
              subst c. exists r. repeat split; [| congruence | lia].
              eapply update_current_new; eauto.
           ++ exists c. repeat split; auto. apply update_current_other; auto.
              intros Hk. apply E. unfold cur_key in Hk. inversion Hk. congruence.
        -- exists r. repeat split; [| lia]. eapply update_current_new; eauto.
      * exact Hfk1.
    + intros H2. injection H2 as <-.
      assert (Hlt : col_ts r < col_ts x).
      { rewrite Z.geb_leb in Ets. apply Z.leb_gt in Ets. lia. }
      constructor; simpl; auto.
      * intros c Hc. apply in_or_app. left. auto.
      * intros f Hin. apply in_app_or in Hin as [Hin | [<- | []]]; [auto |].
        exists x. repeat split; auto. lia.
  - replace (fk_ok (with_facts d (facts d ++ [r])) r) with true by (symmetry; exact Efk).
    intros H2. injection H2 as <-.
    apply find_key_none in Efind.
    constructor; simpl.
    + exact Hfp1.
    + rewrite map_app. simpl.
      now apply NoDup_snoc.
    + intros c Hc. apply in_app_or in Hc as [Hc | [<- | []]]; apply in_or_app;
        [left; auto | right; now left].
    + intros f Hin. apply in_app_or in Hin as [Hin | [<- | []]].
      * destruct (Hcov f Hin) as (c & Hc & Hkc & Hle).
        exists c. repeat split; auto. apply in_or_app. now left.
      * exists r. repeat split; [| lia]. apply in_or_app. right. now left.
    + exact Hfk1.
Qed.


(** ** Ingest keeps the invariant *)

Lemma get_or_create_value_grows (L : Lib) (cv : CanonValue) :
  always grows (get_or_create_value L cv).
Proof.
  intros s. unfold get_or_create_value. cbv zeta.
  destruct (LogicalType_eqb (logical_type cv) Text && _); [apply grows_refl |].
  destruct (LogicalType_eqb (logical_type cv) Bytes && _); [apply grows_refl |].
  unfold bind, lift, get_db, put_db, ret, throw.
  destruct (sha256_typed L _ _ _ _) as [h | e]; simpl; [| apply grows_refl].
  destruct (type_tag_byte _ _) as [tag | e]; simpl; [| apply grows_refl].
  destruct (existsb (fun x => bytes_eqb (values_hash x) h) (f_values (db_ s))); simpl.
  - destruct (find _ _); simpl; apply grows_refl.
  - destruct (find _ _); simpl; unfold grows; simpl; repeat split;
      try (eexists; reflexivity); exists []; now rewrite app_nil_r.
Qed.

Lemma exec_ok (stmt : DB -> result DB) (s s' : FelixSqlite) :
  exec stmt s = (Ok tt, s') -> exists d', stmt (db_ s) = Ok d' /\ s' = set_db d' s.
Proof.
  unfold exec, bind, get_db, put_db, throw. simpl.
  destruct (stmt (db_ s)) as [d' | e]; intros H; inversion H. eauto.
Qed.

Lemma exec_err (stmt : DB -> result DB) (s s' : FelixSqlite) (e : Error) :
  exec stmt s = (Err e, s') -> stmt (db_ s) = Err e /\ s' = s.
Proof.
  unfold exec, bind, get_db, put_db, throw. simpl.
  destruct (stmt (db_ s)) as [d' | e']; intros H; inversion H. auto.
Qed.

Lemma exec_run_ok (stmt : DB -> result DB) (s : FelixSqlite) (d' : DB) :
  stmt (db_ s) = Ok d' -> exec stmt s = (Ok tt, set_db d' s).
Proof. unfold exec, bind, get_db, put_db. simpl. now intros ->. Qed.

Lemma exec_run_err (stmt : DB -> result DB) (s : FelixSqlite) (e : Error) :
  stmt (db_ s) = Err e -> exec stmt s = (Err e, s).
Proof. unfold exec, bind, get_db, throw. simpl. now intros ->. Qed.

Lemma get_current_state (r fid : Z) (s : FelixSqlite) : snd (get_current r fid s) = s.
Proof. reflexivity. Qed.

Lemma ingest_item_Inv (L : Lib) (r ts : Z) (mode : TemporalityMode) (it : IngestItem)
    (s s' : FelixSqlite) :
  Inv (db_ s) -> ingest_item L r ts mode it s = (Ok tt, s') -> Inv (db_ s').
Proof.
  intros HI H. unfold ingest_item in H.
  apply bind_ok in H as (fid & s1 & H1 & H).
  apply bind_ok in H as (vid & s2 & H2 & H).
  apply bind_ok in H as (u & s3 & H3 & H).
  pose proof (get_or_create_field_grows L (field_name it) s) as G1. rewrite H1 in G1.
  pose proof (get_or_create_value_grows L (value it) s1) as G2. rewrite H2 in G2.
  simpl in G1, G2.
  assert (HI2 : Inv (db_ s2)) by (eapply Inv_grows; [| eapply Inv_grows]; eauto).
  assert (Hs3 : s3 = s2).
  { destruct mode; unfold bind, get_current, get_db, ret in H3; simpl in H3;
      inversion H3; reflexivity. }
  subst s3. destruct u.
  - unfold ret in H. inversion H; subst. exact HI2.
  - apply bind_ok in H as ([] & s4 & H4 & H5).
    apply exec_ok in H4 as (d4 & E4 & ->). apply exec_ok in H5 as (d5 & E5 & ->).
    simpl in *. eapply Inv_insert_upsert; eauto.
Qed.

Lemma ingest_loop_Inv (L : Lib) (r ts : Z) (mode : TemporalityMode)
    (items : list IngestItem) (s s' : FelixSqlite) :
  Inv (db_ s) -> ingest_loop L r ts mode items s = (Ok tt, s') -> Inv (db_ s').
Proof.
  revert s. induction items as [| it rest IH]; simpl; intros s HI H.
  - unfold ret in H. inversion H; subst. exact HI.
  - apply bind_ok in H as ([] & s1 & H1 & H2).
    eapply IH; [| exact H2]. eapply ingest_item_Inv; eauto.
Qed.

Lemma ensure_record_Inv (r ts : Z) (s : FelixSqlite) :
  Inv (db_ s) -> Inv (db_ (snd (ensure_record r ts s))).
Proof.
  intros [Hfp Hcp Hcf Hcov Hfk]. unfold ensure_record, bind, get_db, put_db, ret. simpl.
  destruct (existsb _ _); simpl; constructor; auto.
  intros f Hin. apply (fk_ok_mono (db_ s)); simpl; auto.
  - eexists; reflexivity.
  - exists []. now rewrite app_nil_r.
  - exists []. now rewrite app_nil_r.
Qed.

Lemma ensure_record_ok (r ts : Z) (s : FelixSqlite) : fst (ensure_record r ts s) = Ok tt.
Proof.
  unfold ensure_record, bind, get_db, put_db, ret. simpl. destruct (existsb _ _); reflexivity.
Qed.

(** A rolled-back transaction leaves the database as it was. *)
Lemma with_tx_err {A : Type} (fn : M A) (s s' : FelixSqlite) (e : Error) :
  with_tx fn s = (Err e, s') -> db_ s' = db_ s.
Proof.
  unfold with_tx. destruct (fn s) as [[a | e'] s1]; intros H; inversion H. reflexivity.
Qed.

Lemma ingest_items_Inv (L : Lib) (r ts : Z) (mode : TemporalityMode)
    (items : list IngestItem) (s : FelixSqlite) :
  Inv (db_ s) -> Inv (db_ (snd (ingest_items L r ts mode items s))).
Proof.
  intros HI. unfold ingest_items, with_tx.
  match goal with |- context [match ?m s with _ => _ end] => destruct (m s) as [[[] | e] s1] eqn:E end;
    simpl; [| exact HI].
  apply bind_ok in E as ([] & s0 & E0 & E1).
  assert (HI0 : Inv (db_ s0)).
  { pose proof (ensure_record_Inv r ts s HI) as H. now rewrite E0 in H. }
  destruct (256 <? Z.of_nat (Datatypes.length items)); [discriminate E1 |].
  eapply ingest_loop_Inv; eauto.
Qed.

Lemma Inv_no_facts (d : DB) : facts d = [] -> current_facts d = [] -> Inv d.
Proof.
  intros Hf Hc. constructor; rewrite ?Hf, ?Hc; simpl; try constructor; intros ? [].
Qed.


(** ** Rebuilding the current view *)

Lemma group_key_test (rid fid : Z) (r : SqlFact) :
  (rid =? col_record_id r) && (fid =? col_field_id r) = true <-> (rid, fid) = cur_key r.
Proof.
  unfold cur_key. rewrite andb_true_iff, !Z.eqb_eq.
  split; [intros [-> ->]; reflexivity | intros H; inversion H; auto].
Qed.

Lemma group_max_add_keys (r : SqlFact) (g : list (Z * Z * Z)) (k : Z * Z) :
  In k (map fst (group_max_add r g)) -> In k (map fst g) \/ k = cur_key r.
Proof.
  induction g as [| [[rid fid] mx] g IH]; simpl.
  - intros [<- | []]. now right.
  - destruct ((rid =? col_record_id r) && (fid =? col_field_id r)); simpl.
    + tauto.
    + intros [H | H]; [tauto |]. destruct (IH H); tauto.
Qed.

Lemma group_max_add_NoDup (r : SqlFact) (g : list (Z * Z * Z)) :
  NoDup (map fst g) -> NoDup (map fst (group_max_add r g)).
Proof.
  induction g as [| [[rid fid] mx] g IH]; simpl; intros H.
  - constructor; [tauto | constructor].
  - inversion H as [| ? ? Hnotin Hnd]; subst.
    destruct ((rid =? col_record_id r) && (fid =? col_field_id r)) eqn:E; simpl.
    + constructor; assumption.
    + constructor; [| auto].
      intros Hin. apply group_max_add_keys in Hin as [Hin | Hin]; [tauto |].
      apply group_key_test in Hin. congruence.
Qed.

Lemma group_max_add_in (r : SqlFact) (g : list (Z * Z * Z)) (k : Z * Z) (m : Z) :
  NoDup (map fst g) -> In (k, m) (group_max_add r g) ->
  (k <> cur_key r /\ In (k, m) g)
  \/ (k = cur_key r
      /\ ((m = col_ts r /\ ~ In k (map fst g))
          \/ exists m0, In (k, m0) g /\ m = Z.max m0 (col_ts r))).
Proof.
  induction g as [| [[rid fid] mx] g IH]; simpl; intros Hnd Hin.
  - destruct Hin as [Hin | []]. inversion Hin; subst. right. split; [reflexivity |]. left. tauto.
  - inversion Hnd as [| ? ? Hnotin Hnd']; subst.
    destruct ((rid =? col_record_id r) && (fid =? col_field_id r)) eqn:E.
    + apply group_key_test in E. destruct Hin as [Hin | Hin].
      * inversion Hin; subst. right. split; [assumption |]. right. exists mx. split; [now left | reflexivity].
      * left. split; [| now right]. intros ->. apply Hnotin. rewrite E.
        change (cur_key r) with (fst (cur_key r, m)). now apply in_map.
    + assert (Hne : (rid, fid) <> cur_key r).
      { intros H. apply group_key_test in H. congruence. }
      destruct Hin as [Hin | Hin].
      * inversion Hin; subst. left. split; [assumption | now left].
      * destruct (IH Hnd' Hin) as [[H1 H2] | [H1 [[H2 H3] | (m0 & H2 & H3)]]].
        -- left. split; [assumption | now right].
        -- right. split; [assumption |]. left. split; [assumption |].
           intros [H | H]; [simpl in H; congruence | tauto].
        -- right. split; [assumption |]. right. exists m0. split; [now right | assumption].
Qed.

Lemma group_max_add_has (r : SqlFact) (g : list (Z * Z * Z)) (k : Z * Z) :
  In k (map fst g) \/ k = cur_key r -> In k (map fst (group_max_add r g)).
Proof.
  induction g as [| [[rid fid] mx] g IH]; simpl.
  - intros [[] | ->]. now left.
  - destruct ((rid =? col_record_id r) && (fid =? col_field_id r)) eqn:E; simpl.
    + apply group_key_test in E. intros [H | ->]; [exact H | now left].
    + intros [[H | H] | H]; [now left | right; apply IH; now left | right; apply IH; now right].
Qed.

(** What [GROUP BY record_id, field_id] with [MAX(ts)] computes. *)
Lemma group_max_fold (rows pre : list SqlFact) (g : list (Z * Z * Z)) :
  NoDup (map fst g) ->
  (forall k m, In (k, m) g ->
     (exists x, In x pre /\ cur_key x = k /\ col_ts x = m)
     /\ (forall x, In x pre -> cur_key x = k -> col_ts x <= m)) ->
  (forall x, In x pre -> In (cur_key x) (map fst g)) ->
  let g' := fold_left (fun g r => group_max_add r g) rows g in
  NoDup (map fst g')
  /\ (forall k m, In (k, m) g' ->
        (exists x, In x (pre ++ rows) /\ cur_key x = k /\ col_ts x = m)
        /\ (forall x, In x (pre ++ rows) -> cur_key x = k -> col_ts x <= m))
  /\ (forall x, In x (pre ++ rows) -> In (cur_key x) (map fst g')).
Proof.
  revert pre g. induction rows as [| r rows IH]; intros pre g Hnd Hm Hex; simpl.
  - rewrite app_nil_r. auto.
  - replace (pre ++ r :: rows)%list with ((pre ++ [r]) ++ rows)%list
      by (rewrite <- app_assoc; reflexivity).
    apply IH.
    + now apply group_max_add_NoDup.
    + intros k m Hin.
      destruct (group_max_add_in r g k m Hnd Hin) as [[H1 H2] | [H1 [[H2 H3] | (m0 & H2 & H3)]]].
      * destruct (Hm k m H2) as [(x & Hx & Hk & Ht) Hub]. split.
        -- exists x. repeat split; auto. apply in_or_app. now left.
        -- intros y Hy Hky. apply in_app_or in Hy as [Hy | [<- | []]]; [auto | congruence].
      * split.
        -- exists r. repeat split; auto. apply in_or_app. right. now left.
        -- intros y Hy Hky. apply in_app_or in Hy as [Hy | [<- | []]]; [| lia].
           exfalso. apply H3. rewrite <- Hky. auto.
      * destruct (Hm k m0 H2) as [(x & Hx & Hk & Ht) Hub]. split.
        -- destruct (Z.max_spec m0 (col_ts r)) as [[Hlt Hmax] | [Hge Hmax]].
           ++ exists r. repeat split; auto; [apply in_or_app; right; now left | lia].
           ++ exists x. repeat split; auto; [apply in_or_app; now left | lia].
        -- intros y Hy Hky. apply in_app_or in Hy as [Hy | [<- | []]]; [| lia].
           specialize (Hub y Hy Hky). lia.
    + intros x Hx. apply group_max_add_has.
      apply in_app_or in Hx as [Hx | [<- | []]]; [left; auto | now right].
Qed.

Lemma filter_group (g : list (Z * Z * Z)) (k : Z * Z) (m t : Z) :
  NoDup (map fst g) -> In (k, m) g ->
  filter (fun '(rid, fid, mx) => (rid =? fst k) && (fid =? snd k) && (mx =? t)) g
  = if m =? t then [(k, m)] else [].
Proof.
  destruct k as [kr kf]. simpl.
  induction g as [| [[rid fid] mx] g IH]; simpl; intros Hnd Hin; [contradiction |].
  inversion Hnd as [| ? ? Hnotin Hnd']; subst.
  assert (Hrest : forall l, ~ In (kr, kf) (map fst l) ->
            filter (fun '(rid, fid, mx) => (rid =? kr) && (fid =? kf) && (mx =? t)) l = []).
  { clear. induction l as [| [[a b] c] l IH]; simpl; intros H; [reflexivity |].
    destruct ((a =? kr) && (b =? kf)) eqn:E.
    - exfalso. apply H. left. apply andb_prop in E as [E1 E2].
      apply Z.eqb_eq in E1, E2. congruence.
    - simpl. apply IH. tauto. }
  destruct Hin as [Hin | Hin].
  - inversion Hin; subst. rewrite !Z.eqb_refl. simpl.
    rewrite (Hrest g Hnotin). destruct (m =? t); reflexivity.
  - destruct ((rid =? kr) && (fid =? kf)) eqn:E.
    + exfalso. apply Hnotin. apply andb_prop in E as [E1 E2].
      apply Z.eqb_eq in E1, E2. subst.
      change (kr, kf) with (fst (kr, kf, m)). now apply in_map.
    + simpl. now apply IH.
Qed.

Lemma flat_map_as_filter {A : Type} (F : A -> list A) (p : A -> bool) (l : list A) :
  (forall x, In x l -> F x = if p x then [x] else []) -> flat_map F l = filter p l.
Proof.
  induction l as [| x l IH]; simpl; intros H; [reflexivity |].
  rewrite (H x) by now left. rewrite IH by (intros y Hy; apply H; now right).
  destruct (p x); reflexivity.
Qed.

Lemma is_group_max_spec (rows : list SqlFact) (f : SqlFact) :
  is_group_max rows f = true
  <-> forall x, In x rows -> cur_key x = cur_key f -> col_ts x <= col_ts f.
Proof.
  unfold is_group_max. rewrite forallb_forall. split.
  - intros H x Hx Hk. specialize (H x Hx).
    apply same_current_key_eq in Hk. rewrite Hk in H. simpl in H. now apply Z.leb_le.
  - intros H x Hx. destruct (same_current_key x f) eqn:E; simpl; [| reflexivity].
    apply Z.leb_le. apply H; [exact Hx | now apply same_current_key_eq].
Qed.

(** The join of the source selects what the specification describes. *)
Lemma join_latest_spec (rows : list SqlFact) :
  join_latest rows (group_max rows) = spec_rebuild rows.
Proof.
  unfold join_latest, spec_rebuild, group_max.
  destruct (group_max_fold rows [] []) as (Hnd & Hm & Hex);
    [constructor | intros ? ? [] | intros ? [] |].
  simpl in Hm, Hex.
  set (g := fold_left (fun g r => group_max_add r g) rows []) in *.
  apply flat_map_as_filter. intros f Hf.
  pose proof (Hex f Hf) as Hk. apply in_map_iff in Hk as ([k m] & Hk & Hin).
  simpl in Hk. subst k.
  pose proof (filter_group g (cur_key f) m (col_ts f) Hnd Hin) as Hfl.
  simpl in Hfl. rewrite Hfl.
  destruct (Hm _ _ Hin) as [(x & Hx & Hkx & Htx) Hub].
  destruct (m =? col_ts f) eqn:E.
  - apply Z.eqb_eq in E.
    assert (Hmax : is_group_max rows f = true).
    { apply is_group_max_spec. intros y Hy Hky. rewrite <- E. now apply Hub. }
    rewrite Hmax. reflexivity.
  - apply Z.eqb_neq in E.
    destruct (is_group_max rows f) eqn:Hmax; [| reflexivity].
    exfalso. apply E.
    pose proof (proj1 (is_group_max_spec rows f) Hmax x Hx Hkx).
    pose proof (Hub f Hf eq_refl). lia.
Qed.

Lemma insert_all_current_ok (rows : list SqlFact) (d : DB) :
  NoDup (map cur_key (current_facts d ++ rows)) ->
  (forall f, In f rows -> fk_ok d f = true) ->
  insert_all_current rows d = Ok (with_current d (current_facts d ++ rows)).
Proof.
  revert d. induction rows as [| r rows IH]; intros d Hnd Hfk; simpl.
  - rewrite app_nil_r. destruct d; reflexivity.
  - unfold sql_insert_current.
    assert (Hno : existsb (same_current_key r) (current_facts d) = false).
    { destruct (existsb _ _) eqn:E; [| reflexivity].
      exfalso. apply existsb_exists in E as (x & Hx & Hk).
      apply same_current_key_eq in Hk.
      pose proof Hnd as Hnd2. rewrite map_app in Hnd2. simpl in Hnd2.
      apply NoDup_remove_2 in Hnd2. apply Hnd2. apply in_or_app. left.
      rewrite Hk. now apply in_map. }
    rewrite Hno, (Hfk r) by now left. simpl.
    rewrite IH; simpl.
    + rewrite <- app_assoc. reflexivity.
    + rewrite <- app_assoc. exact Hnd.
    + intros f Hf. unfold fk_ok. simpl. apply Hfk. now right.
Qed.

Lemma spec_rebuild_keys (rows : list SqlFact) :
  NoDup (map fact_key rows) -> NoDup (map cur_key (spec_rebuild rows)).
Proof.
  intros Hnd. unfold spec_rebuild.
  assert (Hgen : forall l, NoDup (map fact_key l) -> incl l rows ->
            NoDup (map cur_key (filter (is_group_max rows) l))).
  { induction l as [| f l IH]; simpl; intros Hl Hincl; [constructor |].
    inversion Hl as [| ? ? Hnotin Hl']; subst.
    assert (Hincl' : incl l rows) by (intros y Hy; apply Hincl; now right).
    destruct (is_group_max rows f) eqn:E; simpl; [| auto].
    constructor; [| auto].
    intros Hin. apply in_map_iff in Hin as (y & Hk & Hy).
    apply filter_In in Hy as [Hy Hmaxy].
    apply Hnotin. apply in_map_iff. exists y. split; [| exact Hy].
    pose proof (proj1 (is_group_max_spec rows f) E y (Hincl' y Hy) Hk).
    pose proof (proj1 (is_group_max_spec rows y) Hmaxy f (Hincl f (or_introl eq_refl))
                  (eq_sym Hk)).
    apply cur_key_fact_key; [congruence | lia]. }
  apply Hgen; [exact Hnd | apply incl_refl].
Qed.

Lemma rebuild_under_Inv (s : FelixSqlite) :
  Inv (db_ s) ->
  rebuild_current_facts s
  = (Ok tt, set_db (with_current (db_ s) (spec_rebuild (facts (db_ s)))) s)
  /\ Permutation (spec_rebuild (facts (db_ s))) (current_facts (db_ s)).
Proof.
  intros [Hfp Hcp Hcf Hcov Hfk]. split.
  - unfold rebuild_current_facts, exec, bind, get_db, put_db, throw. simpl.
    rewrite join_latest_spec, insert_all_current_ok; simpl.
    + reflexivity.
    + now apply spec_rebuild_keys.
    + intros f Hf. apply filter_In in Hf as [Hf _]. unfold fk_ok. simpl. now apply Hfk.
  - apply NoDup_Permutation.
    + apply (NoDup_map_inv cur_key). now apply spec_rebuild_keys.
    + now apply (NoDup_map_inv cur_key).
    + intros f. unfold spec_rebuild. rewrite filter_In, is_group_max_spec. split.
      * intros [Hf Hmax]. destruct (Hcov f Hf) as (c & Hc & Hk & Hle).
        pose proof (Hmax c (Hcf c Hc) Hk).
        assert (c = f); [| now subst].
        apply (key_unique fact_key (facts (db_ s))); auto.
        apply cur_key_fact_key; [congruence | lia].
      * intros Hc. split; [auto |]. intros x Hx Hk.
        destruct (Hcov x Hx) as (c & Hc' & Hkc & Hle).
        assert (c = f); [| now subst].
        apply (key_unique cur_key (current_facts (db_ s))); auto. congruence.
Qed.


(** ** Interning *)

Lemma bytes_eqb_refl (a : list byte) : bytes_eqb a a = true.
Proof. unfold bytes_eqb. destruct (list_eq_dec _ a a); congruence. Qed.

Lemma bytes_eqb_eq (a b : list byte) : bytes_eqb a b = true <-> a = b.
Proof. unfold bytes_eqb. destruct (list_eq_dec _ a b); split; congruence. Qed.

Lemma find_app_some {A : Type} (p : A -> bool) (l l' : list A) (x : A) :
  find p l = Some x -> find p (l ++ l') = Some x.
Proof.
  induction l as [| y l IH]; simpl; [discriminate |].
  destruct (p y); auto.
Qed.

Lemma find_existsb {A : Type} (p : A -> bool) (l : list A) (x : A) :
  find p l = Some x -> existsb p l = true.
Proof.
  intros H. apply find_some in H as [H1 H2]. apply existsb_exists. eauto.
Qed.

Lemma existsb_find {A : Type} (p : A -> bool) (l : list A) :
  existsb p l = true -> exists x, find p l = Some x.
Proof.
  induction l as [| y l IH]; simpl; [discriminate |].
  destruct (p y); simpl; eauto.
Qed.

Lemma find_snoc_new {A : Type} (p : A -> bool) (l : list A) (x : A) :
  existsb p l = false -> p x = true -> find p (l ++ [x]) = Some x.
Proof.
  induction l as [| y l IH]; simpl; intros H Hx.
  - now rewrite Hx.
  - apply orb_false_elim in H as [H1 H2]. rewrite H1. auto.
Qed.

Lemma name_ok_spec (L : Lib) (name : string) :
  name_ok L name = true ->
  (256 <? Z.of_nat (size name)) = false /\ require_utf8 L name = Ok tt.
Proof.
  unfold name_ok. intros H. apply andb_prop in H as [H1 H2].
  apply Z.leb_le in H1. split; [apply Z.ltb_ge; lia |].
  destruct (require_utf8 L name) as [[] | e]; [reflexivity | discriminate].
Qed.

(** The outcome of [get_or_create_field], case by case. *)
Lemma get_or_create_field_found (L : Lib) (name : string) (s : FelixSqlite) (x : FieldsRow) :
  name_ok L name = true ->
  find (fun x => bytes_eqb (fields_hash x) (field_hash L name)) (fields (db_ s)) = Some x ->
  get_or_create_field L name s = (Ok (to_uint32 (fields_field_id x)), s).
Proof.
  intros Hok Hfind. apply name_ok_spec in Hok as [H1 H2].
  unfold get_or_create_field. rewrite H1.
  unfold bind, lift, get_db, put_db, ret, throw. rewrite H2.
  fold (field_hash L name). rewrite (find_existsb _ _ _ Hfind). simpl.
  now rewrite Hfind.
Qed.

Lemma get_or_create_field_new (L : Lib) (name : string) (s : FelixSqlite) :
  name_ok L name = true ->
  existsb (fun x => bytes_eqb (fields_hash x) (field_hash L name)) (fields (db_ s)) = false ->
  let row := mkFieldsRow (next_rowid (map fields_field_id (fields (db_ s))))
               (c_str (nfc_normalize_utf8 L (trim_copy name))) (field_hash L name) in
  get_or_create_field L name s
  = (Ok (to_uint32 (fields_field_id row)),
     set_db (with_fields (db_ s) (fields (db_ s) ++ [row])) s).
Proof.
  intros Hok Hex. apply name_ok_spec in Hok as [H1 H2].
  unfold get_or_create_field. rewrite H1.
  unfold bind, lift, get_db, put_db, ret, throw. rewrite H2.
  fold (field_hash L name). rewrite Hex. simpl.
  rewrite (find_snoc_new _ _ _ Hex); [reflexivity |]. simpl. apply bytes_eqb_refl.
Qed.

Lemma get_or_create_field_ok (L : Lib) (name : string) (s s1 : FelixSqlite) (fid : Z) :
  get_or_create_field L name s = (Ok fid, s1) ->
  name_ok L name = true
  /\ exists x,
       find (fun x => bytes_eqb (fields_hash x) (field_hash L name)) (fields (db_ s1)) = Some x
       /\ fid = to_uint32 (fields_field_id x).
Proof.
  unfold get_or_create_field, name_ok.
  destruct (256 <? Z.of_nat (size name)) eqn:E1; [discriminate |].
  apply Z.ltb_ge in E1. replace (Z.of_nat (size name) <=? 256) with true
    by (symmetry; apply Z.leb_le; lia).
  unfold bind, lift, get_db, put_db, ret, throw.
  destruct (require_utf8 L name) as [[] | e]; [| discriminate].
  fold (field_hash L name). simpl.
  destruct (existsb _ (fields (db_ s))) eqn:Eex; simpl.
  - destruct (find _ (fields (db_ s))) as [x |] eqn:Ef; intros H; inversion H; subst.
    split; [reflexivity |]. eauto.
  - rewrite (find_snoc_new _ _ _ Eex) by (simpl; apply bytes_eqb_refl).
    intros H; inversion H; subst. split; [reflexivity |]. simpl.
    rewrite (find_snoc_new _ _ _ Eex) by (simpl; apply bytes_eqb_refl). eauto.
Qed.

Lemma value_ok_spec (tm : TagMapVersion) (cv : CanonValue) :
  value_ok tm cv = true ->
  LogicalType_eqb (logical_type cv) Text
    && (1 * 1024 * 1024 <? Z.of_nat (size (canon_text cv))) = false
  /\ LogicalType_eqb (logical_type cv) Bytes
       && (4 * 1024 * 1024 <? Z.of_nat (List.length (canon_blob cv))) = false
  /\ exists tag, type_tag_byte tm (logical_type cv) = Ok tag.
Proof.
  unfold value_ok. intros H. apply andb_prop in H as [H H3]. apply andb_prop in H as [H1 H2].
  apply negb_true_iff in H1, H2. repeat split; auto.
  destruct (type_tag_byte tm (logical_type cv)); [eauto | discriminate].
Qed.

(** The hash under which a value is interned in a store. *)
Lemma sha256_typed_ok (L : Lib) (tm : TagMapVersion) (hf : HashFormatVersion)
    (cv : CanonValue) (tag : Z) :
  type_tag_byte tm (logical_type cv) = Ok tag ->
  sha256_typed L tm hf (logical_type cv) (canon_bytes_of cv)
  = Ok (sha256_bytes L ([byte_of_Z tag]
          ++ (match hf with FelixV03Sep => [x00] | LegacyNoSep => [] end)
          ++ canon_bytes_of cv)%list).
Proof. unfold sha256_typed. now intros ->. Qed.

Lemma get_or_create_value_found (L : Lib) (cv : CanonValue) (s : FelixSqlite)
    (h : list byte) (x : ValuesRow) :
  value_ok (tagmap_ s) cv = true ->
  sha256_typed L (tagmap_ s) (hashfmt_ s) (logical_type cv) (canon_bytes_of cv) = Ok h ->
  find (fun x => bytes_eqb (values_hash x) h) (f_values (db_ s)) = Some x ->
  get_or_create_value L cv s = (Ok (to_uint64 (values_value_id x)), s).
Proof.
  intros Hok Hh Hfind. apply value_ok_spec in Hok as (H1 & H2 & tag & H3).
  unfold get_or_create_value. cbv zeta. rewrite H1, H2.
  unfold bind, lift, get_db, put_db, ret, throw.
  fold (canon_bytes_of cv). rewrite Hh, H3. simpl.
  rewrite (find_existsb _ _ _ Hfind). simpl. now rewrite Hfind.
Qed.

Lemma get_or_create_value_new (L : Lib) (cv : CanonValue) (s : FelixSqlite)
    (h : list byte) (tag : Z) :
  value_ok (tagmap_ s) cv = true ->
  sha256_typed L (tagmap_ s) (hashfmt_ s) (logical_type cv) (canon_bytes_of cv) = Ok h ->
  type_tag_byte (tagmap_ s) (logical_type cv) = Ok tag ->
  existsb (fun x => bytes_eqb (values_hash x) h) (f_values (db_ s)) = false ->
  let is_bytes := LogicalType_eqb (logical_type cv) Bytes in
  let row := mkValuesRow (next_rowid (map values_value_id (f_values (db_ s)))) tag
               (if is_bytes then None else Some (c_str (canon_text cv)))
               (if is_bytes then Some (canon_blob cv) else None) h in
  get_or_create_value L cv s
  = (Ok (to_uint64 (values_value_id row)),
     set_db (with_values (db_ s) (f_values (db_ s) ++ [row])) s).
Proof.
  intros Hok Hh Htag Hex. apply value_ok_spec in Hok as (H1 & H2 & _).
  unfold get_or_create_value. cbv zeta. rewrite H1, H2.
  unfold bind, lift, get_db, put_db, ret, throw.
  fold (canon_bytes_of cv). rewrite Hh, Htag. simpl. rewrite Hex. simpl.
  rewrite (find_snoc_new _ _ _ Hex); [reflexivity |]. simpl. apply bytes_eqb_refl.
Qed.

Lemma get_or_create_value_ok (L : Lib) (cv : CanonValue) (s s1 : FelixSqlite) (vid : Z) :
  get_or_create_value L cv s = (Ok vid, s1) ->
  value_ok (tagmap_ s) cv = true
  /\ exists h x,
       sha256_typed L (tagmap_ s) (hashfmt_ s) (logical_type cv) (canon_bytes_of cv) = Ok h
       /\ find (fun x => bytes_eqb (values_hash x) h) (f_values (db_ s1)) = Some x
       /\ vid = to_uint64 (values_value_id x).
Proof.
  unfold get_or_create_value, value_ok. cbv zeta.
  destruct (LogicalType_eqb (logical_type cv) Text && _) eqn:E1; [discriminate |].
  destruct (LogicalType_eqb (logical_type cv) Bytes && _) eqn:E2; [discriminate |].
  unfold bind, lift, get_db, put_db, ret, throw. fold (canon_bytes_of cv).
  destruct (sha256_typed L _ _ _ _) as [h | e] eqn:Eh; [| discriminate].
  destruct (type_tag_byte _ _) as [tag | e] eqn:Etag; [| discriminate].
  simpl.
  destruct (existsb _ (f_values (db_ s))) eqn:Eex; simpl.
  - destruct (find _ (f_values (db_ s))) as [x |] eqn:Ef; intros H; inversion H; subst.
    split; [reflexivity |]. eauto.
  - rewrite (find_snoc_new _ _ _ Eex) by (simpl; apply bytes_eqb_refl).
    intros H; inversion H; subst. split; [reflexivity |].
    exists h. eexists. split; [reflexivity |]. simpl.
    rewrite (find_snoc_new _ _ _ Eex) by (simpl; apply bytes_eqb_refl). eauto.
Qed.

Lemma grows_appends (s s' : FelixSqlite) : grows s s' -> appends s s'.
Proof.
  intros (H1 & H2 & H3 & H4 & H5 & H6 & H7 & H8).
  unfold appends. repeat split; auto; exists []; rewrite app_nil_r; assumption.
Qed.

Lemma appends_refl (s : FelixSqlite) : appends s s.
Proof. apply grows_appends, grows_refl. Qed.

Lemma appends_trans (s1 s2 s3 : FelixSqlite) : appends s1 s2 -> appends s2 s3 -> appends s1 s3.
Proof.
  unfold appends.
  intros (A1 & A2 & A3 & (a4 & A4) & (a5 & A5) & (a6 & A6) & (a7 & A7))
         (B1 & B2 & B3 & (b4 & B4) & (b5 & B5) & (b6 & B6) & (b7 & B7)).
  repeat split; try congruence.
  - exists (a4 ++ b4)%list. now rewrite B4, A4, app_assoc.
  - exists (a5 ++ b5)%list. now rewrite B5, A5, app_assoc.
  - exists (a6 ++ b6)%list. now rewrite B6, A6, app_assoc.
  - exists (a7 ++ b7)%list. now rewrite B7, A7, app_assoc.
Qed.

Lemma sql_insert_fact_ok (r : SqlFact) (d d' : DB) :
  sql_insert_fact r d = Ok d' ->
  d' = with_facts d (facts d ++ [r])
  /\ existsb (same_fact_key r) (facts d) = false /\ fk_ok d r = true.
Proof.
  unfold sql_insert_fact. destruct (existsb _ _); [discriminate |].
  destruct (fk_ok d r); simpl; [| discriminate]. intros H; inversion H. auto.
Qed.

Lemma sql_upsert_current_ok (r : SqlFact) (d d' : DB) :
  sql_upsert_current r d = Ok d' -> exists rows, d' = with_current d rows.
Proof.
  unfold sql_upsert_current. destruct (find _ _) as [x |].
  - destruct (_ >=? _).
    + destruct (fk_ok d r); [| discriminate]. intros H; inversion H. eauto.
    + intros H; inversion H. exists (current_facts d'). destruct d'; reflexivity.
  - destruct (fk_ok d r); [| discriminate]. intros H; inversion H. eauto.
Qed.

Lemma ingest_item_appends (L : Lib) (r ts : Z) (mode : TemporalityMode) (it : IngestItem)
    (s s' : FelixSqlite) :
  ingest_item L r ts mode it s = (Ok tt, s') -> appends s s'.
Proof.
  intros H. unfold ingest_item in H.
  apply bind_ok in H as (fid & s1 & H1 & H).
  apply bind_ok in H as (vid & s2 & H2 & H).
  apply bind_ok in H as (u & s3 & H3 & H).
  pose proof (get_or_create_field_grows L (field_name it) s) as G1. rewrite H1 in G1.
  pose proof (get_or_create_value_grows L (value it) s1) as G2. rewrite H2 in G2.
  simpl in G1, G2.
  assert (G : appends s s2) by (apply grows_appends; eapply grows_trans; eauto).
  assert (Hs3 : s3 = s2).
  { destruct mode; unfold bind, get_current, get_db, ret in H3; simpl in H3;
      inversion H3; reflexivity. }
  subst s3. destruct u.
  - unfold ret in H. inversion H; subst. exact G.
  - apply bind_ok in H as ([] & s4 & H4 & H5).
    apply exec_ok in H4 as (d4 & E4 & ->). apply exec_ok in H5 as (d5 & E5 & ->).
    eapply appends_trans; [exact G |].
    apply sql_insert_fact_ok in E4 as (-> & _ & _).
    apply sql_upsert_current_ok in E5 as (rows & ->). simpl.
    unfold appends. simpl.
    repeat split; try (exists []; now rewrite app_nil_r). eexists; reflexivity.
Qed.


(** ** Items of one call *)

Lemma get_or_create_value_total (L : Lib) (cv : CanonValue) (s : FelixSqlite) :
  value_ok (tagmap_ s) cv = true ->
  exists vid s1, get_or_create_value L cv s = (Ok vid, s1).
Proof.
  intros Hok. pose proof (value_ok_spec _ _ Hok) as (_ & _ & tag & Htag).
  pose proof (sha256_typed_ok L (tagmap_ s) (hashfmt_ s) cv tag Htag) as Hh.
  set (h := sha256_bytes L _) in Hh.
  destruct (existsb (fun x => bytes_eqb (values_hash x) h) (f_values (db_ s))) eqn:E.
  - apply existsb_find in E as (x & Hx).
    rewrite (get_or_create_value_found L cv s h x Hok Hh Hx). eauto.
  - rewrite (get_or_create_value_new L cv s h tag Hok Hh Htag E). eauto.
Qed.

Lemma get_or_create_field_total (L : Lib) (name : string) (s : FelixSqlite) :
  name_ok L name = true ->
  exists fid s1, get_or_create_field L name s = (Ok fid, s1).
Proof.
  intros Hok.
  destruct (existsb (fun x => bytes_eqb (fields_hash x) (field_hash L name))
              (fields (db_ s))) eqn:E.
  - apply existsb_find in E as (x & Hx).
    rewrite (get_or_create_field_found L name s x Hok Hx). eauto.
  - rewrite (get_or_create_field_new L name s Hok E). eauto.
Qed.

(** In EventDriven mode an item whose value is the current one is skipped. *)
Lemma event_item_skip (L : Lib) (r ts : Z) (it : IngestItem)
    (s s1 s2 : FelixSqlite) (fid vid t0 : Z) :
  get_or_create_field L (field_name it) s = (Ok fid, s1) ->
  get_or_create_value L (value it) s1 = (Ok vid, s2) ->
  fst (get_current r fid s2) = Ok (Some (vid, t0)) ->
  ingest_item L r ts EventDriven it s = (Ok tt, s2)
  /\ facts (db_ s2) = facts (db_ s)
  /\ current_facts (db_ s2) = current_facts (db_ s).
Proof.
  intros H1 H2 H3. split.
  - unfold ingest_item. rewrite (bind_run _ _ _ _ _ H1), (bind_run _ _ _ _ _ H2).
    unfold bind at 1. unfold bind at 1.
    destruct (get_current r fid s2) as [res s3] eqn:E.
    assert (s3 = s2) by (pose proof (get_current_state r fid s2) as G; now rewrite E in G).
    subst s3. simpl in H3. subst res. unfold ret. now rewrite Z.eqb_refl.
  - pose proof (get_or_create_field_grows L (field_name it) s) as G1. rewrite H1 in G1.
    pose proof (get_or_create_value_grows L (value it) s1) as G2. rewrite H2 in G2.
    destruct (grows_trans _ _ _ G1 G2) as (_ & _ & _ & _ & Hf & Hc & _). auto.
Qed.

(** In ObservationDriven mode an item of a field that already has a fact at
    this record and instant cannot be ingested. *)
Lemma obs_item_conflict (L : Lib) (r ts : Z) (it : IngestItem) (s : FelixSqlite)
    (x : FieldsRow) (row : SqlFact) :
  name_ok L (field_name it) = true ->
  find (fun x => bytes_eqb (fields_hash x) (field_hash L (field_name it)))
       (fields (db_ s)) = Some x ->
  In row (facts (db_ s)) ->
  fact_key row = (to_int64 r, to_int32 (to_uint32 (fields_field_id x)), ts) ->
  exists e s',
    ingest_item L r ts ObservationDriven it s = (Err e, s')
    /\ (value_ok (tagmap_ s) (value it) = true -> e = Duplicate).
Proof.
  intros Hok Hfind Hin Hkey. unfold ingest_item.
  rewrite (bind_run _ _ _ _ _ (get_or_create_field_found L _ s x Hok Hfind)).
  destruct (get_or_create_value L (value it) s) as [[vid | e] s2] eqn:E.
  - rewrite (bind_run _ _ _ _ _ E).
    pose proof (get_or_create_value_grows L (value it) s) as G. rewrite E in G.
    destruct G as (_ & _ & _ & _ & Hf & _).
    unfold bind at 1. unfold ret at 1.
    assert (Hdup : sql_insert_fact
              (sql_of_fact (mkFactRow r (to_uint32 (fields_field_id x)) vid ts)) (db_ s2)
              = Err Duplicate).
    { unfold sql_insert_fact.
      replace (existsb _ (facts (db_ s2))) with true; [reflexivity |].
      symmetry. apply existsb_exists. exists row. simpl in Hf. rewrite Hf.
      split; [exact Hin |]. apply same_fact_key_eq. now rewrite Hkey. }
    exists Duplicate, s2. split; [| reflexivity].
    unfold insert_fact. now rewrite (bind_err _ _ _ _ _ (exec_run_err _ _ _ Hdup)).
  - rewrite (bind_err _ _ _ _ _ E). exists e, s2. split; [reflexivity |].
    intros Hv. destruct (get_or_create_value_total L _ s Hv) as (vid & s1 & E').
    congruence.
Qed.

Lemma obs_item_ok (L : Lib) (r ts : Z) (it : IngestItem) (s s1 : FelixSqlite) :
  ingest_item L r ts ObservationDriven it s = (Ok tt, s1) ->
  name_ok L (field_name it) = true
  /\ exists x row,
       find (fun x => bytes_eqb (fields_hash x) (field_hash L (field_name it)))
            (fields (db_ s1)) = Some x
       /\ In row (facts (db_ s1))
       /\ fact_key row = (to_int64 r, to_int32 (to_uint32 (fields_field_id x)), ts).
Proof.
  intros H. unfold ingest_item in H.
  apply bind_ok in H as (fid & sa & H1 & H).
  apply bind_ok in H as (vid & sb & H2 & H).
  apply bind_ok in H as (u & sc & H3 & H).
  unfold ret in H3. inversion H3; subst u sc. clear H3.
  apply bind_ok in H as ([] & s4 & H4 & H5).
  apply exec_ok in H4 as (d4 & E4 & ->). apply exec_ok in H5 as (d5 & E5 & ->).
  apply sql_insert_fact_ok in E4 as (-> & _ & _).
  apply sql_upsert_current_ok in E5 as (rows & ->).
  apply get_or_create_field_ok in H1 as (Hok & x & Hfind & ->).
  pose proof (get_or_create_value_grows L (value it) sa) as G. rewrite H2 in G.
  destruct G as (_ & _ & _ & _ & _ & _ & (fl & Hfl) & _). simpl in Hfl.
  split; [exact Hok |].
  exists x, (sql_of_fact (mkFactRow r (to_uint32 (fields_field_id x)) vid ts)).
  simpl. repeat split.
  - rewrite Hfl. now apply find_app_some.
  - apply in_or_app. right. now left.
Qed.

Lemma obs_loop_conflict (L : Lib) (r ts : Z) (name : string) (items : list IngestItem) :
  forall (s : FelixSqlite) (x : FieldsRow) (row : SqlFact),
  name_ok L name = true ->
  find (fun x => bytes_eqb (fields_hash x) (field_hash L name)) (fields (db_ s)) = Some x ->
  In row (facts (db_ s)) ->
  fact_key row = (to_int64 r, to_int32 (to_uint32 (fields_field_id x)), ts) ->
  In name (map field_name items) ->
  exists e s', ingest_loop L r ts ObservationDriven items s = (Err e, s').
Proof.
  induction items as [| it rest IH]; intros s x row Hok Hfind Hin Hkey Hname; simpl in *.
  - contradiction.
  - destruct (ingest_item L r ts ObservationDriven it s) as [[[] | e] s1] eqn:E.
    + rewrite (bind_run _ _ _ _ _ E).
      destruct (string_dec (field_name it) name) as [Heq | Hne].
      * exfalso. subst name.
        destruct (obs_item_conflict L r ts it s x row Hok Hfind Hin Hkey) as (e & s' & E' & _).
        congruence.
      * destruct Hname as [Hname | Hname]; [contradiction |].
        destruct (ingest_item_appends _ _ _ _ _ _ _ E)
          as (_ & _ & _ & _ & (fl & Hfl) & _ & (al & Hal)).
        apply (IH s1 x row); auto.
        -- rewrite Hfl. now apply find_app_some.
        -- rewrite Hal. apply in_or_app. now left.
    + rewrite (bind_err _ _ _ _ _ E). eauto.
Qed.

Lemma obs_dup_fails (L : Lib) (r ts : Z) (pre mid post : list IngestItem)
    (it1 it2 : IngestItem) :
  field_name it1 = field_name it2 ->
  forall s, exists e s',
    ingest_loop L r ts ObservationDriven (pre ++ it1 :: mid ++ it2 :: post) s = (Err e, s').
Proof.
  intros Hname. induction pre as [| p pre IH]; intros s; simpl.
  - destruct (ingest_item L r ts ObservationDriven it1 s) as [[[] | e] s1] eqn:E.
    + rewrite (bind_run _ _ _ _ _ E).
      apply obs_item_ok in E as (Hok & x & row & Hfind & Hin & Hkey).
      apply (obs_loop_conflict L r ts (field_name it1) _ s1 x row); auto.
      rewrite map_app. apply in_or_app. right. left. now symmetry.
    + rewrite (bind_err _ _ _ _ _ E). eauto.
  - destruct (ingest_item L r ts ObservationDriven p s) as [[[] | e] s1] eqn:E.
    + rewrite (bind_run _ _ _ _ _ E). apply IH.
    + rewrite (bind_err _ _ _ _ _ E). eauto.
Qed.

Lemma obs_dup_rolls_back (L : Lib) (r ts : Z) (pre mid post : list IngestItem)
    (it1 it2 : IngestItem) (s : FelixSqlite) :
  field_name it1 = field_name it2 ->
  exists e s',
    ingest_items L r ts ObservationDriven (pre ++ it1 :: mid ++ it2 :: post) s = (Err e, s')
    /\ db_ s' = db_ s.
Proof.
  intros Hname.
  destruct (ingest_items L r ts ObservationDriven (pre ++ it1 :: mid ++ it2 :: post) s)
    as [[[] | e] s'] eqn:E.
  - exfalso. unfold ingest_items, with_tx in E.
    match type of E with
    | context [match ?m s with _ => _ end] => destruct (m s) as [[[] | e] s1] eqn:E1
    end; [| discriminate E].
    apply bind_ok in E1 as ([] & s0 & E0 & E2).
    destruct (256 <? _); [discriminate E2 |].
    destruct (obs_dup_fails L r ts pre mid post it1 it2 Hname s0) as (e & s2 & E3).
    congruence.
  - exists e, s'. split; [reflexivity |]. eapply with_tx_err; eauto.
Qed.

Lemma ensure_record_appends (r ts : Z) (s : FelixSqlite) :
  appends s (snd (ensure_record r ts s)).
Proof.
  unfold ensure_record, bind, get_db, put_db, ret. simpl.
  destruct (existsb _ _); simpl; [apply appends_refl |].
  unfold appends. simpl. repeat split; try (exists []; now rewrite app_nil_r).
  eexists; reflexivity.
Qed.

(** With two items of one field, it is the second insert that conflicts. *)
Lemma obs_pair_duplicate (L : Lib) (r ts : Z) (it1 it2 : IngestItem) (s s1 : FelixSqlite) :
  field_name it2 = field_name it1 ->
  value_ok (tagmap_ s) (value it2) = true ->
  ingest_items L r ts ObservationDriven [it1] s = (Ok tt, s1) ->
  exists s',
    ingest_items L r ts ObservationDriven [it1; it2] s = (Err Duplicate, s')
    /\ db_ s' = db_ s.
Proof.
  intros Hname Hv H. unfold ingest_items, with_tx in H.
  match type of H with
  | context [match ?m s with _ => _ end] => destruct (m s) as [[[] | e] sx] eqn:E1
  end; [| discriminate H].
  inversion H; subst sx. clear H.
  apply bind_ok in E1 as ([] & s0 & E0 & E2). simpl in E2.
  apply bind_ok in E2 as ([] & s2 & E3 & E4).
  unfold ret in E4. inversion E4; subst s2. clear E4.
  pose proof (ensure_record_appends r ts s) as A0. rewrite E0 in A0. simpl in A0.
  pose proof (ingest_item_appends _ _ _ _ _ _ _ E3) as A1.
  pose proof (obs_item_ok _ _ _ _ _ _ E3) as (Hok & x & row & Hfind & Hin & Hkey).
  rewrite <- Hname in Hok, Hfind.
  destruct (obs_item_conflict L r ts it2 s1 x row Hok Hfind Hin Hkey) as (e & s' & E5 & He).
  assert (Htm : tagmap_ s1 = tagmap_ s).
  { destruct A0 as (T0 & _). destruct A1 as (T1 & _). congruence. }
  rewrite Htm in He. specialize (He Hv). subst e.
  exists (set_db (db_ s) s'). split; [| reflexivity].
  unfold ingest_items, with_tx.
  rewrite (bind_run _ _ _ _ _ E0). simpl.
  rewrite (bind_run _ _ _ _ _ E3), (bind_err _ _ _ _ _ E5). reflexivity.
Qed.


(** ** Runs on a new database *)

Lemma fresh_store_eq (L : Lib) :
  fresh_store L
  = mkStore
      (mkDB [("felix_spec", "0.3"); ("tag_map", "felix_v03"); ("hash_format", "felix_v03_sep")]
            []
            [mkValuesRow 1 0 (Some "null") None
               (value_hash L FelixV03 FelixV03Sep (with_text (cv_init Null) "null"))]
            [] [] [])
      FelixV03 FelixV03Sep 1.
Proof.
  unfold fresh_store, init_schema.
  set (s3 := mkStore
      (mkDB [("felix_spec", "0.3"); ("tag_map", "felix_v03"); ("hash_format", "felix_v03_sep")]
            [] [] [] [] []) FelixV03 FelixV03Sep 0).
  assert (E : forall k : M unit,
            (meta_set "felix_spec" "0.3" ;;; meta_set "tag_map" "felix_v03" ;;;
             meta_set "hash_format" "felix_v03_sep" ;;; load_format_defaults ;;; k)
              (open_store empty_db) = k s3) by reflexivity.
  rewrite E. unfold ensure_null_value.
  erewrite bind_run.
  2: { apply (get_or_create_value_new L _ s3
                (value_hash L FelixV03 FelixV03Sep (with_text (cv_init Null) "null")) 0);
       reflexivity. }
  reflexivity.
Qed.

Lemma value_hash_ok (L : Lib) (tm : TagMapVersion) (hf : HashFormatVersion) (cv : CanonValue) :
  value_ok tm cv = true ->
  sha256_typed L tm hf (logical_type cv) (canon_bytes_of cv) = Ok (value_hash L tm hf cv).
Proof.
  intros H. apply value_ok_spec in H as (_ & _ & tag & Htag).
  unfold value_hash. now rewrite (sha256_typed_ok L tm hf cv tag Htag).
Qed.

Lemma ingest_items_single (L : Lib) (r t : Z) (mode : TemporalityMode) (it : IngestItem)
    (s s0 s1 : FelixSqlite) :
  ensure_record r t s = (Ok tt, s0) ->
  ingest_item L r t mode it s0 = (Ok tt, s1) ->
  ingest_items L r t mode [it] s = (Ok tt, s1).
Proof.
  intros E0 E1. unfold ingest_items, with_tx.
  rewrite (bind_run _ _ _ _ _ E0). simpl.
  now rewrite (bind_run _ _ _ _ _ E1).
Qed.

Lemma ingest_item_run (L : Lib) (r t : Z) (mode : TemporalityMode) (it : IngestItem)
    (s s1 s2 : FelixSqlite) (fid vid : Z) (d3 d4 : DB) :
  get_or_create_field L (field_name it) s = (Ok fid, s1) ->
  get_or_create_value L (value it) s1 = (Ok vid, s2) ->
  (mode = EventDriven ->
   forall t0, fst (get_current r fid s2) <> Ok (Some (vid, t0))) ->
  sql_insert_fact (sql_of_fact (mkFactRow r fid vid t)) (db_ s2) = Ok d3 ->
  sql_upsert_current (sql_of_fact (mkFactRow r fid vid t)) d3 = Ok d4 ->
  ingest_item L r t mode it s = (Ok tt, set_db d4 s2).
Proof.
  intros H1 H2 Hcur H3 H4. unfold ingest_item.
  rewrite (bind_run _ _ _ _ _ H1), (bind_run _ _ _ _ _ H2).
  assert (Hu : (match mode with
                | EventDriven =>
                    cur <- get_current r fid ;;
                    ret (match cur with Some (v, _) => v =? vid | None => false end)
                | ObservationDriven => ret false
                end) s2 = (Ok false, s2)).
  { destruct mode; [| reflexivity].
    specialize (Hcur eq_refl). unfold bind, get_current, get_db, ret in *. simpl in *.
    destruct (find _ _) as [x |]; [| reflexivity].
    destruct (to_uint64 (col_value_id x) =? vid) eqn:E; [| reflexivity].
    apply Z.eqb_eq in E. exfalso. apply (Hcur (col_ts x)). now rewrite E. }
  rewrite (bind_run _ _ _ _ _ Hu). unfold insert_fact, upsert_current_if_newer.
  rewrite (bind_run _ _ _ _ _ (exec_run_ok _ _ _ H3)).
  rewrite (exec_run_ok _ _ d4); [reflexivity | exact H4].
Qed.

Lemma id_casts (id : Z) :
  id = 1 \/ id = 2 -> to_uint64 id = id /\ to_int64 id = id.
Proof. intros [-> | ->]; split; reflexivity. Qed.

Lemma first_item (L : Lib) (r t : Z) (mode : TemporalityMode) (name : string)
    (v : CanonValue) :
  name_ok L name = true -> value_ok FelixV03 v = true ->
  exists s0 s1,
    ensure_record r t (fresh_store L) = (Ok tt, s0)
    /\ ingest_item L r t mode (mkItem name v) s0 = (Ok tt, s1)
    /\ after_first L r t name v s1.
Proof.
  intros Hn Hv. rewrite fresh_store_eq.
  set (hnull := value_hash L FelixV03 FelixV03Sep (with_text (cv_init Null) "null")).
  set (hv := value_hash L FelixV03 FelixV03Sep v).
  set (s := mkStore _ _ _ _).
  set (s0 := set_db (with_records (db_ s) [mkRecordsRow (to_int64 r) t]) s).
  assert (E0 : ensure_record r t s = (Ok tt, s0)) by reflexivity.
  set (frow := mkFieldsRow 1 (c_str (nfc_normalize_utf8 L (trim_copy name))) (field_hash L name)).
  set (sa := set_db (with_fields (db_ s0) [frow]) s0).
  assert (E1 : get_or_create_field L name s0 = (Ok 1, sa)).
  { rewrite (get_or_create_field_new L name s0 Hn); reflexivity. }
  pose proof (value_hash_ok L FelixV03 FelixV03Sep v Hv) as Hh. fold hv in Hh.
  pose proof (value_ok_spec _ _ Hv) as (_ & _ & tag & Htag).
  assert (E2 : exists xv sb,
            get_or_create_value L v sa = (Ok (values_value_id xv), sb)
            /\ (values_value_id xv = 1 \/ values_value_id xv = 2)
            /\ find (fun x => bytes_eqb (values_hash x) hv) (f_values (db_ sb)) = Some xv
            /\ sb = set_db (with_values (db_ sa) (f_values (db_ sb))) sa).
  { destruct (bytes_eqb hnull hv) eqn:Eh.
    - exists (mkValuesRow 1 0 (Some "null") None hnull), sa.
      assert (Hf : find (fun x => bytes_eqb (values_hash x) hv) (f_values (db_ sa))
                   = Some (mkValuesRow 1 0 (Some "null") None hnull))
        by (simpl; now rewrite Eh).
      rewrite (get_or_create_value_found L v sa hv _ Hv Hh Hf). simpl.
      repeat split; auto.
    - set (is_bytes := LogicalType_eqb (logical_type v) Bytes).
      set (vrow := mkValuesRow 2 tag
                     (if is_bytes then None else Some (c_str (canon_text v)))
                     (if is_bytes then Some (canon_blob v) else None) hv).
      exists vrow, (set_db (with_values (db_ sa) (f_values (db_ sa) ++ [vrow])) sa).
      rewrite (get_or_create_value_new L v sa hv tag Hv Hh Htag)
        by (simpl; now rewrite Eh).
      split; [reflexivity |]. simpl. rewrite Eh, bytes_eqb_refl.
      repeat split; auto. }
  destruct E2 as (xv & sb & E2 & Hid & Hfind & Hsb).
  destruct (id_casts _ Hid) as [Hu Hi].
  set (row := mkSqlFact (to_int64 r) 1 (values_value_id xv) t).
  assert (Hrow : sql_of_fact (mkFactRow r 1 (values_value_id xv) t) = row).
  { unfold sql_of_fact, row. simpl. now rewrite Hi. }
  assert (Hfk : fk_ok (db_ sb) row = true).
  { rewrite Hsb. unfold fk_ok. simpl. rewrite Z.eqb_refl. simpl.
    apply find_some in Hfind as [Hin _].
    apply existsb_exists. exists xv. split; [exact Hin | apply Z.eqb_refl]. }
  exists s0, (set_db (with_current (with_facts (db_ sb) [row]) [row]) sb).
  split; [exact E0 |]. split.
  - apply (ingest_item_run L r t mode _ s0 sa sb 1 (values_value_id xv)
             (with_facts (db_ sb) [row])); auto.
    + intros _ t0. rewrite Hsb. simpl. discriminate.
    + rewrite Hrow. unfold sql_insert_fact. rewrite Hfk. rewrite Hsb. reflexivity.
    + rewrite Hrow. unfold sql_upsert_current.
      replace (fk_ok (with_facts (db_ sb) [row]) row) with true by (symmetry; exact Hfk).
      rewrite Hsb. reflexivity.
  - exists xv. rewrite Hsb. simpl. repeat split; auto.
Qed.



(** Once [(name, v)] is current for the record, EventDriven skips it. *)
Lemma item_skip_after_first (L : Lib) (r t t' : Z) (name : string) (v : CanonValue)
    (s1 : FelixSqlite) :
  name_ok L name = true -> value_ok FelixV03 v = true ->
  after_first L r t name v s1 ->
  ingest_item L r t' EventDriven (mkItem name v) s1 = (Ok tt, s1).
Proof.
  intros Hn Hv (xv & Htm & Hhf & Hrec & Hfl & Hfind & Hid & Hfacts & Hcur).
  destruct (id_casts _ Hid) as [Hu Hi].
  assert (E1 : get_or_create_field L name s1 = (Ok 1, s1)).
  { rewrite (get_or_create_field_found L name s1
               (mkFieldsRow 1 (c_str (nfc_normalize_utf8 L (trim_copy name)))
                  (field_hash L name)) Hn); [reflexivity |].
    rewrite Hfl. simpl. now rewrite bytes_eqb_refl. }
  assert (E2 : get_or_create_value L v s1 = (Ok (values_value_id xv), s1)).
  { rewrite (get_or_create_value_found L v s1 (value_hash L FelixV03 FelixV03Sep v) xv);
      rewrite ?Htm, ?Hhf; auto.
    - now rewrite Hu.
    - now apply value_hash_ok. }
  apply (event_item_skip L r t' (mkItem name v) s1 s1 s1 1 (values_value_id xv) t E1 E2).
  unfold get_current, bind, get_db, ret. simpl. rewrite Hcur. simpl.
  rewrite Z.eqb_refl. simpl. now rewrite Hu.
Qed.



(** One EventDriven call naming the field twice with one value. *)
Lemma event_pair_fresh (L : Lib) (r t : Z) (name : string) (v : CanonValue) :
  name_ok L name = true -> value_ok FelixV03 v = true ->
  exists s1,
    ingest_items L r t EventDriven [mkItem name v; mkItem name v] (fresh_store L) = (Ok tt, s1)
    /\ after_first L r t name v s1.
Proof.
  intros Hn Hv.
  destruct (first_item L r t EventDriven name v Hn Hv) as (s0 & s1 & E0 & E1 & Ha).
  exists s1. split; [| exact Ha].
  unfold ingest_items, with_tx. rewrite (bind_run _ _ _ _ _ E0). simpl.
  rewrite (bind_run _ _ _ _ _ E1).
  now rewrite (bind_run _ _ _ _ _ (item_skip_after_first L r t t name v s1 Hn Hv Ha)).
Qed.


(** ** EventDriven calls on any store *)

Lemma ingest_items_single_inv (L : Lib) (r t : Z) (mode : TemporalityMode) (it : IngestItem)
    (s s1 : FelixSqlite) :
  ingest_items L r t mode [it] s = (Ok tt, s1) ->
  exists sa, ensure_record r t s = (Ok tt, sa) /\ ingest_item L r t mode it sa = (Ok tt, s1).
Proof.
  intros H. unfold ingest_items, with_tx in H.
  match type of H with
  | context [match ?m s with _ => _ end] => destruct (m s) as [[[] | e] sx] eqn:E1
  end; [| discriminate H].
  inversion H; subst sx. clear H.
  apply bind_ok in E1 as ([] & sa & E0 & E2). simpl in E2.
  apply bind_ok in E2 as ([] & s2 & E3 & E4).
  unfold ret in E4. inversion E4; subst s2. eauto.
Qed.


Lemma ensure_record_ensures (r t : Z) (s sa : FelixSqlite) :
  ensure_record r t s = (Ok tt, sa) ->
  existsb (fun x => records_record_id x =? to_int64 r) (records (db_ sa)) = true.
Proof.
  unfold ensure_record, bind, get_db, put_db, ret. simpl.
  destruct (existsb _ (records (db_ s))) eqn:E; intros H; inversion H; subst; simpl.
  - exact E.
  - rewrite existsb_app. simpl. now rewrite Z.eqb_refl, orb_true_r.
Qed.

Lemma record_stays (r : Z) (s s' : FelixSqlite) :
  appends s s' ->
  existsb (fun x => records_record_id x =? to_int64 r) (records (db_ s)) = true ->
  existsb (fun x => records_record_id x =? to_int64 r) (records (db_ s')) = true.
Proof.
  intros (_ & _ & _ & (l & Hl) & _) H. rewrite Hl, existsb_app, H. reflexivity.
Qed.


Lemma event_pair (L : Lib) (r ts : Z) (it : IngestItem) (s s1 : FelixSqlite)
    (fid vid t0 : Z) :
  ingest_items L r ts EventDriven [it] s = (Ok tt, s1) ->
  get_or_create_field L (field_name it) s1 = (Ok fid, s1) ->
  get_or_create_value L (value it) s1 = (Ok vid, s1) ->
  fst (get_current r fid s1) = Ok (Some (vid, t0)) ->
  ingest_items L r ts EventDriven [it; it] s = (Ok tt, s1).
Proof.
  intros H H1 H2 H3.
  apply ingest_items_single_inv in H as (sa & E0 & E1).
  unfold ingest_items, with_tx. rewrite (bind_run _ _ _ _ _ E0). simpl.
  rewrite (bind_run _ _ _ _ _ E1).
  destruct (event_item_skip L r ts it s1 s1 s1 fid vid t0 H1 H2 H3) as (E2 & _).
  now rewrite (bind_run _ _ _ _ _ E2).
Qed.


(** ** Field names *)

Lemma get_or_create_field_too_long (L : Lib) (name : string) (s : FelixSqlite) :
  fst (get_or_create_field L name s) = Err FieldTooLong
  <-> 256 < Z.of_nat (String.length name).
Proof.
  unfold get_or_create_field, size.
  destruct (256 <? Z.of_nat (String.length name)) eqn:E.
  - apply Z.ltb_lt in E. simpl. tauto.
  - apply Z.ltb_ge in E. split; [| lia]. intros H. exfalso.
    unfold bind, lift, get_db, put_db, ret, throw, require_utf8 in H.
    destruct (negb _ || negb _); simpl in H; [discriminate H |].
    destruct (existsb _ _); simpl in H; destruct (find _ _); simpl in H; discriminate H.
Qed.

(** ** Queries *)

Lemma interns_same_db (s s' : FelixSqlite) : db_ s' = db_ s -> interns s s'.
Proof.
  intros H. unfold interns, interns_only. rewrite H.
  repeat split; exists []; now rewrite app_nil_r.
Qed.

Lemma interns_refl (s : FelixSqlite) : interns s s.
Proof. now apply interns_same_db. Qed.

Lemma interns_trans (s1 s2 s3 : FelixSqlite) : interns s1 s2 -> interns s2 s3 -> interns s1 s3.
Proof.
  unfold interns, interns_only.
  intros (A1 & A2 & A3 & (fl1 & A4) & (vl1 & A5)) (B1 & B2 & B3 & (fl2 & B4) & (vl2 & B5)).
  repeat split; try congruence.
  - exists (fl1 ++ fl2)%list. now rewrite B4, A4, app_assoc.
  - exists (vl1 ++ vl2)%list. now rewrite B5, A5, app_assoc.
Qed.

Lemma grows_interns (s s' : FelixSqlite) : grows s s' -> interns s s'.
Proof.
  intros (_ & _ & _ & H4 & H5 & H6 & H7 & H8). unfold interns, interns_only. auto.
Qed.

Lemma meta_set_interns (k v : string) : always interns (meta_set k v).
Proof.
  intros s. unfold interns, interns_only. simpl.
  repeat split; exists []; now rewrite app_nil_r.
Qed.

Lemma load_format_defaults_interns : always interns load_format_defaults.
Proof.
  intros s. unfold load_format_defaults, bind, meta_get, get_db, ret. simpl.
  destruct (find _ _); [destruct (find _ _) |]; simpl; now apply interns_same_db.
Qed.

Lemma ensure_null_value_interns (L : Lib) : always interns (ensure_null_value L).
Proof.
  intros s. unfold ensure_null_value, bind.
  pose proof (get_or_create_value_grows L (with_text (cv_init Null) "null") s) as G.
  destruct (get_or_create_value L _ s) as [[id | e] s1]; simpl in *;
    [| now apply grows_interns].
  eapply interns_trans; [apply grows_interns; exact G | now apply interns_same_db].
Qed.

Lemma init_schema_interns (L : Lib) : always interns (init_schema L).
Proof.
  unfold init_schema.
  repeat (apply always_bind; [exact interns_trans | | intros _]);
    auto using meta_set_interns, load_format_defaults_interns, ensure_null_value_interns.
Qed.

Lemma query_command_interns (L : Lib) (read_lines : string -> option (list string))
    (argv : list string) :
  arg argv 2 = "current_eq" \/ arg argv 2 = "ever_eq" ->
  always interns (run_command L read_lines argv).
Proof.
  intros Hcmd. unfold run_command.
  assert (E : String.eqb (arg argv 2) "init" = false
              /\ String.eqb (arg argv 2) "ingest" = false
              /\ String.eqb (arg argv 2) "ingest_ndjson" = false
              /\ (String.eqb (arg argv 2) "current_eq" || String.eqb (arg argv 2) "ever_eq")
                 = true).
  { destruct Hcmd as [-> | ->]; repeat split; reflexivity. }
  destruct E as (E1 & E2 & E3 & E4). rewrite E1, E2, E3, E4.
  apply always_bind; [exact interns_trans | apply init_schema_interns | intros _].
  destruct (Nat.ltb _ 5); [apply always_ret, interns_refl |].
  apply always_bind; [exact interns_trans | | intros fid].
  { intros s. apply grows_interns, get_or_create_field_grows. }
  apply always_bind; [exact interns_trans | apply always_lift, interns_refl | intros cv].
  apply always_bind; [exact interns_trans | | intros vid].
  { intros s. apply grows_interns, get_or_create_value_grows. }
  apply always_bind; [exact interns_trans | | intros rows; apply always_ret, interns_refl].
  destruct (String.eqb (arg argv 2) "current_eq"); intros s; apply interns_refl.
Qed.

Lemma run_felix_db (L : Lib) (read_lines : string -> option (list string))
    (argv : list string) (d : DB) :
  snd (run_felix L read_lines argv d) = d
  \/ snd (run_felix L read_lines argv d)
     = db_ (snd (run_command L read_lines argv (open_store d))).
Proof.
  unfold run_felix. destruct (Nat.ltb _ 3); [now left |]. right.
  destruct (run_command L read_lines argv (open_store d)) as [[[out |] | e] s]; reflexivity.
Qed.

Lemma open_store_db (d : DB) : db_ (open_store d) = d.
Proof.
  unfold open_store, load_format_defaults, bind, meta_get, get_db, ret. simpl.
  destruct (find _ _); [destruct (find _ _) |]; reflexivity.
Qed.

Lemma query_interns_only (L : Lib) (read_lines : string -> option (list string))
    (argv : list string) (d : DB) :
  arg argv 2 = "current_eq" \/ arg argv 2 = "ever_eq" ->
  interns_only d (snd (run_felix L read_lines argv d)).
Proof.
  intros Hcmd. destruct (run_felix_db L read_lines argv d) as [-> | ->].
  - pose proof (interns_refl (open_store d)) as H. unfold interns in H.
    now rewrite open_store_db in H.
  - pose proof (query_command_interns L read_lines argv Hcmd (open_store d)) as H.
    unfold interns in H. now rewrite open_store_db in H.
Qed.

(** ** The legacy format *)

Lemma legacy_rejects_bytes (L : Lib) (cv : CanonValue) (s : FelixSqlite) :
  tagmap_ s = LegacyV02 -> logical_type cv = Bytes ->
  Z.of_nat (List.length (canon_blob cv)) <= 4 * 1024 * 1024 ->
  get_or_create_value L cv s = (Err UnsupportedInLegacy, s).
Proof.
  intros Htm Hty Hsz. unfold get_or_create_value. cbv zeta. rewrite Hty. simpl.
  replace (4194304 <? _) with false by (symmetry; apply Z.ltb_ge; exact Hsz).
  unfold bind, lift, sha256_typed. rewrite Htm. reflexivity.
Qed.

Lemma legacy_text_hash (L : Lib) (cv : CanonValue) (s : FelixSqlite) :
  tagmap_ s = LegacyV02 -> hashfmt_ s = LegacyNoSep -> logical_type cv = Text ->
  sha256_typed L (tagmap_ s) (hashfmt_ s) (logical_type cv) (canon_bytes_of cv)
  = Ok (sha256_bytes L (x01 :: bytes_of (canon_text cv))).
Proof.
  intros -> -> Hty. unfold canon_bytes_of. rewrite Hty. reflexivity.
Qed.


(** ** Every operation keeps the invariant *)

Lemma keeps_Inv_refl (s : FelixSqlite) : keeps_Inv s s.
Proof. unfold keeps_Inv. auto. Qed.

Lemma keeps_Inv_trans (s1 s2 s3 : FelixSqlite) :
  keeps_Inv s1 s2 -> keeps_Inv s2 s3 -> keeps_Inv s1 s3.
Proof. unfold keeps_Inv. auto. Qed.

Lemma keeps_Inv_same_db (s s' : FelixSqlite) : db_ s' = db_ s -> keeps_Inv s s'.
Proof. unfold keeps_Inv. now intros ->. Qed.

Lemma interns_keeps_Inv (s s' : FelixSqlite) : interns s s' -> keeps_Inv s s'.
Proof.
  intros (Hr & Hf & Hc & Hfl & Hvl) [Hfp Hcp Hcf Hcov Hfk].
  constructor; rewrite ?Hf, ?Hc; auto.
  intros f Hin. apply (fk_ok_mono (db_ s)); auto. exists []. now rewrite Hr, app_nil_r.
Qed.

Lemma always_unchanged {A : Type} (m : M A) :
  (forall s, snd (m s) = s) -> always keeps_Inv m.
Proof. intros H s. rewrite H. apply keeps_Inv_refl. Qed.

Lemma Inv_rebuild (d : DB) : Inv d -> Inv (with_current d (spec_rebuild (facts d))).
Proof.
  intros HI.
  destruct (rebuild_under_Inv (mkStore d LegacyV02 LegacyNoSep 0) HI) as [_ Hperm].
  destruct HI as [Hfp Hcp Hcf Hcov Hfk]. simpl in Hperm.
  constructor; simpl; auto.
  - now apply spec_rebuild_keys.
  - intros c Hc. unfold spec_rebuild in Hc. now apply filter_In in Hc as [Hc _].
  - intros f Hf. destruct (Hcov f Hf) as (c & Hc & Hk & Hle).
    exists c. repeat split; auto.
    apply (Permutation_in c (Permutation_sym Hperm) Hc).
Qed.

Lemma rebuild_keeps_Inv : always keeps_Inv rebuild_current_facts.
Proof.
  intros s HI. destruct (rebuild_under_Inv s HI) as [Hrun _]. rewrite Hrun. simpl.
  now apply Inv_rebuild.
Qed.

Lemma ingest_items_keeps_Inv (L : Lib) (r ts : Z) (mode : TemporalityMode)
    (items : list IngestItem) :
  always keeps_Inv (ingest_items L r ts mode items).
Proof. intros s HI. now apply ingest_items_Inv. Qed.

Lemma init_schema_keeps_Inv (L : Lib) : always keeps_Inv (init_schema L).
Proof. intros s. apply interns_keeps_Inv, init_schema_interns. Qed.

Lemma ingest_ndjson_lines_keeps_Inv (L : Lib) (lines : list string)
    (mode : TemporalityMode) :
  always keeps_Inv (ingest_ndjson_lines L lines mode).
Proof.
  induction lines as [| line rest IH]; simpl.
  - apply always_ret, keeps_Inv_refl.
  - destruct (_ <? _); [apply always_throw, keeps_Inv_refl |].
    destruct (Nat.eqb _ 0); [exact IH |].
    destruct (json_parse L _) as [j |]; [| apply always_throw, keeps_Inv_refl].
    destruct (negb _); [apply always_throw, keeps_Inv_refl |].
    apply always_bind; [exact keeps_Inv_trans | apply always_lift, keeps_Inv_refl | intros rid].
    apply always_bind; [exact keeps_Inv_trans | apply always_lift, keeps_Inv_refl | intros ts].
    apply always_bind; [exact keeps_Inv_trans | apply always_lift, keeps_Inv_refl | intros m].
    apply always_bind; [exact keeps_Inv_trans | apply always_lift, keeps_Inv_refl | intros fj].
    destruct fj; try (apply always_throw, keeps_Inv_refl).
    apply always_bind; [exact keeps_Inv_trans | apply always_lift, keeps_Inv_refl | intros items].
    apply always_bind; [exact keeps_Inv_trans | apply ingest_items_keeps_Inv | intros _].
    exact IH.
Qed.

Lemma get_field_state (fid : Z) (s : FelixSqlite) : snd (get_field fid s) = s.
Proof.
  unfold get_field, bind, get_db, ret, throw. simpl.
  destruct (find _ (fields (db_ s))); reflexivity.
Qed.

Lemma get_value_state (vid : Z) (s : FelixSqlite) : snd (get_value vid s) = s.
Proof.
  unfold get_value, bind, get_db, ret, throw, lift. simpl.
  destruct (find _ (f_values (db_ s))); [| reflexivity].
  destruct (logical_type_from_tag _ _); reflexivity.
Qed.

Lemma fact_to_json_state (f : FactRow) (s : FelixSqlite) : snd (fact_to_json f s) = s.
Proof.
  unfold fact_to_json, bind.
  pose proof (get_field_state (field_id f) s) as H1.
  destruct (get_field (field_id f) s) as [[fr | e] s1]; simpl in *; subst; [| reflexivity].
  pose proof (get_value_state (value_id f) s) as H2.
  destruct (get_value (value_id f) s) as [[vr | e] s2]; simpl in *; subst; reflexivity.
Qed.

Lemma facts_to_json_state (rows : list FactRow) (s : FelixSqlite) :
  snd (facts_to_json rows s) = s.
Proof.
  induction rows as [| f rows IH]; simpl; [reflexivity |].
  unfold bind. pose proof (fact_to_json_state f s) as H.
  destruct (fact_to_json f s) as [[j | e] s1]; simpl in *; subst; [| reflexivity].
  destruct (facts_to_json rows s) as [[js | e] s2]; simpl in *; now subst.
Qed.

Lemma snapshot_fields_state (rows : list FactRow) (acc : list (string * FactJson))
    (s : FelixSqlite) :
  snd (snapshot_fields rows acc s) = s.
Proof.
  revert acc. induction rows as [| f rows IH]; intros acc; simpl; [reflexivity |].
  unfold bind. pose proof (fact_to_json_state f s) as H.
  destruct (fact_to_json f s) as [[j | e] s1]; simpl in *; subst; [apply IH | reflexivity].
Qed.

Lemma run_command_keeps_Inv (L : Lib) (read_lines : string -> option (list string))
    (argv : list string) :
  always keeps_Inv (run_command L read_lines argv).
Proof.
  unfold run_command.
  assert (Hlift : forall (A : Type) (x : result A), always keeps_Inv (lift x))
    by (intros; apply always_lift, keeps_Inv_refl).
  assert (Hret : forall (A : Type) (x : A), always keeps_Inv (ret x))
    by (intros; apply always_ret, keeps_Inv_refl).
  destruct (String.eqb (arg argv 2) "init").
  { apply always_bind; [exact keeps_Inv_trans | apply init_schema_keeps_Inv | auto]. }
  apply always_bind; [exact keeps_Inv_trans | apply init_schema_keeps_Inv | intros _].
  destruct (String.eqb (arg argv 2) "ingest").
  { destruct (Nat.ltb _ 7); [apply Hret |].
    repeat (apply always_bind; [exact keeps_Inv_trans | apply Hlift | intros ?]).
    apply always_bind; [exact keeps_Inv_trans | apply ingest_items_keeps_Inv | auto]. }
  destruct (String.eqb (arg argv 2) "ingest_ndjson").
  { destruct (Nat.ltb _ 4); [apply Hret |].
    apply always_bind; [exact keeps_Inv_trans | apply Hlift | intros def].
    apply always_bind; [exact keeps_Inv_trans | | auto].
    unfold ingest_ndjson_file. destruct (read_lines _).
    - apply ingest_ndjson_lines_keeps_Inv.
    - apply always_throw, keeps_Inv_refl. }
  destruct (String.eqb (arg argv 2) "current_eq" || String.eqb (arg argv 2) "ever_eq").
  { destruct (Nat.ltb _ 5); [apply Hret |].
    apply always_bind; [exact keeps_Inv_trans | | intros fid].
    { intros s. apply interns_keeps_Inv, grows_interns, get_or_create_field_grows. }
    apply always_bind; [exact keeps_Inv_trans | apply Hlift | intros cv].
    apply always_bind; [exact keeps_Inv_trans | | intros vid].
    { intros s. apply interns_keeps_Inv, grows_interns, get_or_create_value_grows. }
    apply always_bind; [exact keeps_Inv_trans | | auto].
    destruct (String.eqb (arg argv 2) "current_eq"); intros s; apply keeps_Inv_refl. }
  destruct (String.eqb (arg argv 2) "facts_window").
  { destruct (Nat.ltb _ 5); [apply Hret |].
    repeat (apply always_bind; [exact keeps_Inv_trans | apply Hlift | intros ?]).
    apply always_bind; [exact keeps_Inv_trans | | intros rows].
    { intros s. apply keeps_Inv_refl. }
    apply always_bind; [exact keeps_Inv_trans | | auto].
    apply always_unchanged, facts_to_json_state. }
  destruct (String.eqb (arg argv 2) "snapshot").
  { destruct (Nat.ltb _ 5); [apply Hret |].
    repeat (apply always_bind; [exact keeps_Inv_trans | apply Hlift | intros ?]).
    apply always_bind; [exact keeps_Inv_trans | | intros rows].
    { intros s. apply keeps_Inv_refl. }
    apply always_bind; [exact keeps_Inv_trans | | auto].
    apply always_unchanged. intros s. apply snapshot_fields_state. }
  destruct (String.eqb (arg argv 2) "rebuild_current"); [| apply Hret].
  apply always_bind; [exact keeps_Inv_trans | apply rebuild_keeps_Inv | auto].
Qed.

Lemma run_op_Inv (L : Lib) (read_lines : string -> option (list string))
    (d : DB) (op : Op) :
  Inv d -> Inv (run_op L read_lines d op).
Proof.
  intros HI. destruct op as [c | argv]; simpl.
  - unfold run_ingest. apply ingest_items_Inv. now rewrite open_store_db.
  - destruct (run_felix_db L read_lines argv d) as [-> | ->]; [exact HI |].
    apply (run_command_keeps_Inv L read_lines argv (open_store d)).
    now rewrite open_store_db.
Qed.

Lemma run_ops_Inv (L : Lib) (read_lines : string -> option (list string))
    (ops : list Op) (d : DB) :
  Inv d -> Inv (run_ops L read_lines ops d).
Proof.
  revert d. induction ops as [| op ops IH]; simpl; intros d HI; [exact HI |].
  apply IH. now apply run_op_Inv.
Qed.


(** ** An item given twice to one EventDriven call *)

Lemma get_current_run (r fid vid ts : Z) (s : FelixSqlite) :
  get_current r fid s
  = (Ok (match find (same_current_key (sql_of_fact (mkFactRow r fid vid ts)))
                    (current_facts (db_ s)) with
         | Some x => Some (to_uint64 (col_value_id x), col_ts x)
         | None => None
         end), s).
Proof.
  unfold get_current, bind, get_db, ret. simpl. do 2 f_equal.
  induction (current_facts (db_ s)) as [| x l IH]; simpl; [reflexivity |].
  unfold same_current_key at 1. simpl.
  rewrite (Z.eqb_sym (to_int64 r)), (Z.eqb_sym (to_int32 fid)).
  destruct ((col_record_id x =? to_int64 r) && (col_field_id x =? to_int32 fid));
    [reflexivity | exact IH].
Qed.

Lemma find_app_none {A : Type} (p : A -> bool) (l l' : list A) :
  find p l = None -> find p (l ++ l') = find p l'.
Proof.
  induction l as [| a l IH]; simpl; [reflexivity |].
  destruct (p a); [discriminate | exact IH].
Qed.

Lemma find_update_current (row x : SqlFact) (cur : list SqlFact) :
  find (same_current_key row) cur = Some x ->
  find (same_current_key row) (update_current row cur)
  = Some (mkSqlFact (col_record_id x) (col_field_id x) (col_value_id row) (col_ts row)).
Proof.
  induction cur as [| a l IH]; simpl; [discriminate |].
  destruct (same_current_key row a) eqn:E.
  - intros H. inversion H; subst a. simpl.
    unfold same_current_key in *. simpl. now rewrite E.
  - intros H. simpl. rewrite E. now apply IH.
Qed.

Lemma uint64_round (z : Z) : to_uint64 (to_int64 (to_uint64 z)) = to_uint64 z.
Proof.
  unfold to_uint64, to_int64.
  rewrite Zminus_mod_idemp_l.
  replace (z mod 2 ^ 64 + 2 ^ 63 - 2 ^ 63) with (z mod 2 ^ 64) by lia.
  apply Z.mod_mod. lia.
Qed.

(** What a successful EventDriven item leaves behind: its field and its
    value are interned, and either the pair's current row carries the item's
    value, or the item's fact is in the log while the pair's current row
    carries another value at a later instant. *)
Lemma event_item_outcome (L : Lib) (r ts : Z) (it : IngestItem) (s s1 : FelixSqlite) :
  ingest_item L r ts EventDriven it s = (Ok tt, s1) ->
  exists fid vid,
    get_or_create_field L (field_name it) s1 = (Ok fid, s1)
    /\ get_or_create_value L (value it) s1 = (Ok vid, s1)
    /\ ((exists t0, fst (get_current r fid s1) = Ok (Some (vid, t0)))
        \/ (existsb (same_fact_key (sql_of_fact (mkFactRow r fid vid ts)))
                    (facts (db_ s1)) = true
            /\ exists v' t', fst (get_current r fid s1) = Ok (Some (v', t'))
                             /\ v' <> vid /\ ts < t')).
Proof.
  intros H.
  pose proof (ingest_item_appends L r ts EventDriven it s s1 H) as A.
  unfold ingest_item in H.
  apply bind_ok in H as (fid & sa & Ha & H).
  apply bind_ok in H as (vid & sb & Hb & H).
  apply bind_ok in H as (u & sc & Hc & H).
  pose proof (get_or_create_field_grows L (field_name it) s) as Ga. rewrite Ha in Ga.
  pose proof (get_or_create_value_grows L (value it) sa) as Gb. rewrite Hb in Gb.
  simpl in Ga, Gb.
  pose proof (get_or_create_field_ok L _ _ _ _ Ha) as (Hn & xf & Hxf & Efid).
  pose proof (get_or_create_value_ok L _ _ _ _ Hb) as (Hv & h & xv & Hh & Hxv & Evid).
  unfold bind in Hc. rewrite (get_current_run r fid vid ts sb) in Hc. unfold ret in Hc.
  inversion Hc as [[Hu Hsc]]. subst sc. clear Hc.
  set (row := sql_of_fact (mkFactRow r fid vid ts)) in *.
  assert (Hrest : appends sb s1).
  { destruct u.
    - unfold ret in H. inversion H; subst. apply appends_refl.
    - apply bind_ok in H as ([] & s4 & H4 & H5).
      apply exec_ok in H4 as (d4 & E4 & ->). apply exec_ok in H5 as (d5 & E5 & ->).
      apply sql_insert_fact_ok in E4 as (-> & _ & _).
      apply sql_upsert_current_ok in E5 as (rows & ->).
      unfold appends. simpl.
      repeat split; try (exists []; now rewrite app_nil_r). eexists; reflexivity. }
  destruct Hrest as (Rt & Rh & _ & _ & [fl Rf] & [vl Rv] & _).
  destruct Gb as (Gt & Gh & _ & _ & _ & _ & [fl' Gf] & _).
  exists fid, vid. split; [| split].
  - subst fid. apply get_or_create_field_found; [exact Hn |].
    rewrite Rf, Gf, <- app_assoc. now apply find_app_some.
  - subst vid. apply (get_or_create_value_found L (value it) s1 h xv).
    + now rewrite Rt, Gt.
    + now rewrite Rt, Rh, Gt, Gh.
    + rewrite Rv. now apply find_app_some.
  - rewrite (get_current_run r fid vid ts s1). simpl fst. fold row.
    destruct u.
    + left. unfold ret in H. inversion H; subst s1.
      remember (find (same_current_key row) (current_facts (db_ sb))) as fx eqn:Efx.
      destruct fx as [x |]; cbv beta iota in Hu; [| discriminate Hu].
      apply Z.eqb_eq in Hu. rewrite Hu. eauto.
    + apply bind_ok in H as ([] & s4 & H4 & H5).
      apply exec_ok in H4 as (d4 & E4 & ->). apply exec_ok in H5 as (d5 & E5 & ->).
      apply sql_insert_fact_ok in E4 as (-> & _ & _). cbn [db_ set_db] in E5. fold row in E5.
      assert (Hval : to_uint64 (col_value_id row) = vid).
      { subst vid. unfold row. simpl. apply uint64_round. }
      assert (Hts : col_ts row = ts) by reflexivity.
      unfold sql_upsert_current in E5. cbn [current_facts with_facts] in E5.
      destruct (find (same_current_key row) (current_facts (db_ sb))) as [x |] eqn:Ef.
      * destruct (col_ts row >=? col_ts x) eqn:Ege.
        -- destruct (fk_ok _ row); [| discriminate E5]. inversion E5; subst d5.
           cbn [db_ set_db current_facts with_current with_facts].
           rewrite (find_update_current row x _ Ef).
           cbn [col_value_id col_ts]. rewrite Hval, Hts.
           left. exists ts. reflexivity.
        -- inversion E5; subst d5.
           cbn [db_ set_db current_facts facts with_current with_facts].
           rewrite Ef. right. split.
           ++ rewrite existsb_app. cbn [existsb].
              assert (Hk : same_fact_key row row = true)
                by (apply same_fact_key_eq; reflexivity).
              rewrite Hk. now rewrite orb_true_r.
           ++ exists (to_uint64 (col_value_id x)), (col_ts x). split; [reflexivity |].
              cbv beta iota in Hu. split; [now apply Z.eqb_neq |].
              rewrite Z.geb_leb in Ege. apply Z.leb_gt in Ege. rewrite Hts in Ege. exact Ege.
      * destruct (fk_ok _ row); [| discriminate E5]. inversion E5; subst d5.
        cbn [db_ set_db current_facts with_current with_facts].
        rewrite (find_app_none _ _ _ Ef). cbn [find].
        assert (Hk : same_current_key row row = true)
          by (apply same_current_key_eq; reflexivity).
        rewrite Hk, Hval, Hts. left. exists ts. reflexivity.
Qed.

(** The item that is in the log but not current cannot be ingested again at
    the same instant. *)
Lemma event_item_conflict (L : Lib) (r ts : Z) (it : IngestItem) (s : FelixSqlite)
    (fid vid v' t' : Z) :
  get_or_create_field L (field_name it) s = (Ok fid, s) ->
  get_or_create_value L (value it) s = (Ok vid, s) ->
  fst (get_current r fid s) = Ok (Some (v', t')) -> v' <> vid ->
  existsb (same_fact_key (sql_of_fact (mkFactRow r fid vid ts))) (facts (db_ s)) = true ->
  ingest_item L r ts EventDriven it s = (Err Duplicate, s).
Proof.
  intros H1 H2 H3 Hne Hex. unfold ingest_item.
  rewrite (bind_run _ _ _ _ _ H1), (bind_run _ _ _ _ _ H2).
  unfold bind at 1. unfold bind at 1.
  destruct (get_current r fid s) as [res s3] eqn:E.
  assert (s3 = s) by (pose proof (get_current_state r fid s) as G; now rewrite E in G).
  subst s3. simpl in H3. subst res. unfold ret.
  apply Z.eqb_neq in Hne. rewrite Hne.
  apply bind_err. apply exec_run_err. unfold sql_insert_fact. now rewrite Hex.
Qed.

Lemma event_pair_cases (L : Lib) (r ts : Z) (it : IngestItem) (s s1 : FelixSqlite) :
  ingest_items L r ts EventDriven [it] s = (Ok tt, s1) ->
  exists fid vid,
    get_or_create_field L (field_name it) s1 = (Ok fid, s1)
    /\ get_or_create_value L (value it) s1 = (Ok vid, s1)
    /\ (((exists t0, fst (get_current r fid s1) = Ok (Some (vid, t0)))
         /\ ingest_items L r ts EventDriven [it; it] s = (Ok tt, s1))
        \/ ((exists v' t', fst (get_current r fid s1) = Ok (Some (v', t'))
                           /\ v' <> vid /\ ts < t')
            /\ exists s', ingest_items L r ts EventDriven [it; it] s = (Err Duplicate, s')
                          /\ db_ s' = db_ s)).
Proof.
  intros H. pose proof H as H0.
  apply ingest_items_single_inv in H as (sa & E0 & E1).
  destruct (event_item_outcome L r ts it sa s1 E1) as (fid & vid & Hf & Hv & Hcase).
  exists fid, vid. split; [exact Hf |]. split; [exact Hv |].
  destruct Hcase as [[t0 Hc] | (Hex & v' & t' & Hc & Hne & Hlt)].
  - left. split; [eauto |]. now apply (event_pair L r ts it s s1 fid vid t0).
  - right. split; [eauto |].
    pose proof (event_item_conflict L r ts it s1 fid vid v' t' Hf Hv Hc Hne Hex) as E2.
    exists (set_db (db_ s) s1). split; [| reflexivity].
    unfold ingest_items, with_tx. rewrite (bind_run _ _ _ _ _ E0). simpl.
    rewrite (bind_run _ _ _ _ _ E1).
    now rewrite (bind_err _ _ _ _ _ E2).
Qed.


(** * The claims *)

Lemma trim_copy_no_space_ends (c : ascii) (t : string) :
  isspace c = false -> isspace (char_at (String c t) (String.length t)) = false ->
  trim_copy (String c t) = String c t.
Proof.
  intros Hc Hl. unfold trim_copy, size. cbn [String.length trim_scan_fwd].
  change (char_at (String c t) 0) with c. rewrite Hc.
  cbn [trim_scan_bwd]. rewrite Hl. simpl Nat.ltb. simpl andb.
  rewrite Nat.sub_0_r. exact (substring_all (String c t)).
Qed.

Lemma plus_token_trim (ds : string) :
  ds <> "" -> all_digits ds = true -> trim_copy ("+" ++ ds) = "+" ++ ds.
Proof.
  intros Hne Hd. simpl. apply trim_copy_no_space_ends; [reflexivity |].
  rewrite char_at_nth. simpl.
  assert (H : forall l d, l <> [] -> forallb isdigit l = true ->
            isspace (nth (List.length l) (d :: l) NUL) = false).
  { clear. intros l. induction l as [| c l IH]; intros d Hl Hf; [congruence |].
    simpl in Hf. apply andb_prop in Hf as [Hc Hf].
    destruct l as [| c' l'].
    - simpl. now apply isdigit_not_space.
    - apply (IH c); [discriminate | exact Hf]. }
  rewrite <- chars_length. apply H; [| exact Hd].
  destruct ds; [congruence | discriminate].
Qed.

(** C1. After any sequence of operations on a database that starts without
    facts (ingests in either temporality mode with timestamps in any order,
    a failed call being rolled back, also with queries, rebuilds and
    [init] between them), every (record, field) pair of [facts] has exactly
    one row in [current_facts]; its [ts] is the maximum [ts] of the pair's
    facts and its [value_id] is that of the fact at that [ts]. *)
Theorem current_equals_max_ts (L : Lib) (read_lines : string -> option (list string))
    (ops : list Op) (d0 : DB) :
  facts d0 = [] -> current_facts d0 = [] ->
  current_is_max (run_ops L read_lines ops d0).
Proof.
  intros Hf Hc. apply Inv_P3, run_ops_Inv, Inv_no_facts; assumption.
Qed.

Lemma current_equals_max_ts_witness :
  facts empty_db = [] /\ current_facts empty_db = []
  /\ current_is_max (run_ops ascii_lib no_files example_ops empty_db).
Proof.
  split; [reflexivity |]. split; [reflexivity |].
  apply (current_equals_max_ts ascii_lib no_files example_ops empty_db); reflexivity.
Defined.

(** C2. Evaluation of the code on a legacy database.  The engine itself
    honours the legacy format: a store opened on [legacy_db] rejects a bytes
    value with UnsupportedInLegacy and hashes text under tag 1 without a
    separator.  But [run_felix] calls [init_schema] before every command, so
    the [ingest] command on the same database re-stamps [meta] as felix_v03,
    accepts the bytes value, and hashes text under tag 4 with the separator. *)
Theorem run_felix_restamps_legacy_db :
  (forall (L : Lib) (cv : CanonValue),
      logical_type cv = Bytes ->
      Z.of_nat (List.length (canon_blob cv)) <= 4 * 1024 * 1024 ->
      get_or_create_value L cv (open_store legacy_db)
      = (Err UnsupportedInLegacy, open_store legacy_db))
  /\ (forall (L : Lib) (cv : CanonValue),
      logical_type cv = Text ->
      sha256_typed L (tagmap_ (open_store legacy_db)) (hashfmt_ (open_store legacy_db))
        (logical_type cv) (canon_bytes_of cv)
      = Ok (sha256_bytes L (x01 :: bytes_of (canon_text cv))))
  /\ fst (fst (run_felix ascii_lib no_files legacy_bytes_argv legacy_db)) = 0
  /\ map col_value_id (facts (snd (run_felix ascii_lib no_files legacy_bytes_argv legacy_db)))
     = [2]
  /\ meta (snd (run_felix ascii_lib no_files legacy_bytes_argv legacy_db))
     = [("tag_map", "felix_v03"); ("hash_format", "felix_v03_sep"); ("felix_spec", "0.3")]
  /\ map values_hash (f_values (snd (run_felix ascii_lib no_files legacy_text_argv legacy_db)))
     = [ evp_sha256 ascii_lib (x00 :: x00 :: bytes_of "null");
         evp_sha256 ascii_lib (x04 :: x00 :: bytes_of "a") ].
Proof.
  split; [| split; [| repeat split; vm_compute; reflexivity]].
  - intros L cv Hty Hsz. now apply legacy_rejects_bytes.
  - intros L cv Hty. now apply legacy_text_hash.
Qed.

(** C3. On a database reached by any sequence of operations from one without
    facts, [rebuild_current_facts] succeeds; it replaces [current_facts] by
    the rows the specification describes (of each (record, field) group of
    [facts], the row of greatest [ts]), and these are exactly the rows the
    incremental upsert had kept: the two tables hold the same rows, each
    once.  Nothing else changes. *)
Theorem rebuild_equals_incremental (L : Lib) (read_lines : string -> option (list string))
    (ops : list Op) (d0 : DB) :
  facts d0 = [] -> current_facts d0 = [] ->
  let s := open_store (run_ops L read_lines ops d0) in
  exists s',
    rebuild_current_facts s = (Ok tt, s')
    /\ current_facts (db_ s') = spec_rebuild (facts (db_ s))
    /\ (forall row, In row (current_facts (db_ s')) <->
          In row (facts (db_ s))
          /\ forall x, In x (facts (db_ s)) -> cur_key x = cur_key row ->
                       col_ts x <= col_ts row)
    /\ Permutation (current_facts (db_ s')) (current_facts (db_ s))
    /\ NoDup (current_facts (db_ s')) /\ NoDup (current_facts (db_ s))
    /\ facts (db_ s') = facts (db_ s) /\ fields (db_ s') = fields (db_ s)
    /\ f_values (db_ s') = f_values (db_ s) /\ records (db_ s') = records (db_ s)
    /\ meta (db_ s') = meta (db_ s).
Proof.
  intros Hf Hc s.
  assert (HI : Inv (db_ s)).
  { unfold s. rewrite open_store_db. apply run_ops_Inv, Inv_no_facts; assumption. }
  destruct (rebuild_under_Inv s HI) as [Hrun Hperm].
  exists (set_db (with_current (db_ s) (spec_rebuild (facts (db_ s)))) s).
  split; [exact Hrun |]. simpl. split; [reflexivity |]. split.
  - intros row. unfold spec_rebuild. rewrite filter_In, is_group_max_spec. tauto.
  - split; [exact Hperm |]. split.
    + apply (NoDup_map_inv cur_key). apply spec_rebuild_keys. apply HI.
    + split; [apply (NoDup_map_inv cur_key); apply HI |]. repeat split.
Qed.

Lemma rebuild_equals_incremental_witness :
  facts empty_db = [] /\ current_facts empty_db = []
  /\ exists s',
       rebuild_current_facts (open_store (run_ops ascii_lib no_files example_ops empty_db))
       = (Ok tt, s')
       /\ Permutation (current_facts (db_ s'))
            (current_facts
               (db_ (open_store (run_ops ascii_lib no_files example_ops empty_db)))).
Proof.
  split; [reflexivity |]. split; [reflexivity |].
  destruct (rebuild_equals_incremental ascii_lib no_files example_ops empty_db
              eq_refl eq_refl) as (s' & H1 & _ & _ & H2 & _).
  exists s'. split; [exact H1 | exact H2].
Defined.



(** C5 (as stated, refuted). [current_eq] with a field name and a value the
    database has never seen appends a row to [fields] and a row to
    [f_values]. *)
Lemma query_writes_counterexample :
  fields init_db = []
  /\ map fields_name_canon
       (fields (snd (run_felix ascii_lib no_files query_argv init_db))) = ["Color"]
  /\ map values_canon_text (f_values init_db) = [Some "null"]
  /\ map values_canon_text
       (f_values (snd (run_felix ascii_lib no_files query_argv init_db)))
     = [Some "null"; Some "red"].
Proof. repeat split; vm_compute; reflexivity. Qed.

(** C5 (amended). Executing [current_eq] or [ever_eq], with any field name
    and any typed value and whatever the outcome, leaves the tables
    [records], [facts] and [current_facts] unchanged; [fields] and [f_values]
    keep their rows and may gain rows at the end (the queried name and value
    are interned). *)
Theorem queries_only_intern (L : Lib) (read_lines : string -> option (list string))
    (argv : list string) (d : DB) :
  arg argv 2 = "current_eq" \/ arg argv 2 = "ever_eq" ->
  let d' := snd (run_felix L read_lines argv d) in
  records d' = records d /\ facts d' = facts d /\ current_facts d' = current_facts d
  /\ (exists fl, fields d' = fields d ++ fl)%list
  /\ (exists vl, f_values d' = f_values d ++ vl)%list.
Proof. intros Hcmd. exact (query_interns_only L read_lines argv d Hcmd). Qed.

Lemma queries_only_intern_witness :
  (arg query_argv 2 = "current_eq" \/ arg query_argv 2 = "ever_eq")
  /\ facts (snd (run_felix ascii_lib no_files query_argv init_db)) = facts init_db
  /\ current_facts (snd (run_felix ascii_lib no_files query_argv init_db))
     = current_facts init_db.
Proof.
  split; [left; reflexivity |].
  destruct (queries_only_intern ascii_lib no_files query_argv init_db (or_introl eq_refl))
    as (_ & Hf & Hc & _).
  split; [exact Hf | exact Hc].
Defined.

(** C6 (as stated, refuted). The canonical form of Null is [null], which is
    four bytes long, not three. *)
Lemma null_form_counterexample :
  canonicalize_typed_value ascii_lib Null "payload" = Ok (with_text (cv_init Null) "null")
  /\ List.length (bytes_of (canon_text (with_text (cv_init Null) "null"))) = 4%nat
  /\ List.length (bytes_of (canon_text (with_text (cv_init Null) "null"))) <> 3%nat.
Proof. repeat split. discriminate. Qed.

(** C6 (amended). The canonical form of a Null value is the four bytes
    [null], whatever payload is supplied, in the structured (JSON) path and
    in the raw-text path alike; no library routine is consulted. *)
Theorem null_canonical_form (L : Lib) (v : json) (raw : string) :
  canonicalize_typed_value_json L Null v = Ok (with_text (cv_init Null) "null")
  /\ canonicalize_typed_value L Null raw = Ok (with_text (cv_init Null) "null")
  /\ bytes_of (canon_text (with_text (cv_init Null) "null")) = [x6e; x75; x6c; x6c].
Proof. repeat split. Qed.

(** C7 (as stated, refuted). A vertical tab and a form feed at the ends of a
    string are removed by [trim_copy]. *)
Lemma trim_counterexample : trim_copy vt_a_ff = "a" /\ trim_copy vt_a_ff <> vt_a_ff.
Proof. split; [reflexivity | discriminate]. Qed.

(** C7 (amended). For every input string, [trim_copy] removes from both ends
    exactly the characters that [std::isspace] accepts in the "C" locale:
    space, tab (0x09), line feed (0x0A), vertical tab (0x0B), form feed (0x0C)
    and carriage return (0x0D).  The input is a run of such characters, the
    result, and another such run; the result neither starts nor ends with one
    of them, and no other byte is removed. *)
Theorem trim_copy_strips_c_space (s : string) :
  exists l r : string,
    s = l ++ trim_copy s ++ r
    /\ Forall c_space (chars l) /\ Forall c_space (chars r)
    /\ (forall c t, trim_copy s = String c t -> ~ c_space c)
    /\ (forall t c, trim_copy s = t ++ String c "" -> ~ c_space c).
Proof. exact (trim_copy_split s). Qed.

(** C8 (as stated, refuted). The token [+5] is accepted and canonicalizes
    to [5]. *)
Lemma plus_sign_counterexample :
  canonicalize_typed_value ascii_lib Int "+5" = Ok (with_text (cv_init Int) "5").
Proof. reflexivity. Qed.

(** C8 (amended). Raw-text canonicalization of an Int accepts, after the
    outer trim, exactly the tokens made of an optional leading [-] or [+]
    followed by one or more decimal digits whose value fits a signed 64-bit
    integer, and renders the value with [std::to_string]; every other token
    fails with BadInt.  In particular a leading [+] is accepted and dropped. *)
Theorem raw_int_tokens (L : Lib) (raw : string) :
  (forall x, int_token (trim_copy raw) x -> INT64_MIN <= x <= INT64_MAX ->
     canonicalize_typed_value L Int raw = Ok (with_text (cv_init Int) (to_string x)))
  /\ ((forall x, int_token (trim_copy raw) x -> ~ (INT64_MIN <= x <= INT64_MAX)) ->
      canonicalize_typed_value L Int raw = Err BadInt)
  /\ (forall ds, ds <> "" -> all_digits ds = true -> decimal ds <= INT64_MAX ->
      canonicalize_typed_value L Int ("+" ++ ds)
      = Ok (with_text (cv_init Int) (to_string (decimal ds)))).
Proof.
  split; [| split].
  - intros x. apply canonicalize_int_accepts.
  - apply canonicalize_int_rejects.
  - intros ds Hne Hd Hmax. apply canonicalize_int_accepts.
    + rewrite (plus_token_trim ds Hne Hd). exists "+", ds. repeat split; auto.
    + split; [| exact Hmax]. apply Z.le_trans with 0; [discriminate |].
      apply decimal_nonneg. exact Hd.
Qed.

(** C9 (as stated, refuted). A name of 257 bytes whose canonical form is the
    single byte [a] is rejected with FieldTooLong; a name of 180 bytes whose
    canonical form has 360 bytes is accepted. *)
Lemma field_length_counterexample :
  String.length padded_name = 257%nat
  /\ nfc_normalize_utf8 ascii_lib (trim_copy padded_name) = "a"
  /\ fst (get_or_create_field ascii_lib padded_name (fresh_store ascii_lib))
     = Err FieldTooLong
  /\ String.length qa_name = 180%nat
  /\ String.length (nfc_normalize_utf8 qa_lib (trim_copy qa_name)) = 360%nat
  /\ fst (get_or_create_field qa_lib qa_name (fresh_store qa_lib)) = Ok 1.
Proof. repeat split; vm_compute; reflexivity. Qed.

(** C9 (amended). Field interning fails with FieldTooLong exactly when the
    name as passed, before trimming and NFC normalization, exceeds 256 bytes;
    the length of the canonical form plays no part: a name of at most 256
    bytes is never rejected as too long, whatever its canonical form. *)
Theorem field_too_long_on_raw_size (L : Lib) (name : string) (s : FelixSqlite) :
  fst (get_or_create_field L name s) = Err FieldTooLong
  <-> 256 < Z.of_nat (String.length name).
Proof. apply get_or_create_field_too_long. Qed.

(** C10 (as stated, refuted).  In EventDriven mode the second of two equal
    items is not always skipped.  Record 1 has the current name Luke, at
    2000.  The call at 1000 with the single item Name = Leia succeeds (a late
    arrival: the fact enters the log and the current row stays).  The same
    call with the item twice fails with Duplicate and is rolled back: the
    current value is still Luke, so the second item is not skipped and its
    insert conflicts with the first. *)
Lemma event_duplicate_counterexample :
  let s := open_store luke_at_2000 in
  current_facts luke_at_2000 = [mkSqlFact 1 1 2 2000]
  /\ fst (ingest_items ascii_lib 1 1000 EventDriven [name_leia] s) = Ok tt
  /\ fst (ingest_items ascii_lib 1 1000 EventDriven [name_leia; name_leia] s)
     = Err Duplicate
  /\ db_ (snd (ingest_items ascii_lib 1 1000 EventDriven [name_leia; name_leia] s))
     = luke_at_2000.
Proof. repeat split; vm_compute; reflexivity. Qed.

(** C10 (amended). An ObservationDriven call that lists one field name twice
    (at any two positions, with any values) throws and is rolled back: the
    database is as before the call.  When the first item alone would have
    been ingested, the error is the primary-key conflict of the second
    insert.  In EventDriven mode with one value for both items, take a call
    whose single-item form succeeds.  Either the single item leaves the
    pair's current row at the item's value: then the second item is skipped
    and the call does what the single-item call does (on a new database it
    leaves one fact).  Or the pair's current row carries another value at a
    later instant (the item is a late arrival): then the second item is not
    skipped, its insert conflicts with the first, and the call fails with
    Duplicate and is rolled back.  There is no third case. *)
Theorem duplicate_field_in_one_call (L : Lib) (r ts : Z) (name : string) (v : CanonValue) :
  name_ok L name = true -> value_ok FelixV03 v = true ->
  (forall (s : FelixSqlite) (pre mid post : list IngestItem) (it1 it2 : IngestItem),
      field_name it1 = field_name it2 ->
      exists e s',
        ingest_items L r ts ObservationDriven (pre ++ it1 :: mid ++ it2 :: post) s
        = (Err e, s')
        /\ db_ s' = db_ s)
  /\ (forall (s s1 : FelixSqlite) (it1 it2 : IngestItem),
      field_name it2 = field_name it1 ->
      value_ok (tagmap_ s) (value it2) = true ->
      ingest_items L r ts ObservationDriven [it1] s = (Ok tt, s1) ->
      exists s',
        ingest_items L r ts ObservationDriven [it1; it2] s = (Err Duplicate, s')
        /\ db_ s' = db_ s)
  /\ (forall (s s1 : FelixSqlite) (it : IngestItem) (fid vid t0 : Z),
      ingest_items L r ts EventDriven [it] s = (Ok tt, s1) ->
      get_or_create_field L (field_name it) s1 = (Ok fid, s1) ->
      get_or_create_value L (value it) s1 = (Ok vid, s1) ->
      fst (get_current r fid s1) = Ok (Some (vid, t0)) ->
      ingest_items L r ts EventDriven [it; it] s = (Ok tt, s1))
  /\ (exists (s1 : FelixSqlite) (row : SqlFact),
        ingest_items L r ts EventDriven [mkItem name v; mkItem name v] (fresh_store L)
        = (Ok tt, s1)
        /\ ingest_items L r ts EventDriven [mkItem name v] (fresh_store L) = (Ok tt, s1)
        /\ facts (db_ s1) = [row] /\ current_facts (db_ s1) = [row]
        /\ col_record_id row = to_int64 r /\ col_ts row = ts)
  /\ (forall (s s1 : FelixSqlite) (it : IngestItem),
      ingest_items L r ts EventDriven [it] s = (Ok tt, s1) ->
      exists fid vid,
        get_or_create_field L (field_name it) s1 = (Ok fid, s1)
        /\ get_or_create_value L (value it) s1 = (Ok vid, s1)
        /\ (((exists t0, fst (get_current r fid s1) = Ok (Some (vid, t0)))
             /\ ingest_items L r ts EventDriven [it; it] s = (Ok tt, s1))
            \/ ((exists v' t', fst (get_current r fid s1) = Ok (Some (v', t'))
                               /\ v' <> vid /\ ts < t')
                /\ exists s',
                     ingest_items L r ts EventDriven [it; it] s = (Err Duplicate, s')
                     /\ db_ s' = db_ s))).
Proof.
  intros Hn Hv. split; [| split; [| split; [| split]]].
  5: { intros s s1 it H. now apply event_pair_cases. }
  - intros s pre mid post it1 it2 Hname. now apply obs_dup_rolls_back.
  - intros s s1 it1 it2 Hname Hv2 H1. eapply obs_pair_duplicate; eauto.
  - intros s s1 it fid vid t0 H H1 H2 H3. eapply event_pair; eauto.
  - destruct (first_item L r ts EventDriven name v Hn Hv) as (s0 & s1 & E0 & E1 & Ha).
    destruct (event_pair_fresh L r ts name v Hn Hv) as (s1' & E2 & Ha').
    assert (Hs : ingest_items L r ts EventDriven [mkItem name v] (fresh_store L) = (Ok tt, s1))
      by (eapply ingest_items_single; eauto).
    assert (s1' = s1).
    { unfold ingest_items, with_tx in E2. rewrite (bind_run _ _ _ _ _ E0) in E2.
      simpl in E2. rewrite (bind_run _ _ _ _ _ E1) in E2.
      rewrite (bind_run _ _ _ _ _ (item_skip_after_first L r ts ts name v s1 Hn Hv Ha)) in E2.
      unfold ret in E2. congruence. }
    subst s1'. destruct Ha as (xv & _ & _ & _ & _ & _ & _ & Hfacts & Hcur).
    exists s1, (mkSqlFact (to_int64 r) 1 (values_value_id xv) ts).
    repeat split; assumption.
Qed.

Lemma duplicate_field_in_one_call_witness :
  name_ok ascii_lib "Name" = true /\ value_ok FelixV03 luke = true
  /\ (exists e s',
        ingest_items ascii_lib 1 1000 ObservationDriven
          [mkItem "Name" luke; mkItem "Name" six] (fresh_store ascii_lib) = (Err e, s')
        /\ db_ s' = db_ (fresh_store ascii_lib))
  /\ (exists (s1 : FelixSqlite) (row : SqlFact),
        ingest_items ascii_lib 1 1000 EventDriven
          [mkItem "Name" luke; mkItem "Name" luke] (fresh_store ascii_lib) = (Ok tt, s1)
        /\ facts (db_ s1) = [row]).
Proof.
  split; [reflexivity |]. split; [reflexivity |].
  destruct (duplicate_field_in_one_call ascii_lib 1 1000 "Name" luke eq_refl eq_refl)
    as (HA & _ & _ & (s1 & row & E & _ & Hf & _) & _).
  split.
  - exact (HA (fresh_store ascii_lib) [] [] [] (mkItem "Name" luke) (mkItem "Name" six)
              eq_refl).
  - exists s1, row. split; [exact E | exact Hf].
Defined.


(** * Further properties *)

(** ** Trimming *)

Lemma trim_copy_idem (s : string) : trim_copy (trim_copy s) = trim_copy s.
Proof.
  destruct (trim_copy_split s) as (l & r & _ & _ & _ & Hh & Hl).
  destruct (trim_copy s) as [| c t] eqn:E; [reflexivity |].
  apply trim_copy_no_space_ends.
  - destruct (isspace c) eqn:Ec; [| reflexivity].
    exfalso. apply (Hh c t eq_refl). now apply isspace_c_space.
  - destruct (isspace (char_at (String c t) (String.length t))) eqn:Ec; [| reflexivity].
    exfalso.
    destruct (string_last_split c t) as (t' & c' & Est & Ec').
    apply (Hl t' c' Est). apply isspace_c_space. rewrite Ec'. exact Ec.
Qed.

Lemma substring_none (s : string) (n : nat) : String.substring n 0 s = "".
Proof. revert n. induction s as [| c s IH]; intros [| n]; simpl; auto. Qed.

Lemma trim_copy_all_space (s : string) : all_space s = true -> trim_copy s = "".
Proof.
  unfold all_space. intros Hs. unfold trim_copy.
  pose proof (trim_scan_fwd_spec s (size s) 0 eq_refl) as (Hb1 & _ & Hb3).
  set (b := trim_scan_fwd s 0 (size s)) in *.
  assert (Hb : b = size s).
  { destruct (Nat.eq_dec b (size s)) as [E | Hne]; [exact E |].
    assert (Hlt : (b < size s)%nat) by lia.
    specialize (Hb3 Hlt). rewrite char_at_nth in Hb3.
    rewrite forallb_forall in Hs.
    rewrite Hs in Hb3; [discriminate |].
    apply nth_In. rewrite chars_length. exact Hlt. }
  pose proof (trim_scan_bwd_spec s b (size s) (proj2 Hb1)) as (He1 & _).
  set (e := trim_scan_bwd s b (size s)) in *.
  cbv zeta. replace (e - b)%nat with 0%nat by lia.
  apply substring_none.
Qed.

Lemma trim_copy_length (s : string) : (String.length (trim_copy s) <= String.length s)%nat.
Proof.
  destruct (trim_copy_split s) as (l & r & Hs & _).
  rewrite Hs at 2. rewrite <- !chars_length, !chars_app, !length_app. lia.
Qed.

(** X1. [trim_copy] is idempotent, never lengthens a string, gives the
    empty string on a string made of white space only, and returns a string
    unchanged exactly when the string is its own trimmed form, that is, when
    it is the result of some trim. *)
Theorem trim_copy_fixed_points (s : string) :
  trim_copy (trim_copy s) = trim_copy s
  /\ (String.length (trim_copy s) <= String.length s)%nat
  /\ (all_space s = true -> trim_copy s = "")
  /\ (trim_copy s = s <-> exists s0, s = trim_copy s0)
  /\ (String.length (trim_copy s) = String.length s -> trim_copy s = s).
Proof.
  split; [apply trim_copy_idem |]. split; [apply trim_copy_length |].
  split; [apply trim_copy_all_space |]. split.
  - split; [intros H; exists s; now rewrite H | intros [s0 ->]; apply trim_copy_idem].
  - intros Hlen. destruct (trim_copy_split s) as (l & r & Hs & _).
    assert (Hl : String.length l = 0%nat /\ String.length r = 0%nat).
    { assert (H : String.length s
                  = (String.length l + (String.length (trim_copy s) + String.length r))%nat).
      { rewrite Hs at 1. rewrite <- !chars_length, !chars_app, !length_app. reflexivity. }
      lia. }
    destruct Hl as [Hl Hr]. destruct l; [| discriminate Hl]. destruct r; [| discriminate Hr].
    simpl in Hs. rewrite Hs at 2.
    clear. induction (trim_copy s) as [| c t IH]; simpl; [reflexivity | now rewrite <- IH].
Qed.



(** ** Type tags and type names *)

(** X2. Under either tag map, [type_tag_byte] and [logical_type_from_tag] are
    inverse to each other: a type has tag [tag] exactly when [tag] reads
    back as that type.  Tags are bytes, so that the byte read back from the
    [type_tag] column denotes the type written.  The legacy map lacks a tag
    for Bytes and for Uuid, and for these two types only. *)
Theorem tag_maps_invert (v : TagMapVersion) (t : LogicalType) (tag : Z) :
  (type_tag_byte v t = Ok tag <-> logical_type_from_tag v tag = Ok t)
  /\ (type_tag_byte v t = Ok tag ->
      0 <= tag < 256 /\ logical_type_from_tag v (tag mod 2 ^ 8) = Ok t)
  /\ (type_tag_byte LegacyV02 t = Err UnsupportedInLegacy <-> t = Bytes \/ t = Uuid)
  /\ (exists tag', type_tag_byte FelixV03 t = Ok tag').
Proof.
  split; [| split; [| split]].
  - split.
    + destruct v, t; simpl; intros H; inversion H; reflexivity.
    + destruct v; destruct tag as [| p | p]; simpl; try discriminate;
        try (do 4 (try destruct p as [p | p |]); simpl; try discriminate;
             intros H; inversion H; reflexivity);
        intros H; inversion H; reflexivity.
  - destruct v, t; simpl; intros H; inversion H; split; try lia; reflexivity.
  - destruct t; simpl; split; intros H; try discriminate; auto;
      destruct H as [H | H]; discriminate.
  - destruct t; simpl; eauto.
Qed.

Lemma type_from_string_inv (s : string) (t : LogicalType) :
  logical_type_from_string s = Ok t -> s = type_to_string t.
Proof.
  unfold logical_type_from_string.
  repeat match goal with
         | |- context [String.eqb s ?k] => destruct (String.eqb_spec s k) as [-> | _]
         end; intros H; inversion H; reflexivity.
Qed.

(** X3. Type names: [logical_type_from_string] reads back what
    [type_to_string] prints and accepts no other spelling; [parse_type]
    accepts, after trimming, exactly the seven names other than [json], and
    refuses [json] with ReservedType and anything else with ParseError. *)
Theorem type_names_round_trip (s : string) (t : LogicalType) :
  logical_type_from_string (type_to_string t) = Ok t
  /\ (logical_type_from_string s = Ok t <-> s = type_to_string t)
  /\ (parse_type s = Ok t <-> trim_copy s = type_to_string t /\ t <> JsonReserved)
  /\ (parse_type s = Err ReservedType <-> trim_copy s = "json")
  /\ (forall e, parse_type s = Err e -> e = ReservedType \/ e = ParseError).
Proof.
  assert (Hrt : forall t', logical_type_from_string (type_to_string t') = Ok t')
    by (intros []; reflexivity).
  split; [apply Hrt |]. split.
  { split; [apply type_from_string_inv | intros ->; apply Hrt]. }
  unfold parse_type.
  destruct (logical_type_from_string (trim_copy s)) as [t' | e] eqn:E; simpl.
  - apply type_from_string_inv in E. rewrite E. split; [| split].
    + split.
      * destruct t'; intros H; inversion H; subst; split; try reflexivity; discriminate.
      * intros [H Hne]. destruct t', t; try discriminate H; try reflexivity; congruence.
    + destruct t'; simpl; split; intros H; try discriminate H; reflexivity.
    + destruct t'; intros e H; inversion H; auto.
  - assert (He : e = ParseError).
    { unfold logical_type_from_string in E.
      repeat match type of E with
             | context [String.eqb ?a ?k] => destruct (String.eqb a k)
             end; inversion E; reflexivity. }
    subst e. split; [| split].
    + split; [discriminate |]. intros [H _]. rewrite H, Hrt in E. discriminate.
    + split; [discriminate |]. intros H. rewrite H in E. discriminate.
    + intros e H; inversion H; auto.
Qed.


(** ** UUIDs *)

Lemma tolower_facts (c : ascii) :
  is_hex (tolower c) = is_hex c
  /\ Ascii.eqb (tolower c) "-" = Ascii.eqb c "-"
  /\ tolower (tolower c) = tolower c
  /\ (is_hex c = true -> isspace (tolower c) = false).
Proof. destruct c as [[] [] [] [] [] [] [] []]; repeat split; intros; try discriminate. Qed.

Lemma uuid_loop_spec (s : string) (i : nat) :
  uuid_loop s i = if uuid_shape s i then Ok (lower_string s) else Err BadUuid.
Proof.
  revert i. induction s as [| c s IH]; intros i; simpl; [reflexivity |].
  destruct (Nat.eqb i 8 || Nat.eqb i 13 || Nat.eqb i 18 || Nat.eqb i 23).
  - destruct (Ascii.eqb c "-") eqn:E; simpl; [| reflexivity].
    apply Ascii.eqb_eq in E. subst c. rewrite IH.
    destruct (uuid_shape s (S i)); reflexivity.
  - destruct (is_hex c); simpl; [| reflexivity].
    rewrite IH. destruct (uuid_shape s (S i)); reflexivity.
Qed.

Lemma lower_string_length (s : string) : String.length (lower_string s) = String.length s.
Proof. induction s as [| c s IH]; simpl; congruence. Qed.

Lemma lower_string_idem (s : string) : lower_string (lower_string s) = lower_string s.
Proof.
  induction s as [| c s IH]; simpl; [reflexivity |].
  destruct (tolower_facts c) as (_ & _ & H & _). now rewrite H, IH.
Qed.

Lemma uuid_shape_lower (s : string) (i : nat) :
  uuid_shape (lower_string s) i = uuid_shape s i.
Proof.
  revert i. induction s as [| c s IH]; intros i; simpl; [reflexivity |].
  destruct (tolower_facts c) as (H1 & H2 & _). now rewrite H1, H2, IH.
Qed.

Lemma canonicalize_uuid_eq (s : string) :
  canonicalize_uuid s
  = if Nat.eqb (String.length (trim_copy s)) 36 && uuid_shape (trim_copy s) 0
    then Ok (lower_string (trim_copy s)) else Err BadUuid.
Proof.
  unfold canonicalize_uuid, size. rewrite uuid_loop_spec.
  destruct (Nat.eqb (String.length (trim_copy s)) 36); reflexivity.
Qed.

(** The characters of a string of UUID shape are dashes or hex digits. *)
Lemma uuid_shape_chars (s : string) (i : nat) (k : nat) :
  uuid_shape s i = true -> (k < String.length s)%nat ->
  isspace (tolower (char_at s k)) = false.
Proof.
  revert i k. induction s as [| c s IH]; intros i k H Hk; simpl in *; [lia |].
  apply andb_prop in H as [Hc Hs].
  destruct k as [| k].
  - change (char_at (String c s) 0) with c.
    destruct (Nat.eqb i 8 || Nat.eqb i 13 || Nat.eqb i 18 || Nat.eqb i 23).
    + apply Ascii.eqb_eq in Hc. subst c. reflexivity.
    + now apply tolower_facts.
  - change (char_at (String c s) (S k)) with (char_at s k). apply (IH (S i)); [exact Hs | lia].
Qed.

Lemma char_at_lower (s : string) (k : nat) :
  (k < String.length s)%nat -> char_at (lower_string s) k = tolower (char_at s k).
Proof.
  revert k. induction s as [| c s IH]; intros k Hk; simpl in *; [lia |].
  destruct k as [| k]; [reflexivity |].
  change (char_at (String (tolower c) (lower_string s)) (S k)) with (char_at (lower_string s) k).
  change (char_at (String c s) (S k)) with (char_at s k). apply IH. lia.
Qed.

Lemma trim_copy_uuid (u : string) :
  String.length u = 36%nat -> uuid_shape u 0 = true ->
  trim_copy (lower_string u) = lower_string u.
Proof.
  intros Hl Hs.
  assert (H0 : isspace (char_at (lower_string u) 0) = false).
  { rewrite char_at_lower by lia. apply (uuid_shape_chars u 0); [exact Hs | lia]. }
  assert (H35 : isspace (char_at (lower_string u) 35) = false).
  { rewrite char_at_lower by lia. apply (uuid_shape_chars u 0); [exact Hs | lia]. }
  pose proof (lower_string_length u) as Hll. rewrite Hl in Hll.
  destruct (lower_string u) as [| c t] eqn:E; [discriminate Hll |].
  simpl in Hll. injection Hll as Hll.
  apply trim_copy_no_space_ends; [exact H0 |]. now rewrite Hll.
Qed.

(** X4. [canonicalize_uuid] accepts exactly the inputs whose trimmed form has
    36 bytes, dashes at positions 8, 13, 18 and 23 and hex digits elsewhere,
    and returns that form in lower case; every other input fails with
    BadUuid.  The result is a fixed point of the function, and two inputs
    that differ only in the case of their letters (after trimming) have the
    same result. *)
Theorem canonicalize_uuid_spec (a b : string) :
  (canonicalize_uuid a
   = if Nat.eqb (String.length (trim_copy a)) 36 && uuid_shape (trim_copy a) 0
     then Ok (lower_string (trim_copy a)) else Err BadUuid)
  /\ (forall out, canonicalize_uuid a = Ok out ->
        String.length out = 36%nat /\ canonicalize_uuid out = Ok out)
  /\ (lower_string (trim_copy a) = lower_string (trim_copy b) ->
      canonicalize_uuid a = canonicalize_uuid b).
Proof.
  split; [apply canonicalize_uuid_eq |]. split.
  - intros out. rewrite canonicalize_uuid_eq.
    destruct (Nat.eqb (String.length (trim_copy a)) 36) eqn:El; simpl; [| discriminate].
    destruct (uuid_shape (trim_copy a) 0) eqn:Es; [| discriminate].
    intros H. injection H as <-. apply Nat.eqb_eq in El.
    split; [now rewrite lower_string_length |].
    rewrite canonicalize_uuid_eq, (trim_copy_uuid _ El Es).
    rewrite lower_string_length, El, uuid_shape_lower, Es, lower_string_idem. reflexivity.
  - intros H. rewrite !canonicalize_uuid_eq.
    rewrite <- (lower_string_length (trim_copy a)), <- (uuid_shape_lower (trim_copy a)).
    rewrite <- (lower_string_length (trim_copy b)), <- (uuid_shape_lower (trim_copy b)).
    now rewrite H.
Qed.


(** ** Command-line tokens *)

Lemma find_char_app (c : ascii) (a b : string) :
  ~ has_char c a -> find_char c (a ++ String c b) = Some (String.length a).
Proof.
  unfold has_char. induction a as [| d a IH]; simpl; intros H.
  - now rewrite Ascii.eqb_refl.
  - destruct (Ascii.eqb_spec d c) as [-> | Hne]; [tauto |].
    rewrite IH by tauto. reflexivity.
Qed.

Lemma substring_prefix (a b : string) :
  String.substring 0 (String.length a) (a ++ b) = a.
Proof. induction a as [| d a IH]; simpl; [now destruct b | now rewrite IH]. Qed.

Lemma substring_skip (a b : string) (n : nat) :
  String.substring (String.length a) n (a ++ b) = String.substring 0 n b.
Proof. induction a as [| d a IH]; simpl; [reflexivity | exact IH]. Qed.

Lemma substr_from_suffix (a : string) (c : ascii) (b : string) :
  substr_from (S (String.length a)) (a ++ String c b) = b.
Proof.
  unfold substr_from, size.
  replace (String.length (a ++ String c b) - S (String.length a))%nat with (String.length b).
  - change (S (String.length a)) with (String.length (String c a)).
    assert (H : forall a', String.substring (S (String.length a')) (String.length b)
                             (a' ++ String c b) = b).
    { induction a' as [| d a' IH]; simpl; [apply substring_all | exact IH]. }
    apply H.
  - rewrite <- !chars_length, chars_app, length_app. simpl. lia.
Qed.

Lemma split_once_at (c : ascii) (a b : string) :
  ~ has_char c a -> split_once (a ++ String c b) c = (a, b).
Proof.
  intros H. unfold split_once. rewrite (find_char_app c a b H).
  now rewrite substring_prefix, substr_from_suffix.
Qed.

Lemma find_char_split (c : ascii) (s : string) (pos : nat) :
  find_char c s = Some pos ->
  exists a b, s = a ++ String c b /\ ~ has_char c a /\ String.length a = pos.
Proof.
  unfold has_char. revert pos. induction s as [| d s IH]; simpl; intros pos; [discriminate |].
  destruct (Ascii.eqb_spec d c) as [-> | Hne].
  - intros H. injection H as <-. exists "", s. simpl. tauto.
  - destruct (find_char c s) as [i |]; [| discriminate].
    intros H. injection H as <-. destruct (IH i eq_refl) as (a & b & -> & Hn & Hl).
    exists (String d a), b. simpl. repeat split; [| congruence].
    intros [E | E]; [congruence | tauto].
Qed.

Lemma find_char_none (c : ascii) (s : string) :
  find_char c s = None <-> ~ has_char c s.
Proof.
  split.
  - unfold has_char. induction s as [| d s IH]; simpl; [tauto |].
    destruct (Ascii.eqb_spec d c) as [-> | Hne]; [discriminate |].
    destruct (find_char c s); [discriminate |].
    intros _ [E | E]; [congruence | now apply IH].
  - intros H. destruct (find_char c s) as [pos |] eqn:E; [| reflexivity].
    exfalso. apply H. destruct (find_char_split c s pos E) as (a & b & -> & _).
    unfold has_char. rewrite chars_app. apply in_or_app. right. now left.
Qed.

(** X5. [split_once s c] cuts [s] at the first occurrence of [c]: the first
    part holds no [c], and the parts joined by [c] give [s] back; a string
    without [c] is returned whole, with an empty second part. *)
Theorem split_once_spec (s : string) (c : ascii) :
  (~ has_char c s -> split_once s c = (s, ""))
  /\ (has_char c s ->
      ~ has_char c (fst (split_once s c))
      /\ s = fst (split_once s c) ++ String c (snd (split_once s c)))
  /\ (forall a b, ~ has_char c a -> split_once (a ++ String c b) c = (a, b)).
Proof.
  split; [| split].
  - intros H. unfold split_once. apply find_char_none in H. now rewrite H.
  - intros H. destruct (find_char c s) as [pos |] eqn:E.
    + destruct (find_char_split c s pos E) as (a & b & -> & Hn & _).
      rewrite (split_once_at c a b Hn). simpl. auto.
    + apply find_char_none in E. contradiction.
  - intros a b. apply split_once_at.
Qed.

(** X6. A token [Field=type:value] is cut at its first [=] and, after it, at
    the first [:]: the field name is the trimmed text before the [=], and the
    value text is everything after that [:], further [:] and [=] included.
    A token without [=] is refused, before any canonicalization. *)
Theorem parse_typed_kv_spec (L : Lib) (field type_s value_s token : string) :
  (~ has_char "=" field -> ~ has_char ":" type_s ->
   parse_typed_kv L (field ++ "=" ++ type_s ++ ":" ++ value_s)
   = (let! t := parse_type type_s in
      let! cv := canonicalize_typed_value L t value_s in
      Ok (mkItem (trim_copy field) cv)))
  /\ (~ has_char "=" token -> parse_typed_kv L token = Err ParseError).
Proof.
  split.
  - intros Hf Ht. unfold parse_typed_kv. simpl String.append.
    rewrite (find_char_app "=" field _ Hf), substring_prefix, substr_from_suffix.
    rewrite (split_once_at ":" type_s value_s Ht).
    unfold parse_type at 1.
    assert (Htt : trim_copy (trim_copy type_s) = trim_copy type_s) by apply trim_copy_idem.
    rewrite Htt. reflexivity.
  - intros H. unfold parse_typed_kv. apply find_char_none in H. now rewrite H.
Qed.

Lemma parse_typed_kv_spec_witness :
  ~ has_char "=" "Note" /\ ~ has_char ":" "text"
  /\ parse_typed_kv ascii_lib "Note=text:a=b:c"
     = Ok (mkItem "Note" (with_text (cv_init Text) "a=b:c")).
Proof.
  assert (H1 : ~ has_char "=" "Note")
    by (apply find_char_none; reflexivity).
  assert (H2 : ~ has_char ":" "text")
    by (apply find_char_none; reflexivity).
  split; [exact H1 |]. split; [exact H2 |].
  exact (proj1 (parse_typed_kv_spec ascii_lib "Note" "text" "a=b:c" "") H1 H2).
Defined.


(** ** Integers: [std::to_string], [std::stoll], [std::stoull] *)

Lemma last_not_space (l : list ascii) (d : ascii) :
  forallb isdigit l = true -> isspace d = false ->
  isspace (nth (List.length l) (d :: l) NUL) = false.
Proof.
  revert d. induction l as [| c l IH]; intros d Hf Hd; [exact Hd |].
  simpl in Hf. apply andb_prop in Hf as [Hc Hf].
  change (isspace (nth (List.length l) (c :: l) NUL) = false).
  apply IH; [exact Hf | now apply isdigit_not_space].
Qed.

Lemma token_trim (sg ds : string) :
  (sg = "" \/ sg = "-" \/ sg = "+") -> ds <> "" -> all_digits ds = true ->
  trim_copy (sg ++ ds) = sg ++ ds.
Proof.
  intros Hsg Hne Hd.
  destruct (digits_head ds Hne Hd) as (c & t & -> & Hc).
  unfold all_digits in Hd.
  destruct Hsg as [-> | [-> | ->]]; simpl append.
  - simpl in Hd. apply andb_prop in Hd as [_ Hd].
    apply trim_copy_no_space_ends; [now apply isdigit_not_space |].
    rewrite char_at_nth, <- chars_length.
    apply last_not_space; [exact Hd | now apply isdigit_not_space].
  - apply trim_copy_no_space_ends; [reflexivity |].
    rewrite char_at_nth, <- chars_length. apply last_not_space; [exact Hd | reflexivity].
  - apply trim_copy_no_space_ends; [reflexivity |].
    rewrite char_at_nth, <- chars_length. apply last_not_space; [exact Hd | reflexivity].
Qed.

Lemma string_of_uint_digits (u : Decimal.uint) :
  all_digits (NilEmpty.string_of_uint u) = true.
Proof. unfold all_digits. induction u; simpl; auto. Qed.

Lemma string_of_uint_acc (u : Decimal.uint) (acc : positive) :
  fold_left (fun a c => a * 10 + digit_val c) (chars (NilEmpty.string_of_uint u)) (Z.pos acc)
  = Z.pos (Pos.of_uint_acc u acc).
Proof.
  revert acc. induction u; intros acc; cbn [NilEmpty.string_of_uint chars list_ascii_of_string
    fold_left Pos.of_uint_acc]; [reflexivity | ..];
  fold (chars (NilEmpty.string_of_uint u)); rewrite <- IHu; f_equal;
  match goal with
  | |- context [digit_val ?c] =>
      let v := eval vm_compute in (digit_val c) in change (digit_val c) with v
  end; lia.
Qed.

Lemma string_of_uint_decimal (u : Decimal.uint) :
  decimal (NilEmpty.string_of_uint u) = Z.of_N (Pos.of_uint u).
Proof.
  unfold decimal. induction u;
    cbn [NilEmpty.string_of_uint chars list_ascii_of_string fold_left Pos.of_uint];
    [reflexivity | ..];
    fold (chars (NilEmpty.string_of_uint u));
    match goal with
    | |- context [0 * 10 + digit_val ?c] =>
        let v := eval vm_compute in (0 * 10 + digit_val c) in
        change (0 * 10 + digit_val c) with v
    end;
    [exact IHu | ..]; apply (string_of_uint_acc u).
Qed.

Lemma to_uint_token (p : positive) :
  NilZero.string_of_uint (Pos.to_uint p) <> ""
  /\ all_digits (NilZero.string_of_uint (Pos.to_uint p)) = true
  /\ decimal (NilZero.string_of_uint (Pos.to_uint p)) = Z.pos p.
Proof.
  pose proof (DecimalPos.Unsigned.to_uint_nonnil p) as Hn.
  pose proof (DecimalPos.Unsigned.of_to p) as Ho.
  pose proof (string_of_uint_digits (Pos.to_uint p)) as Hd.
  pose proof (string_of_uint_decimal (Pos.to_uint p)) as Hv.
  rewrite Ho in Hv.
  destruct (Pos.to_uint p) eqn:E; [congruence | ..];
    (split; [discriminate | split; [exact Hd | exact Hv]]).
Qed.

(** [std::to_string] writes a token that denotes its argument. *)
Lemma to_string_token (x : Z) : int_token (to_string x) x.
Proof.
  unfold to_string, int_token. destruct x as [| p | p]; cbn [Z.to_int NilZero.string_of_int].
  - exists "", "0". repeat split; auto. discriminate.
  - destruct (to_uint_token p) as (Hn & Hd & Hv).
    exists "", (NilZero.string_of_uint (Pos.to_uint p)).
    repeat split; auto.
  - destruct (to_uint_token p) as (Hn & Hd & Hv).
    exists "-", (NilZero.string_of_uint (Pos.to_uint p)).
    repeat split; auto. simpl String.eqb. rewrite Hv. reflexivity.
Qed.

Lemma int_token_trim (s : string) (x : Z) : int_token s x -> trim_copy s = s.
Proof.
  intros (sg & ds & Hsg & Hne & Hd & -> & _). now apply token_trim.
Qed.

Lemma int_token_fun (s : string) (x y : Z) : int_token s x -> int_token s y -> x = y.
Proof.
  intros (sg & ds & Hsg & Hne & Hd & Hs & Hx) (sg' & ds' & Hsg' & Hne' & Hd' & Hs' & Hy).
  pose proof (strto_core_token sg ds Hsg Hne Hd) as E.
  pose proof (strto_core_token sg' ds' Hsg' Hne' Hd') as E'.
  subst s. rewrite <- Hs' in E'. rewrite E in E'.
  inversion E' as [[Hb Hv]]. subst x y. rewrite Hb, Hv. reflexivity.
Qed.


Lemma canonicalize_int_inv (L : Lib) (raw : string) (v : CanonValue) :
  canonicalize_typed_value L Int raw = Ok v ->
  exists x, INT64_MIN <= x <= INT64_MAX /\ int_token (trim_copy raw) x
            /\ v = with_text (cv_init Int) (to_string x).
Proof.
  unfold canonicalize_typed_value. cbv zeta.
  destruct (Nat.eqb (size (trim_copy raw)) 0) eqn:Hsz; [discriminate |].
  unfold stoll.
  destruct (strto_core (trim_copy raw)) as [[[neg m] idx] |] eqn:E; [| discriminate].
  destruct ((INT64_MIN <=? (if neg then - m else m))
            && ((if neg then - m else m) <=? INT64_MAX)) eqn:Hin; [| discriminate].
  destruct (Nat.eqb idx (size (trim_copy raw))) eqn:Hidx; [| discriminate].
  simpl negb. cbv iota. intros H. injection H as <-.
  apply Nat.eqb_eq in Hidx. subst idx.
  apply andb_prop in Hin as [H1 H2]. apply Z.leb_le in H1, H2.
  assert (Hws : skip_space (trim_copy raw) = 0%nat).
  { destruct (trim_copy raw) as [| c t] eqn:Et; [reflexivity |].
    simpl. now rewrite (trim_copy_head raw c t Et). }
  exists (if neg then - m else m). split; [lia |]. split; [| reflexivity].
  exact (strto_core_whole _ _ _ Hws E).
Qed.

Lemma to_int64_id (x : Z) : INT64_MIN <= x <= INT64_MAX -> to_int64 x = x.
Proof.
  unfold to_int64, INT64_MIN, INT64_MAX. intros H.
  rewrite Z.mod_small; lia.
Qed.

(** X7. The canonical text of an Int is the [std::to_string] rendering of a
    signed 64-bit integer, and that rendering is read back unchanged: for
    every [x] of the int64 range the raw path on [to_string x] and the JSON
    path on the integer [x] both give the text [to_string x]; canonicalizing
    the canonical text of an accepted value gives the same value again; and
    two accepted raw inputs get the same canonical value exactly when they
    denote the same integer.  An unsigned JSON integer of [2^63] or more is
    accepted by the JSON path and stored as the negative number [x - 2^64],
    while the raw path rejects its decimal spelling. *)
Theorem int_canonical_form (L : Lib) :
  (forall x, INT64_MIN <= x <= INT64_MAX ->
     canonicalize_typed_value L Int (to_string x)
     = Ok (with_text (cv_init Int) (to_string x))
     /\ canonicalize_typed_value_json L Int (JInt x)
        = Ok (with_text (cv_init Int) (to_string x)))
  /\ (forall raw v, canonicalize_typed_value L Int raw = Ok v ->
        canonicalize_typed_value L Int (canon_text v) = Ok v)
  /\ (forall a b va vb x y,
        int_token (trim_copy a) x -> int_token (trim_copy b) y ->
        canonicalize_typed_value L Int a = Ok va ->
        canonicalize_typed_value L Int b = Ok vb ->
        (va = vb <-> x = y))
  /\ (forall x, 2 ^ 63 <= x < 2 ^ 64 ->
        canonicalize_typed_value_json L Int (JUInt x)
        = Ok (with_text (cv_init Int) (to_string (x - 2 ^ 64)))
        /\ canonicalize_typed_value L Int (to_string x) = Err BadInt).
Proof.
  assert (Hfix : forall x, INT64_MIN <= x <= INT64_MAX ->
            canonicalize_typed_value L Int (to_string x)
            = Ok (with_text (cv_init Int) (to_string x))).
  { intros x Hx. apply canonicalize_int_accepts; [| exact Hx].
    rewrite (int_token_trim _ _ (to_string_token x)). apply to_string_token. }
  split; [| split; [| split]].
  - intros x Hx. split; [now apply Hfix |].
    simpl. now rewrite to_int64_id.
  - intros raw v H. apply canonicalize_int_inv in H as (x & Hx & _ & ->).
    simpl canon_text. now apply Hfix.
  - intros a b va vb x y Ha Hb Ea Eb.
    apply canonicalize_int_inv in Ea as (x' & Hx' & Ha' & ->).
    apply canonicalize_int_inv in Eb as (y' & Hy' & Hb' & ->).
    rewrite (int_token_fun _ _ _ Ha Ha'), (int_token_fun _ _ _ Hb Hb').
    split; [| now intros ->].
    intros H. injection H as H.
    exact (int_token_fun _ _ _ (to_string_token x')
             (eq_ind_r (fun s => int_token s y') (to_string_token y') H)).
  - intros x Hx. split.
    + simpl. do 3 f_equal. unfold to_int64.
      replace (x + 2 ^ 63) with ((x - 2 ^ 63) + 1 * 2 ^ 64) by lia.
      rewrite Z.mod_add by lia. rewrite Z.mod_small; lia.
    + apply canonicalize_int_rejects. intros y Hy.
      rewrite (int_token_trim _ _ (to_string_token x)) in Hy.
      rewrite (int_token_fun _ _ _ Hy (to_string_token x)).
      unfold INT64_MAX. lia.
Qed.


(** ** Numeric command-line arguments *)

Lemma skip_space_app (ws s : string) :
  all_space ws = true -> skip_space s = 0%nat ->
  skip_space (ws ++ s) = String.length ws.
Proof.
  unfold all_space. induction ws as [| c ws IH]; simpl; intros H H0; [exact H0 |].
  apply andb_prop in H as [Hc H]. rewrite Hc, (IH H H0). reflexivity.
Qed.

Lemma substr_from_app (a b : string) : substr_from (String.length a) (a ++ b) = b.
Proof.
  unfold substr_from, size. rewrite substring_skip.
  replace (String.length (a ++ b) - String.length a)%nat with (String.length b).
  - apply substring_all.
  - rewrite <- !chars_length, chars_app, length_app. lia.
Qed.

Lemma read_digits_prefix (ds rest : string) (acc : Z) :
  all_digits ds = true -> no_digit_head rest = true ->
  read_digits (ds ++ rest) acc
  = (fold_left (fun a c => a * 10 + digit_val c) (chars ds) acc, String.length ds).
Proof.
  unfold all_digits. revert acc.
  induction ds as [| c ds IH]; intros acc H Hr; simpl in *.
  - destruct rest as [| c r]; [reflexivity |].
    simpl in Hr |- *. apply negb_true_iff in Hr. now rewrite Hr.
  - apply andb_prop in H as [Hc Hds]. rewrite Hc, (IH _ Hds Hr). reflexivity.
Qed.

(** [strto_core] skips white space, reads a token and stops at the first
    character that is not a digit. *)
Lemma strto_core_prefix (ws sg ds rest : string) :
  all_space ws = true ->
  (sg = "" \/ sg = "-" \/ sg = "+") -> ds <> "" -> all_digits ds = true ->
  no_digit_head rest = true ->
  strto_core (ws ++ (sg ++ ds) ++ rest)
  = Some (String.eqb sg "-", decimal ds, String.length (ws ++ sg ++ ds)).
Proof.
  intros Hws Hsg Hne Hds Hr.
  destruct (digits_head ds Hne Hds) as (c & t & Eds & Hc).
  pose proof (isdigit_not_space c Hc) as Hsp.
  assert (Hlen : forall a b : string,
            String.length (a ++ b) = (String.length a + String.length b)%nat).
  { intros a b. now rewrite <- !chars_length, chars_app, length_app. }
  assert (H0 : skip_space ((sg ++ ds) ++ rest) = 0%nat).
  { subst ds. destruct Hsg as [-> | [-> | ->]]; simpl; [now rewrite Hsp | reflexivity ..]. }
  unfold strto_core. rewrite (skip_space_app _ _ Hws H0), substr_from_app.
  rewrite !Hlen.
  destruct Hsg as [-> | [-> | ->]]; simpl String.append.
  - assert (Hm : match ds ++ rest with
                 | String "-" _ => (true, 1%nat)
                 | String "+" _ => (false, 1%nat)
                 | _ => (false, 0%nat)
                 end = (false, 0%nat)).
    { subst ds. simpl.
      destruct c as [[] [] [] [] [] [] [] []]; try reflexivity; discriminate Hc. }
    rewrite Hm, substr_from_0, (read_digits_prefix _ _ 0 Hds Hr).
    fold (decimal ds). subst ds. simpl. f_equal. f_equal. lia.
  - cbv iota beta. rewrite substr_from_1, (read_digits_prefix _ _ 0 Hds Hr).
    fold (decimal ds). subst ds. simpl. f_equal. f_equal. lia.
  - cbv iota beta. rewrite substr_from_1, (read_digits_prefix _ _ 0 Hds Hr).
    fold (decimal ds). subst ds. simpl. f_equal. f_equal. lia.
Qed.

(** X8. The numeric command-line arguments of [run_felix] (record id with
    [std::stoull], timestamps with [std::stoll]) are read without a check of
    the characters consumed: leading white space is skipped, an optional sign
    and the digits that follow are read, and whatever follows the digits is
    ignored.  A record id is rejected only when the digits alone exceed
    [2^64 - 1]; with a minus sign it wraps around modulo [2^64].  A timestamp
    is rejected exactly when the signed number is outside the int64 range. *)
Theorem cli_numbers_prefix (ws sg ds rest : string) :
  all_space ws = true ->
  (sg = "" \/ sg = "-" \/ sg = "+") -> ds <> "" -> all_digits ds = true ->
  no_digit_head rest = true ->
  let x := if String.eqb sg "-" then - decimal ds else decimal ds in
  parse_u64 (ws ++ (sg ++ ds) ++ rest)
  = (if decimal ds <=? UINT64_MAX then Ok (x mod 2 ^ 64) else Err ParseError)
  /\ parse_i64 (ws ++ (sg ++ ds) ++ rest)
     = (if (INT64_MIN <=? x) && (x <=? INT64_MAX) then Ok x else Err ParseError).
Proof.
  intros Hws Hsg Hne Hds Hr x.
  unfold parse_u64, parse_i64, stoull, stoll.
  rewrite (strto_core_prefix ws sg ds rest Hws Hsg Hne Hds Hr).
  fold x. split.
  - destruct (decimal ds <=? UINT64_MAX); reflexivity.
  - destruct ((INT64_MIN <=? x) && (x <=? INT64_MAX)); reflexivity.
Qed.

Lemma cli_numbers_prefix_witness :
  parse_u64 " -1abc" = Ok (2 ^ 64 - 1) /\ parse_i64 " -1abc" = Ok (- 1).
Proof.
  exact (cli_numbers_prefix " " "-" "1" "abc" eq_refl (or_intror (or_introl eq_refl))
           (fun H => match H in _ = s return match s with EmptyString => False | _ => True end
                     with eq_refl => I end)
           eq_refl eq_refl).
Defined.


(** ** The two canonicalization paths *)

Lemma canon_raw_shape (L : Lib) (t : LogicalType) (raw : string) (v : CanonValue) :
  canonicalize_typed_value L t raw = Ok v ->
  logical_type v = t /\ cv_hash v = repeat x00 32
  /\ (t = Bytes -> canon_text v = "") /\ (t <> Bytes -> canon_blob v = []).
Proof.
  intros H. destruct t.
  3: { apply canonicalize_int_inv in H as (x & _ & _ & ->).
       repeat split; auto; discriminate. }
  all: unfold canonicalize_typed_value in H; cbv zeta in H; canon_cases;
    repeat split; auto; try discriminate; try congruence.
Qed.

Lemma canon_json_shape (L : Lib) (t : LogicalType) (j : json) (v : CanonValue) :
  canonicalize_typed_value_json L t j = Ok v ->
  logical_type v = t /\ cv_hash v = repeat x00 32
  /\ (t = Bytes -> canon_text v = "") /\ (t <> Bytes -> canon_blob v = []).
Proof.
  intros H. destruct t; destruct j;
    unfold canonicalize_typed_value_json in H; cbv zeta in H; cbn [rbind] in H;
    canon_cases; repeat split; auto; try discriminate; try congruence.
Qed.

(** X9. What a canonical value looks like, on the raw-text path (command
    line) and on the JSON path (NDJSON): an accepted value carries the
    requested type, a zero hash (the digest is computed at interning), its
    payload in [canon_blob] for Bytes and in [canon_text] for every other
    type, the other of the two being empty; the reserved type json is refused
    on both paths whatever the payload.  A payload given as a JSON string is
    canonicalized as the same raw text for Text, Uuid and Bytes, and a raw
    Bool is accepted exactly when its trimmed text is [true] or [false],
    with the value of the JSON boolean. *)
Theorem canonical_paths_agree (L : Lib) (t : LogicalType) (raw : string) (j : json)
    (v : CanonValue) :
  (canonicalize_typed_value L t raw = Ok v \/ canonicalize_typed_value_json L t j = Ok v ->
   logical_type v = t /\ t <> JsonReserved /\ cv_hash v = repeat x00 32
   /\ (t = Bytes -> canon_text v = "") /\ (t <> Bytes -> canon_blob v = []))
  /\ canonicalize_typed_value L JsonReserved raw = Err ReservedType
  /\ canonicalize_typed_value_json L JsonReserved j = Err ReservedType
  /\ (t = Text \/ t = Uuid \/ t = Bytes ->
      canonicalize_typed_value_json L t (JString raw) = canonicalize_typed_value L t raw)
  /\ (canonicalize_typed_value L Bool raw = Ok v
      <-> exists b : bool,
            trim_copy raw = (if b then "true" else "false")
            /\ canonicalize_typed_value_json L Bool (JBool b) = Ok v).
Proof.
  split; [| split; [reflexivity | split; [reflexivity | split]]].
  - intros H.
    assert (Hs : logical_type v = t /\ cv_hash v = repeat x00 32
                 /\ (t = Bytes -> canon_text v = "") /\ (t <> Bytes -> canon_blob v = [])).
    { destruct H as [H | H]; [exact (canon_raw_shape L t raw v H)
                             | exact (canon_json_shape L t j v H)]. }
    destruct Hs as (H1 & H2 & H3 & H4). repeat split; auto.
    intros ->. destruct H as [H | H]; discriminate H.
  - intros [-> | [-> | ->]]; reflexivity.
  - unfold canonicalize_typed_value, canonicalize_typed_value_json. cbv zeta. split.
    + destruct (String.eqb (trim_copy raw) "true") eqn:Et.
      * apply String.eqb_eq in Et. rewrite Et. simpl. intros H. exists true. auto.
      * destruct (String.eqb (trim_copy raw) "false") eqn:Ef; [| discriminate].
        apply String.eqb_eq in Ef. rewrite Ef. simpl. intros H. exists false. auto.
    + intros ([] & -> & H); exact H.
Qed.


(** ** Float canonical text *)

Lemma lower_exponent_no_E (s : string) : ~ has_char "E" (lower_exponent s).
Proof.
  unfold has_char. induction s as [| c s IH]; simpl; [tauto |].
  intros [H | H]; [| exact (IH H)].
  destruct (Ascii.eqb c "E") eqn:E; [discriminate H |].
  apply Ascii.eqb_neq in E. congruence.
Qed.

Lemma substring_incl (c : ascii) (s : string) (n m : nat) :
  has_char c (String.substring n m s) -> has_char c s.
Proof.
  unfold has_char. revert n m. induction s as [| d s IH]; intros n m.
  - destruct n, m; simpl; tauto.
  - destruct n as [| n].
    + destruct m as [| m]; simpl; [tauto |].
      intros [H | H]; [now left | right; exact (IH 0%nat m H)].
    + simpl. intros H. right. exact (IH n m H).
Qed.

Lemma drop_zeros_incl (c : ascii) (l : list ascii) : In c (drop_zeros l) -> In c l.
Proof.
  induction l as [| d l IH]; simpl; [tauto |].
  destruct (Ascii.eqb d "0"); [intros H; right; exact (IH H) | simpl; tauto].
Qed.

Lemma strip_mantissa_incl (c : ascii) (m : string) :
  has_char c (strip_mantissa m) -> has_char c m.
Proof.
  unfold has_char, strip_mantissa, chars.
  destruct (find_char "." m); [| tauto].
  rewrite list_ascii_of_string_of_list_ascii. intros H. apply in_rev in H.
  apply in_rev. apply drop_zeros_incl.
  destruct (drop_zeros (rev (list_ascii_of_string m))) as [| d r]; [exact H |].
  destruct (Ascii.eqb d "."); [right; exact H | exact H].
Qed.

(** X10. The canonical text of a float: NaN is the only double refused (with
    BadFloat); both zeros give [0] and the infinities [inf] and [-inf]; and
    whatever digits the shortest-round-trip printer produces, the text
    returned is never [-0] and never contains an upper-case [E]. *)
Theorem float_canonical_form (L : Lib) (d : double) :
  (forall e, canonicalize_float64 L d = Err e <-> d = S754_nan /\ e = BadFloat)
  /\ (forall s, canonicalize_float64 L d = Ok s -> s <> "-0" /\ ~ has_char "E" s)
  /\ (forall sg, canonicalize_float64 L (S754_zero sg) = Ok "0"
                 /\ canonicalize_float64 L (S754_infinity sg)
                    = Ok (if sg then "-inf" else "inf")).
Proof.
  split; [| split; [| split; reflexivity]].
  - intros e. destruct d; simpl; split; try discriminate;
      try (intros [H _]; discriminate H).
    + intros H. injection H as <-. auto.
    + intros [_ ->]. reflexivity.
  - intros s. destruct d as [sg | sg | | sg m ex]; simpl.
    + intros H. injection H as <-. split; [discriminate |].
      unfold has_char. simpl. intros [H | []]. discriminate H.
    + intros H. injection H as <-. split; unfold has_char.
      * destruct sg; discriminate.
      * destruct sg; simpl; intros H; repeat (destruct H as [H | H]; [discriminate H |]);
          exact H.
    + discriminate.
    + set (t := lower_exponent (to_chars L (S754_finite sg m ex))).
      set (mant := match find_char "e" t with
                   | Some i => String.substring 0 i t | None => t end).
      set (ex' := match find_char "e" t with
                  | Some i => substr_from i t | None => "" end).
      assert (Ht : ~ has_char "E" t) by apply lower_exponent_no_E.
      assert (Hm : ~ has_char "E" (strip_mantissa mant ++ ex')).
      { unfold has_char. rewrite chars_app. intros H. apply in_app_or in H as [H | H].
        - apply strip_mantissa_incl in H. unfold mant in H.
          destruct (find_char "e" t); [apply substring_incl in H |]; exact (Ht H).
        - unfold ex' in H. destruct (find_char "e" t); [| exact H].
          apply substring_incl in H. exact (Ht H). }
      destruct (String.eqb (strip_mantissa mant ++ ex') "-0") eqn:E;
        intros H; injection H as <-.
      * split; [discriminate |]. unfold has_char. simpl. intros [H | []]. discriminate H.
      * split; [| exact Hm]. intros H. rewrite H in E. discriminate E.
Qed.


(** ** What every command preserves

    A relation between the state before and the state after that holds of
    the engine's operations holds of every command line. *)

Section CommandFrame.

Variable L : Lib.
Variable read_lines : string -> option (list string).
Variable R : FelixSqlite -> FelixSqlite -> Prop.

Hypothesis R_refl : forall s, R s s.
Hypothesis R_trans : forall s1 s2 s3, R s1 s2 -> R s2 s3 -> R s1 s3.
Hypothesis R_init : always R (init_schema L).
Hypothesis R_ingest : forall r ts mode items, always R (ingest_items L r ts mode items).
Hypothesis R_field : forall name, always R (get_or_create_field L name).
Hypothesis R_value : forall cv, always R (get_or_create_value L cv).
Hypothesis R_rebuild : always R rebuild_current_facts.

Lemma always_same {A : Type} (m : M A) : (forall s, snd (m s) = s) -> always R m.
Proof. intros H s. rewrite H. apply R_refl. Qed.

Lemma ingest_ndjson_lines_always (lines : list string) (mode : TemporalityMode) :
  always R (ingest_ndjson_lines L lines mode).
Proof.
  induction lines as [| line rest IH]; simpl.
  - apply always_ret, R_refl.
  - destruct (_ <? _); [apply always_throw, R_refl |].
    destruct (Nat.eqb _ 0); [exact IH |].
    destruct (json_parse L _) as [j |]; [| apply always_throw, R_refl].
    destruct (negb _); [apply always_throw, R_refl |].
    apply always_bind; [exact R_trans | apply always_lift, R_refl | intros rid].
    apply always_bind; [exact R_trans | apply always_lift, R_refl | intros ts].
    apply always_bind; [exact R_trans | apply always_lift, R_refl | intros m].
    apply always_bind; [exact R_trans | apply always_lift, R_refl | intros fj].
    destruct fj; try (apply always_throw, R_refl).
    apply always_bind; [exact R_trans | apply always_lift, R_refl | intros items].
    apply always_bind; [exact R_trans | apply R_ingest | intros _].
    exact IH.
Qed.

Lemma run_command_always (argv : list string) :
  always R (run_command L read_lines argv).
Proof.
  unfold run_command.
  assert (Hlift : forall (A : Type) (x : result A), always R (lift x))
    by (intros; apply always_lift, R_refl).
  assert (Hret : forall (A : Type) (x : A), always R (ret x))
    by (intros; apply always_ret, R_refl).
  destruct (String.eqb (arg argv 2) "init").
  { apply always_bind; [exact R_trans | apply R_init | auto]. }
  apply always_bind; [exact R_trans | apply R_init | intros _].
  destruct (String.eqb (arg argv 2) "ingest").
  { destruct (Nat.ltb _ 7); [apply Hret |].
    repeat (apply always_bind; [exact R_trans | apply Hlift | intros ?]).
    apply always_bind; [exact R_trans | apply R_ingest | auto]. }
  destruct (String.eqb (arg argv 2) "ingest_ndjson").
  { destruct (Nat.ltb _ 4); [apply Hret |].
    apply always_bind; [exact R_trans | apply Hlift | intros def].
    apply always_bind; [exact R_trans | | auto].
    unfold ingest_ndjson_file. destruct (read_lines _).
    - apply ingest_ndjson_lines_always.
    - apply always_throw, R_refl. }
  destruct (String.eqb (arg argv 2) "current_eq" || String.eqb (arg argv 2) "ever_eq").
  { destruct (Nat.ltb _ 5); [apply Hret |].
    apply always_bind; [exact R_trans | apply R_field | intros fid].
    apply always_bind; [exact R_trans | apply Hlift | intros cv].
    apply always_bind; [exact R_trans | apply R_value | intros vid].
    apply always_bind; [exact R_trans | | auto].
    destruct (String.eqb (arg argv 2) "current_eq"); intros s; apply R_refl. }
  destruct (String.eqb (arg argv 2) "facts_window").
  { destruct (Nat.ltb _ 5); [apply Hret |].
    repeat (apply always_bind; [exact R_trans | apply Hlift | intros ?]).
    apply always_bind; [exact R_trans | | intros rows].
    { intros s. apply R_refl. }
    apply always_bind; [exact R_trans | | auto].
    apply always_same, facts_to_json_state. }
  destruct (String.eqb (arg argv 2) "snapshot").
  { destruct (Nat.ltb _ 5); [apply Hret |].
    repeat (apply always_bind; [exact R_trans | apply Hlift | intros ?]).
    apply always_bind; [exact R_trans | | intros rows].
    { intros s. apply R_refl. }
    apply always_bind; [exact R_trans | | auto].
    apply always_same. intros s. apply snapshot_fields_state. }
  destruct (String.eqb (arg argv 2) "rebuild_current"); [| apply Hret].
  apply always_bind; [exact R_trans | apply R_rebuild | auto].
Qed.

End CommandFrame.

(** ** The log is append-only *)

Lemma log_extends_refl (d : DB) : log_extends d d.
Proof. repeat split; exists []; now rewrite app_nil_r. Qed.

Lemma log_extends_trans (d1 d2 d3 : DB) :
  log_extends d1 d2 -> log_extends d2 d3 -> log_extends d1 d3.
Proof.
  intros ([a1 A1] & [b1 B1] & [c1 C1] & [e1 E1]) ([a2 A2] & [b2 B2] & [c2 C2] & [e2 E2]).
  repeat split; eexists.
  - rewrite A2, A1, <- app_assoc. reflexivity.
  - rewrite B2, B1, <- app_assoc. reflexivity.
  - rewrite C2, C1, <- app_assoc. reflexivity.
  - rewrite E2, E1, <- app_assoc. reflexivity.
Qed.

Lemma appends_extends (s s' : FelixSqlite) : appends s s' -> store_extends s s'.
Proof. intros (_ & _ & _ & H). exact H. Qed.

Lemma interns_extends (s s' : FelixSqlite) : interns s s' -> store_extends s s'.
Proof.
  intros (Hr & Hf & _ & Hfl & Hvl). repeat split; auto.
  - exists []. now rewrite Hr, app_nil_r.
  - exists []. now rewrite Hf, app_nil_r.
Qed.

Lemma ingest_loop_appends (L : Lib) (r ts : Z) (mode : TemporalityMode)
    (items : list IngestItem) (s s' : FelixSqlite) :
  ingest_loop L r ts mode items s = (Ok tt, s') -> appends s s'.
Proof.
  revert s. induction items as [| it rest IH]; simpl; intros s H.
  - unfold ret in H. inversion H; subst. apply appends_refl.
  - apply bind_ok in H as ([] & s1 & H1 & H2).
    eapply appends_trans; [eapply ingest_item_appends; exact H1 | now apply IH].
Qed.

Lemma ingest_items_extends (L : Lib) (r ts : Z) (mode : TemporalityMode)
    (items : list IngestItem) :
  always store_extends (ingest_items L r ts mode items).
Proof.
  intros s. unfold ingest_items, with_tx.
  match goal with
  | |- context [match ?m s with _ => _ end] => destruct (m s) as [[[] | e] s1] eqn:E
  end; simpl; [| apply log_extends_refl].
  apply bind_ok in E as ([] & s0 & E0 & E1).
  pose proof (ensure_record_appends r ts s) as H0. rewrite E0 in H0. simpl in H0.
  destruct (256 <? Z.of_nat (Datatypes.length items)); [discriminate E1 |].
  apply appends_extends. eapply appends_trans; [exact H0 |].
  eapply ingest_loop_appends; exact E1.
Qed.

Lemma insert_all_current_rows (rows : list SqlFact) (d d' : DB) :
  insert_all_current rows d = Ok d' -> exists c, d' = with_current d c.
Proof.
  revert d. induction rows as [| r rows IH]; simpl; intros d H.
  - inversion H; subst. exists (current_facts d'). now destruct d'.
  - destruct (sql_insert_current r d) as [d1 |] eqn:E; [| discriminate H].
    unfold sql_insert_current in E.
    destruct (existsb _ _); [discriminate E |].
    destruct (negb _); [discriminate E |]. inversion E; subst.
    apply IH in H as (c & ->). exists c. reflexivity.
Qed.

Lemma rebuild_extends : always store_extends rebuild_current_facts.
Proof.
  intros s. unfold rebuild_current_facts.
  rewrite (bind_run _ _ s (set_db (with_current (db_ s) []) s) tt)
    by (now apply exec_run_ok).
  set (s1 := set_db (with_current (db_ s) []) s).
  match goal with |- context [exec ?st s1] => destruct (exec st s1) as [[[] | e] s2] eqn:E end.
  - apply exec_ok in E as (d' & E & ->). apply insert_all_current_rows in E as (c & ->).
    repeat split; exists []; simpl; now rewrite app_nil_r.
  - apply exec_err in E as (_ & ->). repeat split; exists []; simpl; now rewrite app_nil_r.
Qed.

Lemma run_command_extends (L : Lib) (read_lines : string -> option (list string))
    (argv : list string) :
  always store_extends (run_command L read_lines argv).
Proof.
  apply run_command_always.
  - intros s. apply log_extends_refl.
  - intros s1 s2 s3. apply log_extends_trans.
  - intros s. apply interns_extends, init_schema_interns.
  - apply ingest_items_extends.
  - intros name s. apply interns_extends, grows_interns, get_or_create_field_grows.
  - intros cv s. apply interns_extends, grows_interns, get_or_create_value_grows.
  - apply rebuild_extends.
Qed.

Lemma run_op_extends (L : Lib) (read_lines : string -> option (list string))
    (d : DB) (op : Op) :
  log_extends d (run_op L read_lines d op).
Proof.
  destruct op as [c | argv]; simpl.
  - unfold run_ingest.
    pose proof (ingest_items_extends L (call_record c) (call_ts c) (call_mode c)
                  (call_items c) (open_store d)) as H.
    unfold store_extends in H. now rewrite open_store_db in H.
  - destruct (run_felix_db L read_lines argv d) as [-> | ->]; [apply log_extends_refl |].
    pose proof (run_command_extends L read_lines argv (open_store d)) as H.
    unfold store_extends in H. now rewrite open_store_db in H.
Qed.

(** X11. The log is append-only.  Whatever sequence of operations is run
    (ingests that commit or roll back, NDJSON files, queries, rebuilds,
    [init], unknown commands), the tables [records], [fields], [f_values]
    and [facts] afterwards are the tables before followed by new rows: no
    fact, field, value or record is ever deleted or rewritten, and a row
    keeps its position. *)
Theorem log_is_append_only (L : Lib) (read_lines : string -> option (list string))
    (ops : list Op) (d : DB) :
  log_extends d (run_ops L read_lines ops d)
  /\ (forall f, In f (facts d) -> In f (facts (run_ops L read_lines ops d)))
  /\ (forall i f, nth_error (facts d) i = Some f ->
        nth_error (facts (run_ops L read_lines ops d)) i = Some f).
Proof.
  assert (H : log_extends d (run_ops L read_lines ops d)).
  { revert d. induction ops as [| op ops IH]; simpl; intros d; [apply log_extends_refl |].
    eapply log_extends_trans; [apply run_op_extends | apply IH]. }
  split; [exact H |]. destruct H as (_ & _ & _ & [l ->]). split.
  - intros f Hin. apply in_or_app. now left.
  - intros i f Hi. rewrite nth_error_app1; [exact Hi |].
    apply nth_error_Some. congruence.
Qed.


(** ** Interned ids *)

Lemma run_ops_extends (L : Lib) (read_lines : string -> option (list string))
    (ops : list Op) (d : DB) :
  log_extends d (run_ops L read_lines ops d).
Proof.
  revert d. induction ops as [| op ops IH]; simpl; intros d; [apply log_extends_refl |].
  eapply log_extends_trans; [apply run_op_extends | apply IH].
Qed.

Lemma bytes_of_length (s : string) : List.length (bytes_of s) = String.length s.
Proof. unfold bytes_of, list_byte_of_string. rewrite length_map. apply chars_length. Qed.

Lemma value_ok_same (tm : TagMapVersion) (v1 v2 : CanonValue) :
  logical_type v2 = logical_type v1 -> canon_bytes_of v2 = canon_bytes_of v1 ->
  value_ok tm v2 = value_ok tm v1.
Proof.
  unfold value_ok, canon_bytes_of, size. intros Ht Hb. rewrite Ht in *.
  destruct (logical_type v1); simpl in *; try reflexivity.
  - rewrite <- (bytes_of_length (canon_text v2)), Hb, bytes_of_length. reflexivity.
  - rewrite Hb. reflexivity.
Qed.

Lemma get_or_create_field_later (L : Lib) (n1 n2 : string) (s s1 s2 : FelixSqlite) (fid : Z) :
  get_or_create_field L n1 s = (Ok fid, s1) ->
  name_ok L n2 = true ->
  nfc_normalize_utf8 L (trim_copy n2) = nfc_normalize_utf8 L (trim_copy n1) ->
  store_extends s1 s2 ->
  get_or_create_field L n2 s2 = (Ok fid, s2).
Proof.
  intros H Hok Hc (_ & [l Hl] & _).
  apply get_or_create_field_ok in H as (Hok1 & x & Hx & ->).
  assert (Hh : field_hash L n2 = field_hash L n1) by (unfold field_hash; now rewrite Hc).
  apply get_or_create_field_found; [exact Hok |].
  rewrite Hh, Hl. now apply find_app_some.
Qed.

Lemma get_or_create_value_later (L : Lib) (v1 v2 : CanonValue) (s s1 s2 : FelixSqlite)
    (vid : Z) :
  get_or_create_value L v1 s = (Ok vid, s1) ->
  logical_type v2 = logical_type v1 -> canon_bytes_of v2 = canon_bytes_of v1 ->
  store_extends s1 s2 -> tagmap_ s2 = tagmap_ s -> hashfmt_ s2 = hashfmt_ s ->
  get_or_create_value L v2 s2 = (Ok vid, s2).
Proof.
  intros H Ht Hb (_ & _ & [l Hl] & _) Htm Hhf.
  apply get_or_create_value_ok in H as (Hok & h & x & Hh & Hx & ->).
  apply (get_or_create_value_found L v2 s2 h x).
  - rewrite Htm, (value_ok_same _ v1 v2 Ht Hb). exact Hok.
  - rewrite Htm, Hhf, Ht, Hb. exact Hh.
  - rewrite Hl. now apply find_app_some.
Qed.

(** X12. A field id, once given, is the id of every spelling of the name,
    for ever.  If interning [n1] returned [fid], then interning any name
    with the same canonical form (trimmed, NFC-normalized; for instance the
    same name with surrounding blanks) returns [fid] and writes nothing, in
    the resulting store and in every store whose tables extend it, in
    particular after any further sequence of operations on the database. *)
Theorem field_ids_are_stable (L : Lib) (read_lines : string -> option (list string))
    (n1 n2 : string) (s s1 : FelixSqlite) (fid : Z) :
  get_or_create_field L n1 s = (Ok fid, s1) ->
  name_ok L n2 = true ->
  nfc_normalize_utf8 L (trim_copy n2) = nfc_normalize_utf8 L (trim_copy n1) ->
  (forall s2, store_extends s1 s2 -> get_or_create_field L n2 s2 = (Ok fid, s2))
  /\ get_or_create_field L n1 s1 = (Ok fid, s1)
  /\ (forall ops,
        let s2 := open_store (run_ops L read_lines ops (db_ s1)) in
        get_or_create_field L n2 s2 = (Ok fid, s2)).
Proof.
  intros H Hok Hc.
  assert (Hok1 : name_ok L n1 = true) by (now apply get_or_create_field_ok in H).
  assert (Hs : forall s2, store_extends s1 s2 ->
                 get_or_create_field L n2 s2 = (Ok fid, s2)).
  { intros s2. now apply (get_or_create_field_later L n1 n2 s s1 s2 fid). }
  split; [exact Hs |]. split.
  - apply (get_or_create_field_later L n1 n1 s s1 s1 fid); auto. apply log_extends_refl.
  - intros ops s2. apply Hs. unfold store_extends, s2. rewrite open_store_db.
    apply run_ops_extends.
Qed.

Lemma field_ids_are_stable_witness :
  let s1 := snd (get_or_create_field ascii_lib "Name" (fresh_store ascii_lib)) in
  get_or_create_field ascii_lib " Name " s1 = (Ok 1, s1).
Proof.
  intros s1.
  destruct (field_ids_are_stable ascii_lib no_files "Name" " Name "
              (fresh_store ascii_lib) s1 1 eq_refl eq_refl eq_refl) as (H1 & _).
  apply H1. apply log_extends_refl.
Defined.

(** X13. A value id, once given, is the id of that typed canonical value for
    ever.  If interning [v1] returned [vid], then interning any value of the
    same type and canonical bytes returns [vid] and writes nothing, in the
    resulting store and in every store of the same format whose tables
    extend it.  The [hash] member of the value passed in is not looked at. *)
Theorem value_ids_are_stable (L : Lib) (v1 v2 : CanonValue) (s s1 : FelixSqlite) (vid : Z) :
  get_or_create_value L v1 s = (Ok vid, s1) ->
  logical_type v2 = logical_type v1 -> canon_bytes_of v2 = canon_bytes_of v1 ->
  (forall s2, store_extends s1 s2 -> tagmap_ s2 = tagmap_ s -> hashfmt_ s2 = hashfmt_ s ->
     get_or_create_value L v2 s2 = (Ok vid, s2))
  /\ get_or_create_value L v1 s1 = (Ok vid, s1)
  /\ tagmap_ s1 = tagmap_ s /\ hashfmt_ s1 = hashfmt_ s.
Proof.
  intros H Ht Hb.
  pose proof (get_or_create_value_grows L v1 s) as G. rewrite H in G.
  destruct G as (Gt & Gh & _). simpl in Gt, Gh.
  split; [intros s2; now apply (get_or_create_value_later L v1 v2 s s1 s2 vid) |].
  split; [| split; assumption].
  apply (get_or_create_value_later L v1 v1 s s1 s1 vid); auto. apply log_extends_refl.
Qed.

Lemma value_ids_are_stable_witness :
  let s1 := snd (get_or_create_value ascii_lib luke (fresh_store ascii_lib)) in
  get_or_create_value ascii_lib (mkCanon Text "Luke" [] []) s1 = (Ok 2, s1).
Proof.
  intros s1.
  destruct (value_ids_are_stable ascii_lib luke (mkCanon Text "Luke" [] [])
              (fresh_store ascii_lib) s1 2 eq_refl eq_refl eq_refl) as (H1 & _).
  apply H1; [apply log_extends_refl | reflexivity | reflexivity].
Defined.


(** ** The current view over time *)

(** X14. The current view only moves forward.  On a database that satisfies
    the integrity contract, after any further sequence of operations every
    (record, field) pair that had a current row still has one, at a
    timestamp that is not smaller; and if the timestamp is the same, the row
    is the same: the current value of a pair changes only together with a
    strictly later timestamp. *)
Theorem current_only_moves_forward (L : Lib) (read_lines : string -> option (list string))
    (ops : list Op) (d : DB) :
  Inv d ->
  forall c, In c (current_facts d) ->
    exists c', In c' (current_facts (run_ops L read_lines ops d))
               /\ cur_key c' = cur_key c /\ col_ts c <= col_ts c'
               /\ (col_ts c' = col_ts c -> c' = c).
Proof.
  intros HI c Hc.
  pose proof (run_ops_Inv L read_lines ops d HI) as HI'.
  destruct (run_ops_extends L read_lines ops d) as (_ & _ & _ & [l Hl]).
  assert (Hf : In c (facts (run_ops L read_lines ops d))).
  { rewrite Hl. apply in_or_app. left. now apply (inv_current_in_facts d HI). }
  destruct (inv_facts_covered _ HI' c Hf) as (c' & Hc' & Hk & Hle).
  exists c'. repeat split; auto.
  intros Hts.
  apply (key_unique fact_key (facts (run_ops L read_lines ops d))).
  - apply HI'.
  - now apply (inv_current_in_facts _ HI').
  - exact Hf.
  - now apply cur_key_fact_key.
Qed.

Lemma current_only_moves_forward_witness :
  let d := run_ops ascii_lib no_files (firstn 2 example_ops) empty_db in
  let c := mkSqlFact 1 1 2 1000 in
  In c (current_facts d)
  /\ exists c', In c' (current_facts (run_ops ascii_lib no_files (skipn 2 example_ops) d))
                /\ cur_key c' = cur_key c /\ col_ts c <= col_ts c'
                /\ (col_ts c' = col_ts c -> c' = c).
Proof.
  intros d c.
  assert (Hc : In c (current_facts d)) by (vm_compute; left; reflexivity).
  split; [exact Hc |].
  apply (current_only_moves_forward ascii_lib no_files (skipn 2 example_ops) d).
  - apply run_ops_Inv, Inv_no_facts; reflexivity.
  - exact Hc.
Defined.


(** ** The [meta] table and the format of a store *)

Lemma meta_upsert_find_same (k v : string) (rows : list (string * string)) :
  find (fun kv => String.eqb (fst kv) k) (meta_upsert k v rows) = Some (k, v).
Proof.
  induction rows as [| [k' v'] rows IH]; simpl.
  - now rewrite String.eqb_refl.
  - destruct (String.eqb k' k) eqn:E; simpl; rewrite E; [| exact IH].
    apply String.eqb_eq in E. now subst.
Qed.

Lemma meta_upsert_find_other (k v k2 : string) (rows : list (string * string)) :
  k2 <> k ->
  find (fun kv => String.eqb (fst kv) k2) (meta_upsert k v rows)
  = find (fun kv => String.eqb (fst kv) k2) rows.
Proof.
  intros Hne. induction rows as [| [k' v'] rows IH]; simpl.
  - apply String.eqb_neq in Hne. rewrite String.eqb_sym in Hne. now rewrite Hne.
  - destruct (String.eqb k' k) eqn:E; simpl.
    + apply String.eqb_eq in E. subst k'.
      assert (E2 : String.eqb k k2 = false) by (apply String.eqb_neq; congruence).
      now rewrite E2.
    + destruct (String.eqb k' k2); [reflexivity | exact IH].
Qed.

Lemma meta_upsert_same (k v : string) (rows : list (string * string)) :
  find (fun kv => String.eqb (fst kv) k) rows = Some (k, v) -> meta_upsert k v rows = rows.
Proof.
  induction rows as [| [k' v'] rows IH]; simpl; [discriminate |].
  destruct (String.eqb k' k) eqn:E.
  - intros H. inversion H; subst. reflexivity.
  - intros H. now rewrite (IH H).
Qed.

Lemma meta_upsert_keys (k v : string) (rows : list (string * string)) :
  map fst (meta_upsert k v rows)
  = if existsb (fun kv => String.eqb (fst kv) k) rows then map fst rows
    else (map fst rows ++ [k])%list.
Proof.
  induction rows as [| [k' v'] rows IH]; simpl; [reflexivity |].
  destruct (String.eqb k' k) eqn:E; simpl; [reflexivity |].
  rewrite IH. destruct (existsb _ rows); reflexivity.
Qed.

(** X15. [meta_set] followed by [meta_get] of the same key returns the value
    written, cut at its first NUL byte as [c_str] does; every key with a
    different NUL-terminated spelling reads as before; the keys of [meta]
    stay distinct when they were; writing the same pair again changes
    nothing; and only the [meta] table is touched. *)
Theorem meta_round_trip (k v k2 : string) (s : FelixSqlite) :
  let s' := snd (meta_set k v s) in
  fst (meta_set k v s) = Ok tt
  /\ meta_get k s' = (Ok (Some (c_str v)), s')
  /\ (c_str k2 <> c_str k -> fst (meta_get k2 s') = fst (meta_get k2 s))
  /\ (NoDup (map fst (meta (db_ s))) -> NoDup (map fst (meta (db_ s'))))
  /\ snd (meta_set k v s') = s'
  /\ s' = set_db (with_meta (db_ s) (meta (db_ s'))) s.
Proof.
  unfold meta_set, meta_get, bind, get_db, put_db, ret. simpl.
  split; [reflexivity |]. split; [| split; [| split; [| split]]].
  - now rewrite meta_upsert_find_same.
  - intros Hne. now rewrite meta_upsert_find_other.
  - intros Hnd. rewrite meta_upsert_keys.
    destruct (existsb _ (meta (db_ s))) eqn:E; [exact Hnd |].
    apply NoDup_snoc; [exact Hnd |].
    intros Hin. apply in_map_iff in Hin as ([k' v'] & Hk & Hin). simpl in Hk. subst k'.
    assert (Ht : existsb (fun kv => String.eqb (fst kv) (c_str k)) (meta (db_ s)) = true).
    { apply existsb_exists. exists (c_str k, v'). split; [exact Hin |].
      apply String.eqb_refl. }
    congruence.
  - unfold set_db, with_meta. simpl.
    rewrite (meta_upsert_same _ _ _ (meta_upsert_find_same (c_str k) (c_str v) _)).
    reflexivity.
  - reflexivity.
Qed.


Lemma load_format_defaults_run (s : FelixSqlite) :
  load_format_defaults s
  = (Ok tt,
     match meta_lookup "hash_format" (db_ s), meta_lookup "tag_map" (db_ s) with
     | Some h, Some t =>
         mkStore (db_ s) (if String.eqb t "felix_v03" then FelixV03 else LegacyV02)
                 (if String.eqb h "felix_v03_sep" then FelixV03Sep else LegacyNoSep)
                 (null_value_id_ s)
     | _, _ => mkStore (db_ s) LegacyV02 LegacyNoSep (null_value_id_ s)
     end).
Proof.
  unfold load_format_defaults, meta_get, meta_lookup, bind, get_db, ret. simpl.
  destruct (find _ (meta (db_ s))) as [[k1 h] |];
    destruct (find (fun kv => String.eqb (fst kv) "tag_map") (meta (db_ s))) as [[k2 t] |];
    reflexivity.
Qed.

Lemma format_open (d : DB) :
  (tagmap_ (open_store d) = FelixV03
   <-> meta_lookup "tag_map" d = Some "felix_v03" /\ meta_lookup "hash_format" d <> None)
  /\ (hashfmt_ (open_store d) = FelixV03Sep
      <-> meta_lookup "hash_format" d = Some "felix_v03_sep"
          /\ meta_lookup "tag_map" d <> None).
Proof.
  unfold open_store. rewrite load_format_defaults_run. simpl.
  destruct (meta_lookup "hash_format" d) as [h |];
    destruct (meta_lookup "tag_map" d) as [t |]; simpl.
  2-4: split; split; try discriminate; intros [H1 H2]; congruence.
  destruct (String.eqb_spec t "felix_v03") as [-> | Et];
    destruct (String.eqb_spec h "felix_v03_sep") as [-> | Eh];
    split; split; try discriminate; try (intros [H1 H2]; congruence);
    intros _; split; congruence.
Qed.

(** X16. How a store detects the format of the database it opens.  The tag
    map is felix_v03 exactly when [meta] holds [tag_map = felix_v03] and has
    a [hash_format] row; the hash format is felix_v03_sep exactly when
    [meta] holds [hash_format = felix_v03_sep] and has a [tag_map] row; in
    every other case (a key missing, another spelling) the legacy setting
    applies.  The two settings are read independently, and opening writes
    nothing. *)
Theorem format_detection (d : DB) :
  (tagmap_ (open_store d) = FelixV03
   <-> meta_lookup "tag_map" d = Some "felix_v03" /\ meta_lookup "hash_format" d <> None)
  /\ (hashfmt_ (open_store d) = FelixV03Sep
      <-> meta_lookup "hash_format" d = Some "felix_v03_sep"
          /\ meta_lookup "tag_map" d <> None)
  /\ (tagmap_ (open_store d) <> FelixV03 -> tagmap_ (open_store d) = LegacyV02)
  /\ (hashfmt_ (open_store d) <> FelixV03Sep -> hashfmt_ (open_store d) = LegacyNoSep)
  /\ db_ (open_store d) = d /\ null_value_id_ (open_store d) = 0.
Proof.
  destruct (format_open d) as [H1 H2].
  split; [exact H1 |]. split; [exact H2 |].
  split; [destruct (tagmap_ (open_store d)); tauto |].
  split; [destruct (hashfmt_ (open_store d)); tauto |].
  split; [apply open_store_db |].
  unfold open_store. rewrite load_format_defaults_run. simpl.
  destruct (meta_lookup "hash_format" d); destruct (meta_lookup "tag_map" d); reflexivity.
Qed.

Lemma null_value_ok : value_ok FelixV03 (with_text (cv_init Null) "null") = true.
Proof. reflexivity. Qed.

Lemma meta_set_run (k v : string) (s : FelixSqlite) :
  meta_set k v s
  = (Ok tt, set_db (with_meta (db_ s) (meta_upsert (c_str k) (c_str v) (meta (db_ s)))) s).
Proof. reflexivity. Qed.

Lemma init_schema_run (L : Lib) (s : FelixSqlite) :
  let m := meta_upsert "hash_format" "felix_v03_sep"
             (meta_upsert "tag_map" "felix_v03"
                (meta_upsert "felix_spec" "0.3" (meta (db_ s)))) in
  meta_lookup "felix_spec" (with_meta (db_ s) m) = Some "0.3"
  /\ meta_lookup "tag_map" (with_meta (db_ s) m) = Some "felix_v03"
  /\ meta_lookup "hash_format" (with_meta (db_ s) m) = Some "felix_v03_sep"
  /\ init_schema L s
     = ensure_null_value L
         (mkStore (with_meta (db_ s) m) FelixV03 FelixV03Sep (null_value_id_ s)).
Proof.
  intros m.
  assert (H1 : find (fun kv => String.eqb (fst kv) "hash_format") m
               = Some ("hash_format", "felix_v03_sep")) by apply meta_upsert_find_same.
  assert (H2 : find (fun kv => String.eqb (fst kv) "tag_map") m
               = Some ("tag_map", "felix_v03")).
  { unfold m. rewrite meta_upsert_find_other by discriminate.
    apply meta_upsert_find_same. }
  assert (H3 : find (fun kv => String.eqb (fst kv) "felix_spec") m
               = Some ("felix_spec", "0.3")).
  { unfold m. rewrite !meta_upsert_find_other by discriminate.
    apply meta_upsert_find_same. }
  unfold meta_lookup. simpl meta. rewrite H1, H2, H3.
  split; [reflexivity |]. split; [reflexivity |]. split; [reflexivity |].
  unfold init_schema.
  erewrite bind_run by apply meta_set_run.
  erewrite bind_run by apply meta_set_run.
  erewrite bind_run by apply meta_set_run.
  erewrite bind_run by apply load_format_defaults_run.
  f_equal. unfold meta_lookup. cbn [db_ set_db meta with_meta c_str Ascii.eqb Bool.eqb NUL].
  fold m. rewrite H1, H2. reflexivity.
Qed.

Lemma init_schema_facts (L : Lib) (s : FelixSqlite) :
  let s' := snd (init_schema L s) in
  fst (init_schema L s) = Ok tt
  /\ tagmap_ s' = FelixV03 /\ hashfmt_ s' = FelixV03Sep
  /\ meta_lookup "felix_spec" (db_ s') = Some "0.3"
  /\ meta_lookup "tag_map" (db_ s') = Some "felix_v03"
  /\ meta_lookup "hash_format" (db_ s') = Some "felix_v03_sep"
  /\ get_or_create_value L (with_text (cv_init Null) "null") s'
     = (Ok (null_value_id_ s'), s')
  /\ records (db_ s') = records (db_ s) /\ facts (db_ s') = facts (db_ s)
  /\ current_facts (db_ s') = current_facts (db_ s)
  /\ init_schema L s' = (Ok tt, s').
Proof.
  intros s'.
  destruct (init_schema_run L s) as (M1 & M2 & M3 & Hrun).
  set (m := meta_upsert "hash_format" "felix_v03_sep"
              (meta_upsert "tag_map" "felix_v03"
                 (meta_upsert "felix_spec" "0.3" (meta (db_ s))))) in *.
  set (s0 := mkStore (with_meta (db_ s) m) FelixV03 FelixV03Sep (null_value_id_ s)) in *.
  destruct (get_or_create_value_total L (with_text (cv_init Null) "null") s0 null_value_ok)
    as (vid & s1 & Hv).
  pose proof (get_or_create_value_grows L (with_text (cv_init Null) "null") s0) as G.
  rewrite Hv in G. destruct G as (Gt & Gh & Gm & Gr & Gf & Gc & _). simpl in *.
  assert (Hs' : init_schema L s = (Ok tt, mkStore (db_ s1) (tagmap_ s1) (hashfmt_ s1) vid)).
  { rewrite Hrun. unfold ensure_null_value. now rewrite (bind_run _ _ _ _ _ Hv). }
  assert (Es : s' = mkStore (db_ s1) FelixV03 FelixV03Sep vid).
  { unfold s'. rewrite Hs'. simpl. now rewrite Gt, Gh. }
  assert (Hagain : get_or_create_value L (with_text (cv_init Null) "null") s' = (Ok vid, s')).
  { apply (get_or_create_value_later L _ _ s0 s1 s' vid Hv); auto.
    - rewrite Es. apply log_extends_refl.
    - now rewrite Es.
    - now rewrite Es. }
  assert (Hm : forall k, meta_lookup k (db_ s') = meta_lookup k (with_meta (db_ s) m)).
  { intros k. unfold meta_lookup. rewrite Es. simpl. now rewrite Gm. }
  split; [now rewrite Hs' |].
  split; [now rewrite Es |]. split; [now rewrite Es |].
  split; [now rewrite Hm |]. split; [now rewrite Hm |]. split; [now rewrite Hm |].
  split; [rewrite Hagain; now rewrite Es |].
  split; [now rewrite Es |]. split; [now rewrite Es |]. split; [now rewrite Es |].
  destruct (init_schema_run L s') as (_ & _ & _ & Hrun').
  rewrite Hrun'.
  assert (Em : meta (db_ s') = m) by (rewrite Es; simpl; exact Gm).
  assert (Eid : meta_upsert "hash_format" "felix_v03_sep"
                  (meta_upsert "tag_map" "felix_v03"
                     (meta_upsert "felix_spec" "0.3" (meta (db_ s')))) = meta (db_ s')).
  { unfold meta_lookup in M1, M2, M3. simpl meta in M1, M2, M3.
    assert (K1 : find (fun kv => String.eqb (fst kv) "felix_spec") m
                 = Some ("felix_spec", "0.3")).
    { unfold m. rewrite !meta_upsert_find_other by discriminate.
      apply meta_upsert_find_same. }
    assert (K2 : find (fun kv => String.eqb (fst kv) "tag_map") m
                 = Some ("tag_map", "felix_v03")).
    { unfold m. rewrite meta_upsert_find_other by discriminate.
      apply meta_upsert_find_same. }
    assert (K3 : find (fun kv => String.eqb (fst kv) "hash_format") m
                 = Some ("hash_format", "felix_v03_sep")) by apply meta_upsert_find_same.
    rewrite Em.
    rewrite (meta_upsert_same _ _ _ K1), (meta_upsert_same _ _ _ K2).
    apply (meta_upsert_same _ _ _ K3). }
  rewrite Eid.
  assert (Ed : mkStore (with_meta (db_ s') (meta (db_ s'))) FelixV03 FelixV03Sep
                 (null_value_id_ s') = s').
  { rewrite Es. simpl. destruct (db_ s1). reflexivity. }
  rewrite Ed. unfold ensure_null_value. rewrite (bind_run _ _ _ _ _ Hagain).
  rewrite Es. reflexivity.
Qed.

(** X17. [init_schema] on any store, whatever format its database declared
    before: it never fails; it writes [felix_spec = 0.3],
    [tag_map = felix_v03] and [hash_format = felix_v03_sep] over whatever
    [meta] held, so that this store and every store opened later on the
    database use the felix_v03 tag map and hash format; it interns the Null
    value and keeps its id; it leaves [records], [facts] and
    [current_facts] alone; and running it again changes nothing. *)
Theorem init_schema_spec (L : Lib) (s : FelixSqlite) :
  let s' := snd (init_schema L s) in
  fst (init_schema L s) = Ok tt
  /\ tagmap_ s' = FelixV03 /\ hashfmt_ s' = FelixV03Sep
  /\ meta_lookup "felix_spec" (db_ s') = Some "0.3"
  /\ meta_lookup "tag_map" (db_ s') = Some "felix_v03"
  /\ meta_lookup "hash_format" (db_ s') = Some "felix_v03_sep"
  /\ tagmap_ (open_store (db_ s')) = FelixV03
  /\ hashfmt_ (open_store (db_ s')) = FelixV03Sep
  /\ get_or_create_value L (with_text (cv_init Null) "null") s'
     = (Ok (null_value_id_ s'), s')
  /\ records (db_ s') = records (db_ s) /\ facts (db_ s') = facts (db_ s)
  /\ current_facts (db_ s') = current_facts (db_ s)
  /\ init_schema L s' = (Ok tt, s').
Proof.
  intros s'.
  destruct (init_schema_facts L s)
    as (Hok & Ht & Hh & M1 & M2 & M3 & Hnull & Hr & Hf & Hc & Hagain).
  fold s' in Ht, Hh, M1, M2, M3, Hnull, Hr, Hf, Hc, Hagain.
  destruct (format_open (db_ s')) as (F1 & F2).
  split; [exact Hok |]. split; [exact Ht |]. split; [exact Hh |].
  split; [exact M1 |]. split; [exact M2 |]. split; [exact M3 |].
  split; [apply F1; rewrite M2, M3; split; [reflexivity | discriminate] |].
  split; [apply F2; rewrite M2, M3; split; [reflexivity | discriminate] |].
  repeat split; assumption.
Qed.


(** ** Queries *)

Lemma insert_by_ts_perm (r : SqlFact) (l : list SqlFact) :
  Permutation (insert_by_ts r l) (r :: l).
Proof.
  induction l as [| x l IH]; simpl; [reflexivity |].
  destruct (col_ts r <? col_ts x); [reflexivity |].
  rewrite IH. apply perm_swap.
Qed.

Lemma insert_by_ts_sorted (r : SqlFact) (l : list SqlFact) :
  StronglySorted ts_le l -> StronglySorted ts_le (insert_by_ts r l).
Proof.
  induction l as [| x l IH]; simpl; intros H.
  - repeat constructor.
  - inversion H as [| ? ? Hl Hx]; subst.
    destruct (col_ts r <? col_ts x) eqn:E.
    + apply Z.ltb_lt in E. constructor; [exact H |].
      constructor; [unfold ts_le; lia |].
      eapply Forall_impl; [| exact Hx]. unfold ts_le. intros a Ha. lia.
    + apply Z.ltb_ge in E. constructor; [now apply IH |].
      apply (Permutation_Forall (Permutation_sym (insert_by_ts_perm r l))).
      constructor; [exact E | exact Hx].
Qed.

Lemma order_by_ts_spec (rows : list SqlFact) :
  Permutation (order_by_ts rows) rows /\ StronglySorted ts_le (order_by_ts rows).
Proof.
  unfold order_by_ts.
  assert (H : forall acc, StronglySorted ts_le acc ->
            Permutation (fold_left (fun acc r => insert_by_ts r acc) rows acc) (acc ++ rows)
            /\ StronglySorted ts_le (fold_left (fun acc r => insert_by_ts r acc) rows acc)).
  { induction rows as [| r rows IH]; simpl; intros acc Hs.
    - rewrite app_nil_r. split; [reflexivity | exact Hs].
    - destruct (IH (insert_by_ts r acc) (insert_by_ts_sorted r acc Hs)) as [Hp Hs'].
      split; [| exact Hs'].
      rewrite Hp, insert_by_ts_perm. apply Permutation_middle. }
  destruct (H [] (SSorted_nil _)) as [Hp Hs]. split; assumption.
Qed.

(** X18. [query_facts_window] never fails and writes nothing; it returns,
    converted to [FactRow]s, exactly the facts whose [ts] lies in the closed
    interval [[t1, t2]] (and whose record is the one asked for, when a record
    is given), each as often as [facts] holds it, in non-decreasing order of
    [ts]; an interval with [t2 < t1] gives no row. *)
Theorem facts_window_spec (t1 t2 : Z) (record_filter : option Z) (s : FelixSqlite) :
  exists rows,
    query_facts_window t1 t2 record_filter s = (Ok (map fact_of_sql rows), s)
    /\ (forall x, In x rows <-> In x (facts (db_ s)) /\ in_window t1 t2 record_filter x)
    /\ Permutation rows (filter (in_window_b t1 t2 record_filter) (facts (db_ s)))
    /\ StronglySorted ts_le rows
    /\ map ts_ms (map fact_of_sql rows) = map col_ts rows
    /\ (t2 < t1 -> rows = []).
Proof.
  set (p := in_window_b t1 t2 record_filter).
  assert (Hp : forall x, p x = true <-> in_window t1 t2 record_filter x).
  { intros x. unfold p, in_window, in_window_b. rewrite !andb_true_iff, !Z.leb_le.
    destruct record_filter; [rewrite Z.eqb_eq |]; intuition. }
  destruct (order_by_ts_spec (filter p (facts (db_ s)))) as [Hperm Hsort].
  exists (order_by_ts (filter p (facts (db_ s)))).
  split; [reflexivity |]. split; [| split; [| split; [| split]]].
  - intros x. rewrite <- Hp, <- filter_In. split; intros H.
    + exact (Permutation_in x Hperm H).
    + exact (Permutation_in x (Permutation_sym Hperm) H).
  - exact Hperm.
  - exact Hsort.
  - rewrite map_map. reflexivity.
  - intros Hlt.
    assert (Hx : forall x, p x = false).
    { intros x. unfold p, in_window_b. destruct (t1 <=? col_ts x) eqn:E1; [| reflexivity].
      destruct (col_ts x <=? t2) eqn:E2; [| reflexivity].
      apply Z.leb_le in E1, E2. lia. }
    assert (Hnil : forall l, filter p l = []).
    { intros l. induction l as [| x l IH]; [reflexivity |].
      cbn [filter]. now rewrite Hx. }
    rewrite Hnil. reflexivity.
Qed.


Lemma filter_nothing {A : Type} (p : A -> bool) (l : list A) :
  (forall x, In x l -> p x = false) -> filter p l = [].
Proof.
  induction l as [| x l IH]; intros H; [reflexivity |].
  cbn [filter]. rewrite (H x) by now left. apply IH. intros y Hy. apply H. now right.
Qed.

Lemma filter_filter {A : Type} (p q : A -> bool) (l : list A) :
  filter p (filter q l) = filter (fun x => q x && p x) l.
Proof.
  induction l as [| x l IH]; [reflexivity |].
  cbn [filter]. destruct (q x); cbn [filter andb]; [destruct (p x) |]; now rewrite IH.
Qed.

(** The join of [snapshot_at]: of the facts of a record, those that are the
    latest of their field among the facts not later than [t]. *)
Lemma snapshot_join (F : list SqlFact) (t : Z) :
  join_latest F (group_max (filter (fun x => col_ts x <=? t) F))
  = spec_rebuild (filter (fun x => col_ts x <=? t) F).
Proof.
  set (G := filter (fun x => col_ts x <=? t) F).
  unfold join_latest, spec_rebuild, group_max.
  destruct (group_max_fold G [] []) as (Hnd & Hm & Hex);
    [constructor | intros ? ? [] | intros ? [] |].
  simpl in Hm, Hex.
  set (g := fold_left (fun g r => group_max_add r g) G []) in *.
  unfold G at 2. rewrite filter_filter. fold G.
  apply flat_map_as_filter. intros f Hf.
  destruct (col_ts f <=? t) eqn:Et; cbn [andb].
  - assert (HfG : In f G) by (apply filter_In; split; assumption).
    pose proof (Hex f HfG) as Hk. apply in_map_iff in Hk as ([k m] & Hk & Hin).
    simpl in Hk. subst k.
    pose proof (filter_group g (cur_key f) m (col_ts f) Hnd Hin) as Hfl.
    simpl in Hfl. rewrite Hfl.
    destruct (Hm _ _ Hin) as [(x & Hx & Hkx & Htx) Hub].
    destruct (m =? col_ts f) eqn:E.
    + apply Z.eqb_eq in E.
      assert (Hmax : is_group_max G f = true).
      { apply is_group_max_spec. intros y Hy Hky. rewrite <- E. now apply Hub. }
      rewrite Hmax. reflexivity.
    + apply Z.eqb_neq in E.
      destruct (is_group_max G f) eqn:Hmax; [| reflexivity].
      exfalso. apply E.
      pose proof (proj1 (is_group_max_spec G f) Hmax x Hx Hkx).
      pose proof (Hub f HfG eq_refl). lia.
  - apply Z.leb_gt in Et.
    rewrite filter_nothing; [reflexivity |].
    intros [[rid fid] mx] Hin.
    destruct (Hm _ _ Hin) as [(x & Hx & Hkx & Htx) _].
    apply filter_In in Hx as [_ Hx]. apply Z.leb_le in Hx.
    destruct (mx =? col_ts f) eqn:E; [| now rewrite andb_false_r].
    apply Z.eqb_eq in E. lia.
Qed.

Lemma NoDup_map_filter {A K : Type} (key : A -> K) (p : A -> bool) (l : list A) :
  NoDup (map key l) -> NoDup (map key (filter p l)).
Proof.
  induction l as [| x l IH]; simpl; intros H; [constructor |].
  inversion H as [| ? ? Hn Hl]; subst.
  destruct (p x); simpl; [| now apply IH].
  constructor; [| now apply IH].
  intros Hin. apply Hn. apply in_map_iff in Hin as (y & Hy & Hiny).
  apply filter_In in Hiny as [Hiny _]. rewrite <- Hy. now apply in_map.
Qed.

(** X19. [snapshot_at] never fails and writes nothing.  It returns, in the
    order of the log, the facts of the record with [ts <= t] that are the
    latest of their field among the record's facts with [ts <= t].  When the
    primary key of [facts] holds there is at most one row per field.  On a
    database that satisfies the integrity contract, a snapshot taken at a
    time not earlier than every fact of the record is the record's part of
    the current view. *)
Theorem snapshot_at_spec (record_id t : Z) (s : FelixSqlite) :
  let rid := to_int64 record_id in
  exists rows,
    snapshot_at record_id t s = (Ok (map fact_of_sql rows), s)
    /\ (forall x, In x rows <->
          In x (facts (db_ s)) /\ col_record_id x = rid /\ col_ts x <= t
          /\ forall y, In y (facts (db_ s)) -> col_record_id y = rid ->
                       col_field_id y = col_field_id x -> col_ts y <= t ->
                       col_ts y <= col_ts x)
    /\ (NoDup (map fact_key (facts (db_ s))) -> NoDup (map col_field_id rows))
    /\ (Inv (db_ s) ->
        (forall y, In y (facts (db_ s)) -> col_record_id y = rid -> col_ts y <= t) ->
        forall x, In x rows <-> In x (current_facts (db_ s)) /\ col_record_id x = rid).
Proof.
  intros rid.
  set (G := filter (fun x => (col_record_id x =? rid) && (col_ts x <=? t)) (facts (db_ s))).
  assert (HG : forall x, In x G <-> In x (facts (db_ s)) /\ col_record_id x = rid /\ col_ts x <= t).
  { intros x. unfold G. rewrite filter_In, andb_true_iff, Z.eqb_eq, Z.leb_le. tauto. }
  assert (Hrows : forall x, In x (spec_rebuild G) <->
            In x (facts (db_ s)) /\ col_record_id x = rid /\ col_ts x <= t
            /\ forall y, In y (facts (db_ s)) -> col_record_id y = rid ->
                         col_field_id y = col_field_id x -> col_ts y <= t ->
                         col_ts y <= col_ts x).
  { intros x. unfold spec_rebuild. rewrite filter_In, is_group_max_spec, HG. split.
    - intros ((Hx & Hr & Ht) & Hmax). repeat split; auto.
      intros y Hy Hry Hfy Hty. apply Hmax; [apply HG; auto |].
      unfold cur_key. congruence.
    - intros (Hx & Hr & Ht & Hmax). repeat split; auto.
      intros y Hy Hk. apply HG in Hy as (Hy & Hry & Hty).
      unfold cur_key in Hk. inversion Hk. now apply Hmax. }
  exists (spec_rebuild G). split; [| split; [exact Hrows | split]].
  - unfold snapshot_at, bind, get_db, ret. cbv zeta. fold rid.
    replace G with (filter (fun x => col_ts x <=? t)
                      (filter (fun x => col_record_id x =? rid) (facts (db_ s))))
      by (unfold G; now rewrite filter_filter).
    rewrite <- snapshot_join. rewrite filter_filter. reflexivity.
  - intros Hpk.
    assert (Hk : NoDup (map cur_key (spec_rebuild G))).
    { apply spec_rebuild_keys. unfold G. now apply NoDup_map_filter. }
    assert (Hrid : forall x, In x (spec_rebuild G) -> col_record_id x = rid).
    { intros x Hx. now apply Hrows in Hx. }
    revert Hk Hrid. generalize (spec_rebuild G). intros l.
    induction l as [| a l IH]; simpl; intros Hk Hrid; [constructor |].
    inversion Hk as [| ? ? Hn Hl]; subst. constructor.
    + intros Hin. apply Hn. apply in_map_iff in Hin as (b & Hb & Hinb).
      apply in_map_iff. exists b. split; [| exact Hinb].
      unfold cur_key. rewrite Hb, (Hrid a), (Hrid b); auto.
    + apply IH; auto.
  - intros HI Hlate x. rewrite Hrows. split.
    + intros (Hx & Hr & Ht & Hmax). split; [| exact Hr].
      destruct (inv_facts_covered _ HI x Hx) as (c & Hc & Hkc & Hle).
      pose proof (inv_current_in_facts _ HI c Hc) as Hcf.
      unfold cur_key in Hkc. inversion Hkc as [[Hcr Hcfid]].
      assert (Hts : col_ts c <= col_ts x).
      { apply Hmax; auto; [congruence | apply Hlate; congruence]. }
      assert (E : c = x).
      { apply (key_unique fact_key (facts (db_ s))); auto; [apply HI |].
        apply cur_key_fact_key; [unfold cur_key; congruence | lia]. }
      now subst c.
    + intros (Hc & Hr). pose proof (inv_current_in_facts _ HI x Hc) as Hx.
      repeat split; auto.
      intros y Hy Hry Hfy Hty.
      destruct (inv_facts_covered _ HI y Hy) as (c & Hc' & Hkc & Hle).
      assert (E : c = x).
      { apply (key_unique cur_key (current_facts (db_ s))); auto; [apply HI |].
        rewrite Hkc. unfold cur_key. congruence. }
      now subst c.
Qed.


Lemma dedup_In (x : Z) (l : list Z) : In x (dedup l) <-> In x l.
Proof.
  induction l as [| a l IH]; simpl; [tauto |].
  destruct (existsb (Z.eqb a) l) eqn:E.
  - rewrite IH. split; [tauto |]. intros [-> | H]; [| exact H].
    apply existsb_exists in E as (y & Hy & Hay). apply Z.eqb_eq in Hay. now subst.
  - simpl. rewrite IH. tauto.
Qed.

Lemma dedup_NoDup (l : list Z) : NoDup (dedup l).
Proof.
  induction l as [| a l IH]; simpl; [constructor |].
  destruct (existsb (Z.eqb a) l) eqn:E; [exact IH |].
  constructor; [| exact IH]. rewrite dedup_In. intros Hin.
  assert (Ht : existsb (Z.eqb a) l = true).
  { apply existsb_exists. exists a. split; [exact Hin | apply Z.eqb_refl]. }
  congruence.
Qed.

(** X20. The equality queries never fail and write nothing.  [current_eq]
    returns the records whose current row of the field carries the value,
    [ever_eq] the records that have some fact of the field with the value,
    each once (the [DISTINCT] of the statement).  On a database that
    satisfies the integrity contract every record of [current_eq] is also
    returned by [ever_eq], and [current_eq] lists no record twice. *)
Theorem eq_queries_spec (field_id value_id : Z) (s : FelixSqlite) :
  let hit := fun x => col_field_id x = to_int32 field_id
                      /\ col_value_id x = to_int64 value_id in
  exists cur ever : list Z,
    query_current_eq field_id value_id s = (Ok (map to_uint64 cur), s)
    /\ query_ever_eq field_id value_id s = (Ok (map to_uint64 ever), s)
    /\ (forall r, In r cur <->
          exists x, In x (current_facts (db_ s)) /\ hit x /\ col_record_id x = r)
    /\ (forall r, In r ever <->
          exists x, In x (facts (db_ s)) /\ hit x /\ col_record_id x = r)
    /\ NoDup ever
    /\ (Inv (db_ s) -> incl cur ever /\ NoDup cur).
Proof.
  intros hit.
  set (p := fun x => (col_field_id x =? to_int32 field_id)
                     && (col_value_id x =? to_int64 value_id)).
  assert (Hp : forall x, p x = true <-> hit x).
  { intros x. unfold p, hit. now rewrite andb_true_iff, !Z.eqb_eq. }
  assert (Hin : forall l r, In r (map col_record_id (filter p l)) <->
                  exists x, In x l /\ hit x /\ col_record_id x = r).
  { intros l r. rewrite in_map_iff. split.
    - intros (x & Hr & Hx). apply filter_In in Hx as [Hx Hpx]. exists x.
      rewrite <- Hp. auto.
    - intros (x & Hx & Hh & Hr). exists x. split; [exact Hr |].
      apply filter_In. rewrite Hp. auto. }
  exists (map col_record_id (filter p (current_facts (db_ s)))),
         (dedup (map col_record_id (filter p (facts (db_ s))))).
  split; [| split; [reflexivity | split; [apply Hin | split; [| split]]]].
  - unfold query_current_eq, bind, get_db, ret. simpl. now rewrite map_map.
  - intros r. rewrite dedup_In. apply Hin.
  - apply dedup_NoDup.
  - intros HI. split.
    + intros r Hr. apply dedup_In. apply Hin. apply Hin in Hr as (x & Hx & Hh & Hrx).
      exists x. split; [now apply (inv_current_in_facts _ HI) | auto].
    + pose proof (inv_current_pk _ HI) as Hpk.
      induction (current_facts (db_ s)) as [| a l IH]; simpl; [constructor |].
      simpl in Hpk. inversion Hpk as [| ? ? Hn Hl]; subst.
      destruct (p a) eqn:Ea; [| now apply IH].
      simpl. constructor; [| now apply IH].
      intros Hr. apply in_map_iff in Hr as (b & Hb & Hinb).
      apply filter_In in Hinb as [Hinb Hpb].
      apply Hn. apply in_map_iff. exists b. split; [| exact Hinb].
      apply Hp in Ea, Hpb. destruct Ea as [Ea _], Hpb as [Hpb _].
      unfold cur_key. congruence.
Qed.


(** ** One call of [ingest_items] *)

Lemma ensure_record_format (r ts : Z) (s : FelixSqlite) :
  tagmap_ (snd (ensure_record r ts s)) = tagmap_ s
  /\ hashfmt_ (snd (ensure_record r ts s)) = hashfmt_ s
  /\ null_value_id_ (snd (ensure_record r ts s)) = null_value_id_ s.
Proof.
  unfold ensure_record, bind, get_db, put_db, ret. simpl.
  destruct (existsb _ _); simpl; auto.
Qed.

Lemma ingest_item_parts (L : Lib) (r ts : Z) (mode : TemporalityMode) (it : IngestItem)
    (s s1 : FelixSqlite) :
  ingest_item L r ts mode it s = (Ok tt, s1) ->
  exists fid sa,
    get_or_create_field L (field_name it) s = (Ok fid, sa)
    /\ value_ok (tagmap_ s) (value it) = true /\ appends sa s1.
Proof.
  intros H. unfold ingest_item in H.
  apply bind_ok in H as (fid & sa & Ha & H).
  apply bind_ok in H as (vid & sb & Hb & H).
  apply bind_ok in H as (u & sc & Hc & H).
  pose proof (get_or_create_field_grows L (field_name it) s) as Ga. rewrite Ha in Ga.
  pose proof (get_or_create_value_grows L (value it) sa) as Gb. rewrite Hb in Gb.
  simpl in Ga, Gb.
  exists fid, sa. split; [exact Ha |]. split.
  { apply get_or_create_value_ok in Hb as (Hvok & _).
    destruct Ga as (Gt & _). now rewrite <- Gt. }
  assert (G : appends sa sb) by now apply grows_appends.
  assert (Hsc : sc = sb).
  { destruct mode; unfold bind, get_current, get_db, ret in Hc; simpl in Hc;
      inversion Hc; reflexivity. }
  subst sc. destruct u.
  - unfold ret in H. inversion H; subst. exact G.
  - apply bind_ok in H as ([] & s4 & H4 & H5).
    apply exec_ok in H4 as (d4 & E4 & ->). apply exec_ok in H5 as (d5 & E5 & ->).
    eapply appends_trans; [exact G |].
    apply sql_insert_fact_ok in E4 as (-> & _ & _).
    apply sql_upsert_current_ok in E5 as (rows & ->).
    unfold appends. simpl.
    repeat split; try (exists []; now rewrite app_nil_r). eexists; reflexivity.
Qed.

Lemma ingest_loop_fields (L : Lib) (r ts : Z) (mode : TemporalityMode)
    (items : list IngestItem) (s s' : FelixSqlite) :
  ingest_loop L r ts mode items s = (Ok tt, s') ->
  forall it, In it items ->
    name_ok L (field_name it) = true
    /\ value_ok (tagmap_ s) (value it) = true
    /\ existsb (fun x => bytes_eqb (fields_hash x) (field_hash L (field_name it)))
               (fields (db_ s')) = true.
Proof.
  revert s. induction items as [| it0 rest IH]; simpl; intros s H it Hin; [contradiction |].
  apply bind_ok in H as ([] & s1 & H1 & H2).
  pose proof (ingest_item_appends L r ts mode it0 s s1 H1) as A1.
  pose proof (ingest_loop_appends L r ts mode rest s1 s' H2) as A2.
  destruct Hin as [<- | Hin].
  - apply ingest_item_parts in H1 as (fid & sa & Ha & Hv & A).
    apply get_or_create_field_ok in Ha as (Hok & x & Hx & _).
    split; [exact Hok |]. split; [exact Hv |].
    destruct (appends_trans _ _ _ A A2) as (_ & _ & _ & _ & [l Hl] & _).
    rewrite Hl, existsb_app. now rewrite (find_existsb _ _ _ Hx).
  - destruct (IH s1 H2 it Hin) as (Hn & Hv & Hf).
    split; [exact Hn |]. split; [| exact Hf].
    destruct A1 as (Gt & _). now rewrite <- Gt.
Qed.

(** X21. One call of [ingest_items] is all or nothing.  A call with more
    than 256 items fails with FieldsPerCallExceeded and leaves the store as
    it was, the record row included; any failing call leaves the database
    as it was.  A call that succeeds had at most 256 items, only appended to
    the log tables, left a row of [records] for its record and a row of
    [fields] for every field name it was given (also for items that were
    skipped), and every name and value it was given was acceptable.  A call
    without items only ensures the record. *)
Theorem ingest_items_all_or_nothing (L : Lib) (r ts : Z) (mode : TemporalityMode)
    (items : list IngestItem) (s : FelixSqlite) :
  (256 < Z.of_nat (List.length items) ->
   ingest_items L r ts mode items s = (Err FieldsPerCallExceeded, s))
  /\ (forall e s', ingest_items L r ts mode items s = (Err e, s') -> db_ s' = db_ s)
  /\ (forall s', ingest_items L r ts mode items s = (Ok tt, s') ->
        Z.of_nat (List.length items) <= 256
        /\ store_extends s s'
        /\ existsb (fun x => records_record_id x =? to_int64 r) (records (db_ s')) = true
        /\ forall it, In it items ->
             name_ok L (field_name it) = true
             /\ value_ok (tagmap_ s) (value it) = true
             /\ existsb (fun x => bytes_eqb (fields_hash x) (field_hash L (field_name it)))
                        (fields (db_ s')) = true)
  /\ ingest_items L r ts mode [] s = ensure_record r ts s.
Proof.
  split; [| split; [| split]].
  - intros Hlen. apply Z.ltb_lt in Hlen.
    unfold ingest_items, with_tx, bind.
    pose proof (ensure_record_ok r ts s) as Hok.
    destruct (ensure_record_format r ts s) as (Ft & Fh & Fn).
    destruct (ensure_record r ts s) as [[[] | e] s0]; simpl in *; [| discriminate Hok].
    rewrite Hlen. unfold throw, set_db. rewrite Ft, Fh, Fn. now destruct s.
  - intros e s'. apply with_tx_err.
  - intros s' H. unfold ingest_items, with_tx in H.
    match type of H with
    | context [match ?m s with _ => _ end] => destruct (m s) as [[[] | e] sx] eqn:E
    end; [| discriminate H].
    inversion H; subst sx. clear H.
    apply bind_ok in E as ([] & s0 & E0 & E1).
    destruct (256 <? Z.of_nat (List.length items)) eqn:Hlen; [discriminate E1 |].
    apply Z.ltb_ge in Hlen.
    pose proof (ensure_record_appends r ts s) as A0. rewrite E0 in A0. simpl in A0.
    pose proof (ingest_loop_appends L r ts mode items s0 s' E1) as A1.
    split; [exact Hlen |]. split; [| split].
    + apply appends_extends. eapply appends_trans; eauto.
    + apply (record_stays r s0 s' A1). now apply (ensure_record_ensures r ts s).
    + intros it Hin. destruct (ingest_loop_fields L r ts mode items s0 s' E1 it Hin)
        as (Hn & Hv & Hf).
      split; [exact Hn |]. split; [| exact Hf].
      destruct A0 as (Gt & _). now rewrite <- Gt.
  - unfold ingest_items, with_tx, bind.
    pose proof (ensure_record_ok r ts s) as Hok.
    destruct (ensure_record r ts s) as [[[] | e] s0]; simpl in *; [reflexivity | discriminate Hok].
Qed.


(** ** Late arrivals *)

Lemma sql_upsert_current_cases (r : SqlFact) (d d' : DB) :
  NoDup (map cur_key (current_facts d)) ->
  sql_upsert_current r d = Ok d' ->
  (forall c, In c (current_facts d) -> cur_key c = cur_key r -> col_ts r < col_ts c ->
     d' = d)
  /\ ((forall c, In c (current_facts d) -> cur_key c = cur_key r -> col_ts c <= col_ts r) ->
      In r (current_facts d')
      /\ forall c, In c (current_facts d') -> c = r \/ In c (current_facts d)).
Proof.
  intros Hnd H. unfold sql_upsert_current in H.
  destruct (find (same_current_key r) (current_facts d)) as [x |] eqn:Ef.
  - apply find_key_some in Ef as Hx. destruct Hx as [Hx Hkx].
    assert (Hu : forall c, In c (current_facts d) -> cur_key c = cur_key r -> c = x).
    { intros c Hc Hk. apply (key_unique cur_key (current_facts d)); auto. congruence. }
    destruct (col_ts r >=? col_ts x) eqn:Ege.
    + apply Z.geb_le in Ege.
      destruct (fk_ok d r); [| discriminate H]. inversion H; subst d'. simpl. split.
      * intros c Hc Hk Hlt. rewrite (Hu c Hc Hk) in Hlt. lia.
      * intros _. split; [now apply (update_current_new r x) |].
        intros c Hc. apply update_current_in in Hc. tauto.
    + inversion H; subst d'. split; [reflexivity |].
      intros Hall. specialize (Hall x Hx Hkx).
      rewrite Z.geb_leb in Ege. apply Z.leb_gt in Ege. lia.
  - apply find_key_none in Ef.
    destruct (fk_ok d r); [| discriminate H]. inversion H; subst d'. simpl. split.
    + intros c Hc Hk _. exfalso. apply Ef. rewrite <- Hk. now apply in_map.
    + intros _. split; [apply in_or_app; right; now left |].
      intros c Hc. apply in_app_or in Hc as [Hc | [Hc | []]]; auto.
Qed.

(** X22. What one ingested item does to the log and to the current view, on
    a store whose current view has one row per (record, field).  The field
    name and the value are interned first.  Then either the item is skipped
    (EventDriven only) and both tables stay as they are, or exactly one
    fact, made of the call's record and timestamp and of the two ids, is
    appended to [facts]; in that case, if the pair already has a current row
    with a later timestamp, [current_facts] is left as it is (a late arrival
    only enters the log), and otherwise the new fact is the pair's current
    row and every other current row is an old one. *)
Theorem late_arrival_keeps_current (L : Lib) (r ts : Z) (mode : TemporalityMode)
    (it : IngestItem) (s s' : FelixSqlite) :
  NoDup (map cur_key (current_facts (db_ s))) ->
  ingest_item L r ts mode it s = (Ok tt, s') ->
  exists fid vid sa sb,
    get_or_create_field L (field_name it) s = (Ok fid, sa)
    /\ get_or_create_value L (value it) sa = (Ok vid, sb)
    /\ let row := sql_of_fact (mkFactRow r fid vid ts) in
       (mode = EventDriven /\ facts (db_ s') = facts (db_ s)
        /\ current_facts (db_ s') = current_facts (db_ s))
       \/ (facts (db_ s') = (facts (db_ s) ++ [row])%list
           /\ (forall c, In c (current_facts (db_ s)) -> cur_key c = cur_key row ->
                 ts < col_ts c -> current_facts (db_ s') = current_facts (db_ s))
           /\ ((forall c, In c (current_facts (db_ s)) -> cur_key c = cur_key row ->
                  col_ts c <= ts) ->
               In row (current_facts (db_ s'))
               /\ forall c, In c (current_facts (db_ s')) ->
                    c = row \/ In c (current_facts (db_ s)))).
Proof.
  intros Hnd H. unfold ingest_item in H.
  apply bind_ok in H as (fid & sa & Ha & H).
  apply bind_ok in H as (vid & sb & Hb & H).
  apply bind_ok in H as (u & sc & Hc & H).
  exists fid, vid, sa, sb. split; [exact Ha |]. split; [exact Hb |].
  pose proof (get_or_create_field_grows L (field_name it) s) as Ga. rewrite Ha in Ga.
  pose proof (get_or_create_value_grows L (value it) sa) as Gb. rewrite Hb in Gb.
  simpl in Ga, Gb.
  destruct (grows_trans _ _ _ Ga Gb) as (_ & _ & _ & _ & Gf & Gc & _).
  assert (Hsc : sc = sb).
  { destruct mode; unfold bind, get_current, get_db, ret in Hc; simpl in Hc;
      inversion Hc; reflexivity. }
  subst sc. intros row. destruct u.
  - left. unfold ret in H. inversion H; subst s'.
    destruct mode; [auto |]. unfold ret in Hc. discriminate Hc.
  - right. apply bind_ok in H as ([] & s4 & H4 & H5).
    apply exec_ok in H4 as (d4 & E4 & ->). apply exec_ok in H5 as (d5 & E5 & ->).
    apply sql_insert_fact_ok in E4 as (-> & _ & _). simpl in E5. fold row in E5.
    assert (Hnd4 : NoDup (map cur_key (current_facts
                     (with_facts (db_ sb) (facts (db_ sb) ++ [row]))))).
    { simpl. now rewrite Gc. }
    destruct (sql_upsert_current_cases row _ d5 Hnd4 E5) as [Hlate Hnew].
    simpl in Hlate, Hnew. rewrite Gc in Hlate, Hnew.
    assert (Hf5 : facts d5 = (facts (db_ s) ++ [row])%list).
    { apply sql_upsert_current_ok in E5 as (rows & ->). simpl. now rewrite Gf. }
    simpl. split; [exact Hf5 |]. split.
    + intros c Hc0 Hk Hlt. rewrite (Hlate c Hc0 Hk Hlt). simpl. exact Gc.
    + intros Hall. apply Hnew. exact Hall.
Qed.

Lemma late_arrival_keeps_current_witness :
  let s := open_store (run_ops ascii_lib no_files (firstn 2 example_ops) empty_db) in
  let it := mkItem "Name" (with_text (cv_init Text) "Leia") in
  let s' := snd (ingest_item ascii_lib 1 500 ObservationDriven it s) in
  facts (db_ s') = (facts (db_ s) ++ [mkSqlFact 1 1 4 500])%list
  /\ current_facts (db_ s') = current_facts (db_ s).
Proof.
  intros s it s'.
  assert (Hnd : NoDup (map cur_key (current_facts (db_ s)))).
  { vm_compute. repeat constructor; simpl; intuition discriminate. }
  assert (Hrun : ingest_item ascii_lib 1 500 ObservationDriven it s = (Ok tt, s'))
    by (vm_compute; reflexivity).
  destruct (late_arrival_keeps_current ascii_lib 1 500 ObservationDriven it s s' Hnd Hrun)
    as (fid & vid & sa & sb & Ha & Hb & [(Hm & _) | (Hf & Hlate & _)]);
    [discriminate Hm |].
  assert (Efid : fid = 1) by (vm_compute in Ha; congruence).
  subst fid.
  assert (Evid : vid = 4).
  { assert (Esa : sa = s) by (vm_compute in Ha; vm_compute; congruence).
    subst sa. vm_compute in Hb. congruence. }
  subst vid. split; [exact Hf |].
  apply (Hlate (mkSqlFact 1 1 2 1000)); [vm_compute; left; reflexivity | reflexivity | simpl; lia].
Defined.


(** ** NDJSON files *)

Lemma ingest_ndjson_lines_app (L : Lib) (l1 l2 : list string) (mode : TemporalityMode)
    (s : FelixSqlite) :
  ingest_ndjson_lines L (l1 ++ l2) mode s
  = (ingest_ndjson_lines L l1 mode ;;; ingest_ndjson_lines L l2 mode) s.
Proof.
  revert s. induction l1 as [| line rest IH]; intros s; [reflexivity |].
  cbn [app ingest_ndjson_lines].
  destruct (2 * 1024 * 1024 <? Z.of_nat (size line)); [reflexivity |].
  destruct (Nat.eqb (size (trim_copy line)) 0); [apply IH |].
  destruct (json_parse L (trim_copy line)) as [j |]; [| reflexivity].
  destruct (negb _); [reflexivity |].
  unfold bind, lift in *.
  destruct (rbind (jat j "record_id") _) as [rid | e]; [| reflexivity].
  destruct (rbind (jat j "ts_ms") _) as [ts | e]; [| reflexivity].
  destruct (if jcontains j "mode" then _ else _) as [m | e]; [| reflexivity].
  destruct (jat j "fields") as [fj | e]; [| reflexivity].
  destruct fj; try reflexivity.
  destruct (mapM _ _) as [items | e]; [| reflexivity].
  destruct (ingest_items L rid ts m items s) as [[[] | e] s1]; [| reflexivity].
  rewrite IH. reflexivity.
Qed.

Lemma ingest_ndjson_line_err (L : Lib) (line : string) (mode : TemporalityMode)
    (s s' : FelixSqlite) (e : Error) :
  ingest_ndjson_lines L [line] mode s = (Err e, s') -> db_ s' = db_ s.
Proof.
  cbn [ingest_ndjson_lines].
  destruct (2 * 1024 * 1024 <? Z.of_nat (size line));
    [unfold throw; intros H; now inversion H |].
  destruct (Nat.eqb (size (trim_copy line)) 0); [unfold ret; discriminate |].
  destruct (json_parse L (trim_copy line)) as [j |];
    [| unfold throw; intros H; now inversion H].
  destruct (negb _); [unfold throw; intros H; now inversion H |].
  unfold bind, lift, throw, ret.
  destruct (rbind (jat j "record_id") _) as [rid | e0]; [| intros H; now inversion H].
  destruct (rbind (jat j "ts_ms") _) as [ts | e0]; [| intros H; now inversion H].
  destruct (if jcontains j "mode" then _ else _) as [m | e0]; [| intros H; now inversion H].
  destruct (jat j "fields") as [fj | e0]; [| intros H; now inversion H].
  destruct fj; try (intros H; now inversion H).
  destruct (mapM _ _) as [items | e0]; [| intros H; now inversion H].
  destruct (ingest_items L rid ts m items s) as [[[] | e0] s1] eqn:E; [discriminate |].
  intros H. inversion H; subst. eapply with_tx_err. exact E.
Qed.

(** X23. An NDJSON file is ingested line by line, one transaction per line,
    and not as a whole.  The run over [l1 ++ l2] is the run over [l1]
    followed, if that succeeded, by the run over [l2] from the store it left.
    A line of at most 2 MiB that is blank after trimming is skipped; a line
    of more than 2 MiB fails with LineTooLarge before it is looked at.  When
    a line fails, the run fails with that line's error and the database is
    the one the lines before it left: their facts stay committed, the
    failing line contributes nothing, and the lines after it are not read.
    A file that cannot be opened fails without touching the store. *)
Theorem ndjson_line_by_line (L : Lib) (read_lines : string -> option (list string))
    (mode : TemporalityMode) (line : string) (l1 l2 : list string) (s : FelixSqlite) :
  ingest_ndjson_lines L (l1 ++ l2) mode s
  = (ingest_ndjson_lines L l1 mode ;;; ingest_ndjson_lines L l2 mode) s
  /\ (Z.of_nat (size line) <= 2 * 1024 * 1024 -> trim_copy line = "" ->
      ingest_ndjson_lines L (line :: l2) mode s = ingest_ndjson_lines L l2 mode s)
  /\ (2 * 1024 * 1024 < Z.of_nat (size line) ->
      ingest_ndjson_lines L (line :: l2) mode s = (Err LineTooLarge, s))
  /\ (forall s1 s2 e,
        ingest_ndjson_lines L l1 mode s = (Ok tt, s1) ->
        ingest_ndjson_lines L [line] mode s1 = (Err e, s2) ->
        ingest_ndjson_lines L (l1 ++ line :: l2) mode s = (Err e, s2)
        /\ db_ s2 = db_ s1)
  /\ (forall path, read_lines path = None ->
        ingest_ndjson_file L read_lines path mode s = (Err StorageError, s)).
Proof.
  split; [apply ingest_ndjson_lines_app |]. split; [| split; [| split]].
  - intros Hsz Ht. cbn [ingest_ndjson_lines].
    apply Z.ltb_ge in Hsz. rewrite Hsz, Ht. reflexivity.
  - intros Hsz. cbn [ingest_ndjson_lines]. apply Z.ltb_lt in Hsz. now rewrite Hsz.
  - intros s1 s2 e H1 H2. split; [| now apply (ingest_ndjson_line_err L line mode s1 s2 e)].
    rewrite ingest_ndjson_lines_app, (bind_run _ _ _ _ _ H1).
    change (line :: l2) with ([line] ++ l2)%list.
    rewrite ingest_ndjson_lines_app. now apply bind_err.
  - intros path Hp. unfold ingest_ndjson_file. now rewrite Hp.
Qed.


(** ** The command line *)

Lemma same_meta_stamped (d d' : DB) : meta d' = meta d -> stamped d -> stamped d'.
Proof. unfold stamped, meta_lookup. now intros ->. Qed.

Lemma ingest_items_meta (L : Lib) (r ts : Z) (mode : TemporalityMode)
    (items : list IngestItem) (s : FelixSqlite) :
  meta (db_ (snd (ingest_items L r ts mode items s))) = meta (db_ s).
Proof.
  unfold ingest_items, with_tx.
  match goal with
  | |- context [match ?m s with _ => _ end] => destruct (m s) as [[[] | e] s1] eqn:E
  end; simpl; [| reflexivity].
  apply bind_ok in E as ([] & s0 & E0 & E1).
  pose proof (ensure_record_appends r ts s) as H0. rewrite E0 in H0. simpl in H0.
  destruct (256 <? Z.of_nat (Datatypes.length items)); [discriminate E1 |].
  apply ingest_loop_appends in E1.
  destruct (appends_trans _ _ _ H0 E1) as (_ & _ & Hm & _). exact Hm.
Qed.

Lemma rebuild_meta (s : FelixSqlite) :
  meta (db_ (snd (rebuild_current_facts s))) = meta (db_ s).
Proof.
  unfold rebuild_current_facts.
  rewrite (bind_run _ _ s (set_db (with_current (db_ s) []) s) tt)
    by (now apply exec_run_ok).
  set (s1 := set_db (with_current (db_ s) []) s).
  match goal with |- context [exec ?st s1] => destruct (exec st s1) as [[[] | e] s2] eqn:E end.
  - apply exec_ok in E as (d' & E & ->). apply insert_all_current_rows in E as (c & ->).
    reflexivity.
  - apply exec_err in E as (_ & ->). reflexivity.
Qed.

Lemma run_command_keeps_stamp (L : Lib) (read_lines : string -> option (list string))
    (argv : list string) :
  always keeps_stamp (run_command L read_lines argv).
Proof.
  apply run_command_always; unfold keeps_stamp.
  - auto.
  - auto.
  - intros s _. destruct (init_schema_facts L s) as (_ & _ & _ & _ & H1 & H2 & _).
    split; assumption.
  - intros r ts mode items s. apply same_meta_stamped, ingest_items_meta.
  - intros name s. apply same_meta_stamped.
    destruct (get_or_create_field_grows L name s) as (_ & _ & Hm & _). exact Hm.
  - intros cv s. apply same_meta_stamped.
    destruct (get_or_create_value_grows L cv s) as (_ & _ & Hm & _). exact Hm.
  - intros s. apply same_meta_stamped, rebuild_meta.
Qed.

(** Every command starts with [init_schema], which a store that has run it
    repeats without effect. *)
Lemma run_command_after_init (L : Lib) (read_lines : string -> option (list string))
    (argv : list string) (s : FelixSqlite) :
  run_command L read_lines argv s
  = run_command L read_lines argv (snd (init_schema L s)).
Proof.
  destruct (init_schema_facts L s) as (Hok & _ & _ & _ & _ & _ & _ & _ & _ & _ & Hid).
  assert (Hrun : init_schema L s = (Ok tt, snd (init_schema L s))).
  { destruct (init_schema L s) as [[[] | e] s1]; simpl in *; [reflexivity | discriminate]. }
  unfold run_command.
  destruct (String.eqb (arg argv 2) "init");
    now rewrite (bind_run _ _ _ _ _ Hrun), (bind_run _ _ _ _ _ Hid).
Qed.

Lemma run_command_stamps (L : Lib) (read_lines : string -> option (list string))
    (argv : list string) (s : FelixSqlite) :
  stamped (db_ (snd (run_command L read_lines argv s))).
Proof.
  rewrite run_command_after_init.
  apply run_command_keeps_stamp.
  destruct (init_schema_facts L s) as (_ & _ & _ & _ & H1 & H2 & _). split; assumption.
Qed.

Lemma run_command_usage (L : Lib) (read_lines : string -> option (list string))
    (argv : list string) (s s' : FelixSqlite) :
  run_command L read_lines argv s = (Ok Usage, s') -> s' = snd (init_schema L s).
Proof.
  unfold run_command. intros H.
  assert (Hdone : forall (A : Type) (m : M A) (o : Output) (s0 s1 : FelixSqlite),
            (m ;;; ret (Done o)) s0 = (Ok Usage, s1) -> False).
  { intros A m o s0 s1 E. apply bind_ok in E as (a & s2 & _ & E).
    unfold ret in E. inversion E. }
  destruct (String.eqb (arg argv 2) "init"); [exfalso; eapply Hdone; exact H |].
  apply bind_ok in H as ([] & s1 & H1 & H).
  assert (Es : s1 = snd (init_schema L s)) by now rewrite H1.
  assert (Hus : forall s0, @ret Outcome Usage s0 = (Ok Usage, s') -> s' = s0)
    by (intros s0 E; unfold ret in E; now inversion E).
  destruct (String.eqb (arg argv 2) "ingest").
  { destruct (Nat.ltb _ 7); [rewrite <- Es; now apply Hus |]. exfalso.
    repeat (apply bind_ok in H as (? & ? & _ & H)).
    unfold ret in H. inversion H. }
  destruct (String.eqb (arg argv 2) "ingest_ndjson").
  { destruct (Nat.ltb _ 4); [rewrite <- Es; now apply Hus |]. exfalso.
    repeat (apply bind_ok in H as (? & ? & _ & H)).
    unfold ret in H. inversion H. }
  destruct (String.eqb (arg argv 2) "current_eq" || String.eqb (arg argv 2) "ever_eq").
  { destruct (Nat.ltb _ 5); [rewrite <- Es; now apply Hus |]. exfalso.
    repeat (apply bind_ok in H as (? & ? & _ & H)).
    unfold ret in H. inversion H. }
  destruct (String.eqb (arg argv 2) "facts_window").
  { destruct (Nat.ltb _ 5); [rewrite <- Es; now apply Hus |]. exfalso.
    repeat (apply bind_ok in H as (? & ? & _ & H)).
    unfold ret in H. inversion H. }
  destruct (String.eqb (arg argv 2) "snapshot").
  { destruct (Nat.ltb _ 5); [rewrite <- Es; now apply Hus |]. exfalso.
    repeat (apply bind_ok in H as (? & ? & _ & H)).
    unfold ret in H. inversion H. }
  destruct (String.eqb (arg argv 2) "rebuild_current"); [| rewrite <- Es; now apply Hus].
  exfalso. eapply Hdone; exact H.
Qed.

(** X24. Exit codes and side effects of [run_felix].  The exit code is 0, 1
    or 2.  With fewer than three arguments the usage exit 2 is taken and the
    database is not touched.  With three or more, [init_schema] runs before
    the command is even looked at: whatever the command and its outcome, the
    database afterwards declares the felix_v03 format; every usage exit (an
    unknown command, a known command with too few arguments) leaves the
    database as [init] would, and so does [init] itself, which exits with
    0. *)
Theorem run_felix_exit_codes (L : Lib) (read_lines : string -> option (list string))
    (argv : list string) (d : DB) :
  let code := fst (fst (run_felix L read_lines argv d)) in
  let d' := snd (run_felix L read_lines argv d) in
  let d_init := db_ (snd (init_schema L (open_store d))) in
  (code = 0 \/ code = 1 \/ code = 2)
  /\ ((List.length argv < 3)%nat -> code = 2 /\ d' = d)
  /\ ((3 <= List.length argv)%nat -> stamped d')
  /\ ((3 <= List.length argv)%nat -> code = 2 -> d' = d_init)
  /\ ((3 <= List.length argv)%nat -> known_command (arg argv 2) = false ->
      code = 2 /\ d' = d_init)
  /\ ((3 <= List.length argv)%nat -> arg argv 2 = "init" -> code = 0 /\ d' = d_init).
Proof.
  intros code d' d_init. unfold code, d', run_felix.
  destruct (Nat.ltb (List.length argv) 3) eqn:Hlen.
  - apply Nat.ltb_lt in Hlen. simpl.
    repeat split; auto; try lia; try discriminate; try congruence.
  - apply Nat.ltb_ge in Hlen.
    pose proof (run_command_stamps L read_lines argv (open_store d)) as Hst.
    pose proof (run_command_usage L read_lines argv (open_store d)) as Hus.
    destruct (init_schema_facts L (open_store d)) as (Hok & _).
    assert (Hrun : init_schema L (open_store d)
                   = (Ok tt, snd (init_schema L (open_store d)))).
    { destruct (init_schema L (open_store d)) as [[[] | e] s1]; simpl in *;
        [reflexivity | discriminate]. }
    split; [| split; [| split; [| split; [| split]]]].
    + destruct (run_command L read_lines argv (open_store d)) as [[[o |] | e] s1]; simpl; auto.
    + intros Hlt. lia.
    + intros _.
      destruct (run_command L read_lines argv (open_store d)) as [[[o |] | e] s1];
        simpl in *; exact Hst.
    + intros _.
      destruct (run_command L read_lines argv (open_store d)) as [[[o |] | e] s1];
        simpl; try discriminate.
      intros _. unfold d_init. now rewrite (Hus s1 eq_refl).
    + intros _ Hk. unfold known_command in Hk. simpl in Hk.
      repeat (apply orb_false_elim in Hk as [? Hk]).
      unfold run_command.
      repeat match goal with
             | H : String.eqb (arg argv 2) _ = false |- _ => rewrite H; clear H
             end.
      cbn [orb]. cbv iota.
      rewrite (bind_run (init_schema L) (fun _ => ret Usage) _ _ _ Hrun). simpl. auto.
    + intros _ Hc. unfold run_command. rewrite Hc, String.eqb_refl.
      rewrite (bind_run (init_schema L)
                 (fun _ => ret (Done (OutMsg "ok: initialized schema"))) _ _ _ Hrun).
      simpl. auto.
Qed.


(** ** Reading interned rows back *)

Lemma next_rowid_above (ids : list Z) :
  0 < next_rowid ids /\ forall i, In i ids -> i < next_rowid ids.
Proof.
  unfold next_rowid. induction ids as [| a ids [IH0 IH]]; cbn [fold_right In].
  - split; [lia | intros i []].
  - split; [lia |]. intros i [<- | Hi]; [lia |]. specialize (IH i Hi). lia.
Qed.

Lemma find_new_id {A : Type} (key : A -> Z) (l : list A) (x : A) :
  key x = next_rowid (map key l) ->
  find (fun y => key y =? key x) (l ++ [x]) = Some x.
Proof.
  intros Hk. apply find_snoc_new; [| apply Z.eqb_refl].
  destruct (existsb (fun y => key y =? key x) l) eqn:E; [| reflexivity].
  apply existsb_exists in E as (y & Hy & Hyx). apply Z.eqb_eq in Hyx.
  destruct (next_rowid_above (map key l)) as [_ Hlt].
  specialize (Hlt (key y) (in_map key l y Hy)). lia.
Qed.

Lemma tag_read_back (tm : TagMapVersion) (t : LogicalType) (tag : Z) :
  type_tag_byte tm t = Ok tag -> logical_type_from_tag tm (tag mod 2 ^ 8) = Ok t.
Proof. destruct tm, t; simpl; intros H; inversion H; reflexivity. Qed.

Lemma small_id_casts (id : Z) :
  0 < id ->
  (id < 2 ^ 31 -> to_uint32 id = id /\ to_int32 id = id)
  /\ (id < 2 ^ 63 -> to_uint64 id = id /\ to_int64 id = id).
Proof.
  intros H0. unfold to_uint32, to_int32, to_uint64, to_int64.
  split; intros H; rewrite !Z.mod_small by lia; lia.
Qed.

(** X25. A row that interning has just created reads back.  When a field
    name (a value) is not yet in the table and the row id it receives fits
    the C++ type the id is carried in ([int] for a field, [int64] for a
    value), [get_or_create_field] ([get_or_create_value]) returns that row
    id, one more than the greatest id of the table, and [get_field]
    ([get_value]) of that id returns the canonical name (the type and the
    canonical text of the value) up to the first NUL byte; a Bytes value
    reads back with an empty text. *)
Theorem intern_read_back (L : Lib) (name : string) (cv : CanonValue) (s : FelixSqlite) :
  let fid := next_rowid (map fields_field_id (fields (db_ s))) in
  let vid := next_rowid (map values_value_id (f_values (db_ s))) in
  (name_ok L name = true ->
   existsb (fun x => bytes_eqb (fields_hash x) (field_hash L name)) (fields (db_ s)) = false ->
   fid < 2 ^ 31 ->
   exists s1,
     get_or_create_field L name s = (Ok fid, s1)
     /\ get_field fid s1
        = (Ok (mkFieldRow fid (c_str (nfc_normalize_utf8 L (trim_copy name)))), s1))
  /\ (value_ok (tagmap_ s) cv = true ->
      existsb (fun x => bytes_eqb (values_hash x)
                          (value_hash L (tagmap_ s) (hashfmt_ s) cv))
              (f_values (db_ s)) = false ->
      vid < 2 ^ 63 ->
      exists s1,
        get_or_create_value L cv s = (Ok vid, s1)
        /\ get_value vid s1
           = (Ok (mkValueRow vid (logical_type cv)
                    (if LogicalType_eqb (logical_type cv) Bytes then ""
                     else c_str (canon_text cv))), s1)).
Proof.
  intros fid vid. split.
  - intros Hok Hnew Hfit.
    destruct (next_rowid_above (map fields_field_id (fields (db_ s)))) as [H0 _].
    destruct (small_id_casts fid H0) as [Hc _]. destruct (Hc Hfit) as [Hu Hi].
    pose proof (get_or_create_field_new L name s Hok Hnew) as Hrun. cbv zeta in Hrun.
    simpl fields_field_id in Hrun. fold fid in Hrun. rewrite Hu in Hrun.
    eexists. split; [exact Hrun |].
    unfold get_field, bind, get_db. simpl. rewrite Hi.
    set (row := mkFieldsRow fid (c_str (nfc_normalize_utf8 L (trim_copy name)))
                  (field_hash L name)).
    assert (Hf : find (fun x => fields_field_id x =? fields_field_id row)
                   (fields (db_ s) ++ [row]) = Some row)
      by (apply find_new_id; reflexivity).
    simpl fields_field_id in Hf at 2. rewrite Hf. simpl. rewrite Hu. reflexivity.
  - intros Hok Hnew Hfit.
    destruct (next_rowid_above (map values_value_id (f_values (db_ s)))) as [H0 _].
    destruct (small_id_casts vid H0) as [_ Hc]. destruct (Hc Hfit) as [Hu Hi].
    destruct (value_ok_spec _ _ Hok) as (_ & _ & tag & Htag).
    pose proof (sha256_typed_ok L (tagmap_ s) (hashfmt_ s) cv tag Htag) as Hh.
    assert (Hvh : value_hash L (tagmap_ s) (hashfmt_ s) cv
                  = sha256_bytes L ([byte_of_Z tag]
                      ++ (match hashfmt_ s with FelixV03Sep => [x00] | LegacyNoSep => [] end)
                      ++ canon_bytes_of cv)%list)
      by (unfold value_hash; now rewrite Hh).
    rewrite Hvh in Hnew.
    pose proof (get_or_create_value_new L cv s _ tag Hok Hh Htag Hnew) as Hrun.
    cbv zeta in Hrun. simpl values_value_id in Hrun. fold vid in Hrun. rewrite Hu in Hrun.
    eexists. split; [exact Hrun |].
    unfold get_value, bind, get_db. cbn [db_ set_db f_values with_values fst snd].
    rewrite Hi.
    match goal with
    | |- context [(f_values (db_ s) ++ [?r])%list] => set (row := r)
    end.
    assert (Hf : find (fun x => values_value_id x =? values_value_id row)
                   (f_values (db_ s) ++ [row]) = Some row)
      by (apply find_new_id; reflexivity).
    simpl values_value_id in Hf at 2. rewrite Hf. unfold lift, ret.
    cbn [tagmap_ set_db values_type_tag values_value_id values_canon_text row].
    rewrite (tag_read_back _ _ _ Htag). cbn [fst snd]. rewrite Hu.
    destruct (LogicalType_eqb (logical_type cv) Bytes); reflexivity.
Qed.

Lemma intern_read_back_witness :
  let s := fresh_store ascii_lib in
  (exists s1, get_or_create_field ascii_lib " Name" s = (Ok 1, s1)
              /\ get_field 1 s1 = (Ok (mkFieldRow 1 "Name"), s1))
  /\ (exists s1, get_or_create_value ascii_lib luke s = (Ok 2, s1)
                 /\ get_value 2 s1 = (Ok (mkValueRow 2 Text "Luke"), s1)).
Proof.
  intros s.
  destruct (intern_read_back ascii_lib " Name" luke s) as [Hf Hv]. split.
  - apply Hf; [reflexivity | reflexivity | vm_compute; reflexivity].
  - apply Hv; [reflexivity | reflexivity | vm_compute; reflexivity].
Defined.


(** ** Typed values on the command line *)

(** X26. The typed value of a query ([type:value]) is read as the right-hand
    side of an ingest token is: [parse_typed_kv] on [Field=tv] is
    [parse_cli_type_value] on [tv] with the trimmed field name put beside
    it.  The text is cut at its first [:]; the type name is trimmed, the
    value text is passed on as it is.  Without a [:] the whole text is the
    type name and the value text is empty, so that [null] is the Null value
    while [bool] and [int] are refused. *)
Theorem cli_typed_value (L : Lib) (field type_s value_s tv : string) :
  (~ has_char "=" field ->
   parse_typed_kv L (field ++ "=" ++ tv)
   = (let! cv := parse_cli_type_value L tv in Ok (mkItem (trim_copy field) cv)))
  /\ (~ has_char ":" type_s ->
      parse_cli_type_value L (type_s ++ ":" ++ value_s)
      = (let! t := parse_type type_s in canonicalize_typed_value L t value_s))
  /\ (~ has_char ":" tv ->
      parse_cli_type_value L tv
      = (let! t := parse_type tv in canonicalize_typed_value L t ""))
  /\ parse_cli_type_value L " null " = Ok (with_text (cv_init Null) "null")
  /\ parse_cli_type_value L "bool" = Err BadBool
  /\ parse_cli_type_value L "int" = Err BadInt
  /\ parse_cli_type_value L "json:{}" = Err ReservedType.
Proof.
  assert (Hpt : forall s, parse_type (trim_copy s) = parse_type s).
  { intros s. unfold parse_type. now rewrite trim_copy_idem. }
  split; [| split; [| split]].
  - intros Hf. unfold parse_typed_kv, parse_cli_type_value. simpl String.append.
    rewrite (find_char_app "=" field _ Hf), substring_prefix, substr_from_suffix.
    destruct (split_once tv ":") as [ts vs].
    destruct (parse_type (trim_copy ts)) as [t | e]; [| reflexivity]. simpl.
    destruct (canonicalize_typed_value L t vs); reflexivity.
  - intros Ht. unfold parse_cli_type_value. simpl String.append.
    rewrite (split_once_at ":" type_s value_s Ht). now rewrite Hpt.
  - intros Ht. unfold parse_cli_type_value, split_once.
    apply find_char_none in Ht. rewrite Ht. now rewrite Hpt.
  - repeat split; reflexivity.
Qed.


(** ** Base64 payloads *)

Lemma strip_ws4_app (a b : string) : strip_ws4 (a ++ b) = strip_ws4 a ++ strip_ws4 b.
Proof.
  induction a as [| c a IH]; simpl; [reflexivity |].
  destruct (is_ws4 c); simpl; now rewrite IH.
Qed.

Lemma strip_ws4_blank (w : string) : all_ws4 w = true -> strip_ws4 w = "".
Proof.
  unfold all_ws4. induction w as [| c w IH]; simpl; [reflexivity |].
  intros H. apply andb_prop in H as [Hc Hw]. rewrite Hc. now apply IH.
Qed.

Lemma strip_ws4_idem (s : string) : strip_ws4 (strip_ws4 s) = strip_ws4 s.
Proof.
  induction s as [| c s IH]; simpl; [reflexivity |].
  destruct (is_ws4 c) eqn:E; [exact IH |]. simpl. now rewrite E, IH.
Qed.

(** X27. [base64_decode_strict] ignores spaces, tabs, carriage returns and
    line feeds wherever they stand in the payload (and no other character:
    a vertical tab or a form feed is handed to the decoder): inserting such
    characters anywhere does not change the result.  A payload that is empty
    or made of such characters only decodes to the empty byte string.  The
    only error is BadBase64, and a result is never longer than what the
    block decoder wrote. *)
Theorem base64_ignores_blanks (L : Lib) (a w b : string) :
  (all_ws4 w = true ->
   base64_decode_strict L (a ++ w ++ b) = base64_decode_strict L (a ++ b))
  /\ (all_ws4 w = true -> base64_decode_strict L w = Ok [])
  /\ base64_decode_strict L (strip_ws4 a) = base64_decode_strict L a
  /\ (forall e, base64_decode_strict L a = Err e -> e = BadBase64)
  /\ (forall out, base64_decode_strict L a = Ok out ->
        out = []
        \/ exists raw, evp_decode_block L (strip_ws4 a) = Some raw
                       /\ (List.length raw - 2 <= List.length out <= List.length raw)%nat
                       /\ out = firstn (List.length out) raw).
Proof.
  split; [| split; [| split; [| split]]].
  - intros Hw. unfold base64_decode_strict.
    now rewrite !strip_ws4_app, (strip_ws4_blank w Hw).
  - intros Hw. unfold base64_decode_strict. now rewrite (strip_ws4_blank w Hw).
  - unfold base64_decode_strict. now rewrite strip_ws4_idem.
  - intros e. unfold base64_decode_strict.
    destruct (Nat.eqb _ 0); [discriminate |].
    destruct (evp_decode_block L _); [| intros H; now inversion H].
    destruct (Nat.ltb _ _); intros H; now inversion H.
  - intros out. unfold base64_decode_strict.
    destruct (Nat.eqb _ 0); [intros H; inversion H; now left |].
    destruct (evp_decode_block L (strip_ws4 a)) as [raw |]; [| discriminate].
    set (pad := (_ + _)%nat).
    assert (Hpad : (pad <= 2)%nat).
    { unfold pad. destruct (Ascii.eqb _ _); destruct (_ && _); simpl; lia. }
    destruct (Nat.ltb (List.length raw) pad) eqn:E; [discriminate |].
    apply Nat.ltb_ge in E. intros H. inversion H; subst out. right.
    exists raw. split; [reflexivity |].
    rewrite length_firstn. split; [lia |].
    f_equal. lia.
Qed.


(** ** Rebuilding the current view from the log *)

(** Every group of a finite table has a row of greatest [ts]. *)
Lemma group_has_max (rows : list SqlFact) (k : Z * Z) :
  (exists x, In x rows /\ cur_key x = k) ->
  exists c, In c rows /\ cur_key c = k
            /\ forall x, In x rows -> cur_key x = k -> col_ts x <= col_ts c.
Proof.
  induction rows as [| a l IH]; intros (x & Hx & Hk); [contradiction |].
  destruct (existsb (fun y => same_current_key y x) l) eqn:E.
  - apply existsb_exists in E as (y & Hy & Hyk). apply same_current_key_eq in Hyk.
    destruct IH as (c & Hc & Hck & Hmax); [exists y; split; [exact Hy | congruence] |].
    destruct (same_current_key a x && (col_ts c <? col_ts a)) eqn:Ea.
    + apply andb_prop in Ea as [Eak Elt]. apply same_current_key_eq in Eak.
      apply Z.ltb_lt in Elt.
      exists a. split; [now left |]. split; [congruence |].
      intros z [<- | Hz] Hzk; [lia |]. specialize (Hmax z Hz Hzk). lia.
    + exists c. split; [now right |]. split; [exact Hck |].
      intros z [<- | Hz] Hzk; [| now apply Hmax].
      apply andb_false_iff in Ea as [Ea | Ea].
      * exfalso. assert (H : same_current_key a x = true)
          by (apply same_current_key_eq; congruence). congruence.
      * apply Z.ltb_ge in Ea. exact Ea.
  - assert (Hno : forall y, In y l -> cur_key y <> k).
    { intros y Hy Hyk.
      assert (H : existsb (fun y => same_current_key y x) l = true).
      { apply existsb_exists. exists y. split; [exact Hy |].
        apply same_current_key_eq. congruence. }
      congruence. }
    destruct Hx as [<- | Hx]; [| exfalso; exact (Hno x Hx Hk)].
    exists a. split; [now left |]. split; [exact Hk |].
    intros z [<- | Hz] Hzk; [lia | exfalso; exact (Hno z Hz Hzk)].
Qed.

Lemma Inv_of_log (d : DB) :
  NoDup (map fact_key (facts d)) ->
  (forall f, In f (facts d) -> fk_ok d f = true) ->
  Inv (with_current d (spec_rebuild (facts d))).
Proof.
  intros Hpk Hfk. constructor; simpl.
  - exact Hpk.
  - now apply spec_rebuild_keys.
  - intros c Hc. unfold spec_rebuild in Hc. now apply filter_In in Hc as [Hc _].
  - intros f Hf.
    destruct (group_has_max (facts d) (cur_key f)) as (c & Hc & Hk & Hmax);
      [exists f; auto |].
    exists c. split; [| split; [exact Hk | now apply Hmax]].
    unfold spec_rebuild. apply filter_In. split; [exact Hc |].
    apply is_group_max_spec. intros x Hx Hxk. apply Hmax; [exact Hx | congruence].
  - intros f Hf. unfold fk_ok. simpl. now apply Hfk.
Qed.

(** X28. [rebuild_current_facts] recovers the current view from the log
    alone.  On any database whose [facts] table satisfies its primary key
    and its foreign keys, whatever [current_facts] holds (rows that are no
    facts, stale rows, missing pairs), the rebuild succeeds, replaces
    [current_facts] by the latest fact of every (record, field) pair, leaves
    every other table as it is, and the database then satisfies the
    integrity contract, so that the current view is the maximum-timestamp
    view of the log.  A second rebuild changes nothing. *)
Theorem rebuild_recovers (s : FelixSqlite) :
  NoDup (map fact_key (facts (db_ s))) ->
  (forall f, In f (facts (db_ s)) -> fk_ok (db_ s) f = true) ->
  let s' := set_db (with_current (db_ s) (spec_rebuild (facts (db_ s)))) s in
  rebuild_current_facts s = (Ok tt, s')
  /\ Inv (db_ s') /\ current_is_max (db_ s')
  /\ rebuild_current_facts s' = (Ok tt, s').
Proof.
  intros Hpk Hfk s'.
  assert (Hrun : forall s0, NoDup (map fact_key (facts (db_ s0))) ->
            (forall f, In f (facts (db_ s0)) -> fk_ok (db_ s0) f = true) ->
            rebuild_current_facts s0
            = (Ok tt, set_db (with_current (db_ s0) (spec_rebuild (facts (db_ s0)))) s0)).
  { intros s0 Hpk0 Hfk0.
    unfold rebuild_current_facts, exec, bind, get_db, put_db, throw. simpl.
    rewrite join_latest_spec, insert_all_current_ok; simpl.
    - reflexivity.
    - now apply spec_rebuild_keys.
    - intros f Hf. apply filter_In in Hf as [Hf _]. unfold fk_ok. simpl. now apply Hfk0. }
  pose proof (Inv_of_log (db_ s) Hpk Hfk) as HI.
  split; [now apply Hrun |]. split; [exact HI |]. split; [now apply Inv_P3 |].
  rewrite Hrun.
  - unfold s'. simpl. reflexivity.
  - exact Hpk.
  - intros f Hf. unfold fk_ok. simpl. now apply Hfk.
Qed.

Lemma rebuild_recovers_witness :
  let s := open_store broken_db in
  ~ Inv (db_ s)
  /\ exists s', rebuild_current_facts s = (Ok tt, s') /\ Inv (db_ s')
                /\ current_facts (db_ s') = [mkSqlFact 1 1 1 20; mkSqlFact 1 2 1 5].
Proof.
  intros s. split.
  - intros HI. pose proof (inv_current_in_facts _ HI (mkSqlFact 1 1 1 15)) as H.
    assert (Hin : In (mkSqlFact 1 1 1 15) (current_facts (db_ s))) by (left; reflexivity).
    specialize (H Hin). vm_compute in H. intuition discriminate.
  - assert (Hpk : NoDup (map fact_key (facts (db_ s)))).
    { vm_compute. repeat constructor; simpl; intuition discriminate. }
    assert (Hfk : forall f, In f (facts (db_ s)) -> fk_ok (db_ s) f = true).
    { intros f Hf. vm_compute in Hf. destruct Hf as [<- | [<- | [<- | []]]]; reflexivity. }
    destruct (rebuild_recovers s Hpk Hfk) as (Hrun & HI & _).
    eexists. split; [exact Hrun |]. split; [exact HI |]. reflexivity.
Defined.
